(* ===== verification/_CoqProject ===== *)
-Q . S2P
Prelude.v
Atomic.v
Serial.v
Float64.v
GoStrings.v
Funcs.v
Parse.v
Store.v
Emitter.v
Alarm.v
History.v
Concurrent.v
Rpc.v
Worker.v
WorkerSteps.v
Scheduler.v
Goroutines.v
