(* ===== verification/Prelude.v ===== *)
(** * Verification of the falcon-plus alert judging engine

    The program is the judge of a time-series monitoring platform.  In
    turns it walks the strategy map, fetches the recent history of each
    series from the graph backend over RPC, evaluates a windowed numeric
    function over the history, and decides through a per-alert state machine
    whether a PROBLEM or an OK event goes to the alarm queue.

    ** Parts of the program and where they are modelled

    - [Prelude] (this file).  The Go run-time behaviour that the sources
      rely on: the result of a call as a value [res] (normal return, returned
      [error], run-time panic) with its bind, the refinement order [res_le]
      and the predicate transformer [wp]; the [for i := lo; i < hi; i++]
      statement as [for_loop] and the [range] statement as [for_each], with
      [Continue]/[Break]/[Return] outcomes of the body; slice indexing
      [slice_get] that panics out of range; 64-bit signed arithmetic as [Z]
      with the wrap-around [wrap64] written out; [scan_n], the recursion on
      the list that index loops are proved equal to.
    - [Float64].  IEEE-754 binary64 ([float64]) as the Standard Library's
      [spec_float] at precision 53 and exponent bound 1024: addition,
      subtraction, multiplication, division, absolute value, the ordered
      comparisons, NaN.  The order lemmas go through a key into
      lexicographically ordered integer triples.
    - [GoStrings].  The [strings] and [strconv] calls of the sources:
      [strings.Index], [strings.Split], [strings.Join], [strings.Contains],
      [strconv.Atoi], [strconv.Itoa], string slicing [s[a:b]] and indexing
      [s[i]] with their panics.
    - [Funcs].  src/modules/judge/judge/func2.go: [checkIsTriggered] and the
      [Compute] method of [MaxFunction], [MinFunction], [AllFunction],
      [LookupFunction], [SumFunction], [AvgFunction], [DiffFunction],
      [PDiffFunction], the [RelativeCompute] method of [CAvgRateAbs], and the
      interface [Function] as a tagged union with the two dispatching methods.
    - [Parse].  src/modules/judge/judge/func2.go: [Atois] and
      [ParseFuncFromString].
    - [Store].  src/modules/judge/store/cache.go in [Module Cache]:
      [TmpItemMap] with [Get] and [Set] over a heap of [JudgeItem] objects,
      so that the in-place accumulation [old.Value += item.Value] is visible
      through every alias; and the last-event store [g.LastEvents] as the
      interface [KeyValue] with its [gmap] implementation.
    - [Atomic].  Goroutines as programs of atomic steps on a shared state
      ([prog]), one program run alone ([exec]) and a pool of programs
      interleaved step by step in any order ([pstep]); the programs that
      keep an invariant of the shared state ([safe]).
    - [Serial].  The interface [Movers] of atomic steps that commute across
      keys up to an equivalence of states, and the pools of such steps.
    - [Emitter].  src/modules/judge/cron/judge.go: [sendEvent], with the
      data of [common/model] it works on ([Strategy], [Event]), over a
      [world] made of the last-event store, the lists of the Redis server
      and the commands that the connection is going to lose ([Outages]).
    - [Alarm].  src/modules/judge/cron/judge.go: [sendEventIfNeed], the
      alert state machine; [alert_step] and [transition] are its
      specification, [judgement] is one call as a worker makes it.
    - [History].  The runs of the state machine with the trace of the
      events they emit ([run]).
    - [Concurrent].  [sendEventIfNeed] and [sendEvent] once more, as
      programs of the atomic steps [g.LastEvents.Get], [g.LastEvents.Set]
      and [rc.Do("LPUSH")] ([judge_atom]), for the judgements that are in
      flight at the same time; [world_equiv] is the equivalence of worlds
      that forgets the order of the events on a list.
    - [Rpc].  src/modules/api/rpc/graph.go ([GraphRpc.QueryOne]) and the
      client side of src/modules/judge/cron/judge.go ([GenQParam],
      [queryHistoryData]); the backend and the transport are inputs.
    - [Worker].  src/modules/judge/cron/judge.go: [judgeItemWithStrategy],
      the per-group worker, split at the places where the body can return
      ([judge_strategy], [judge_values], [judge_outcome]), with the variable
      [etime] threaded through the loop the way the source mutates it.
    - [WorkerSteps].  [judgeItemWithStrategy] once more, as the program of
      the atomic steps of the goroutine: the readings of the clock, the
      queries, and the steps of each judgement; the variable [etime] is
      carried by the program.
    - [Scheduler].  src/modules/judge/cron/judge.go: [PullAndJudge] as the
      step relation [step] on a [system] (the time [now1] of the turn that
      dispatches, the groups to start, the running workers, the free slots
      of the semaphore of capacity [ConcurrentOfJudge], the pauses made,
      the state of the workers with the clock), and the end-of-turn sleep
      [turn_sleep].  A turn reads the strategy map when it begins
      ([strategyMap] of the number of the turn) and does not wait for its
      workers.  A worker runs from its start to its end in one step.
    - [Goroutines].  [PullAndJudge] with the workers as goroutines: the
      step relation [fstep] on a [flight], in which the workers in flight
      are programs of [WorkerSteps] that take their atomic steps in any
      order, between them and between the steps of the turns.

    ** What the theorems show

    - [Funcs]: [Compute] equals a reference definition over the window of
      the first [Limit] values ([Compute_window], from one lemma per
      method); results depend only on that window (enough-data
      monotonicity); the inputs on which [DiffFunction] and [PDiffFunction]
      index past the end of the slice and those on which they do not; that
      the other functions never panic on a history that is not empty; NaN
      behaviour; duality of the comparison operators.
    - [Parse]: the round trip from a printed descriptor to the parsed
      function; the rejection of a second [#]; where the first [#] must
      be for the slices to be in range; the range of the parsed
      parameters; the panics of slicing and of [args[1]] as examples.
    - [Store]: the accumulation and replacement laws of [TmpItemMap.Set],
      aliasing included, and the preservation of heap well-formedness.
    - [Emitter]: what [sendEvent] does to the store and to each list,
      when JSON cannot carry a value and when the command is lost.
    - [Alarm]: [sendEventIfNeed] refines the decision table; every event it
      queues is a [transition] of the alert, from which the minimum interval
      between PROBLEM events, the quota bound and the exclusivity of
      recovery follow; the store and the queue stay well formed in every
      reachable world; no panic on a well-formed store, and the panic on a
      last event without status; an alarm that is lost on the way to the
      server is not sent again.  The scenarios 1 to 5 of the specification
      are run.
    - [History]: along every run the events of an alert form a chain of
      the state machine; the lists hold emitted events only, in order, and
      all of them when the connection loses nothing.
    - [Atomic], [Serial], [Concurrent]: a judgement run alone is the
      function of [Alarm]; judgements of different alerts interleaved in
      any order end as each does alone (isolation, from a theorem on
      programs confined to a key each); on a connection that works they
      leave the world that the judgements leave one after the other, up to
      the order of the lists (serializability, from a theorem on pools
      whose steps are [Movers]), so that two judgements commute; two
      judgements of the same alert can both send a first alarm, but
      whatever the alerts and the order of the steps are, the store stays
      well formed, the lists within the quotas and no judgement panics
      (from the rule for invariants of a pool).
    - [Rpc]: what [QueryOne] returns, and that a failure of the backend is
      an empty history for the judge.
    - [Worker]: a [return] in the body abandons the rest of the group; the
      drift of [etime] after [c_avg_rate_abs]; the bounds of the query that
      is sent; the panic on a function text without [#]; the integers of
      the worker stay in their Go types; the worker changes the world by
      judgements only, and returns on every strategy whose function text
      is a printed descriptor of a function that stays in its window.
    - [Scheduler]: the semaphore bounds the running workers; the world of
      every reachable state is made by judgements, so the store is well
      formed, the alerts are chains and the quota holds for the whole
      program, whatever the maps, the order of turns and workers; no
      reachable state is crashed when the strategies are of that kind; a
      step is always possible; the dispatch of a turn ends; the pauses and
      the period that the sleep rule gives; a second turn can start a
      worker on a group whose worker still runs, and a worker judges a
      group that the map of the next turn has lost.
    - [WorkerSteps], [Goroutines]: the program of a worker run alone is
      the function of [Worker]; in every state that the program with
      goroutines reaches, whatever the schedule, the semaphore bounds the
      workers in flight, a step is possible, and on strategies that the
      workers can judge no worker has panicked, the store is well formed,
      the lists are within the quotas and each worker in flight can
      return and release its slot; the program of [Scheduler] is the
      program with goroutines under the schedules that do not interleave
      the workers;
      the workers of two turns on one group, in flight together, send two
      first alarms, so the chains of [History] and [Scheduler] hold of
      the schedules without such workers only.

    ** Bounds and fuel

    Loops are bounded by construction: [for_loop lo hi] runs at most
    [Z.to_nat (hi - lo)] iterations, which is the trip count of the Go loop
    because the index only advances by one and the bound is loop invariant;
    [for_each] recurses on the slice.  No fuel is chosen by hand.  [int] and
    [int64] are 64 bits wide (the build target of the program); sums and
    differences of such values are wrapped by [wrap64], and theorems that
    need the mathematical value state the range as a hypothesis.  The
    scheduler runs for ever: its theorems are invariants of the reachable
    states and a measure that decreases within a turn.

    ** Not modelled

    Logging and printing ([log.Printf], [fmt.Println]).  The MD5 digest,
    the sorting of tags, the formatting of the queue key, the clock, the
    graph backend and the transport of the RPC are parameters: the theorems
    hold for all of them.  The JSON text of an event is represented by the
    event.  The strategy map of each turn is an input: its refresh by the
    configuration collaborator is outside the sources.  In [Scheduler] a
    worker runs as one step, and the theorems of [Scheduler] are about the
    program with such workers; [Goroutines] is the program with the steps
    of the workers interleaved.  An atomic step is a call of
    [SafeEvents.Get], [SafeEvents.Set], [rc.Do], [time.Now] or
    [ApiClient.Call]; the computation between two of them touches no
    shared state.  The time a pause takes is recorded, not linked to the clock,
    which is an arbitrary function of the number of times it was read.
    Slices of pointers are lists of values: a nil element inside
    [resp.Values] is outside the model.  The pointer [&strategy] stored in
    an event is the value of the strategy at that time. *)

From Stdlib Require Import ZArith Lia String Ascii.
From stdpp Require Import base tactics option list strings.

#[local] Open Scope Z_scope.

(** * Results of a Go call *)

(** The run-time panics that the modelled code can raise. *)
Inductive panic : Type :=
| IndexOutOfRange
| SliceBoundsOutOfRange
| NilPointerDereference.

(** Values of Go's [error] that the modelled code can return: the two
    [*strconv.NumError] kinds with the offending text, and the errors built
    by [fmt.Errorf]. *)
Inductive error : Type :=
| ErrSyntax (num : string)
| ErrRange (num : string)
| ErrorString (msg : string).

Inductive res (A : Type) : Type :=
| Ret (a : A)
| Err (e : error)
| Panic (p : panic).

Arguments Ret {A} a.
Arguments Err {A} e.
Arguments Panic {A} p.

Definition res_bind {A B : Type} (m : res A) (k : A -> res B) : res B :=
  match m with
  | Ret a => k a
  | Err e => Err e
  | Panic p => Panic p
  end.

Definition res_map {A B : Type} (f : A -> B) (m : res A) : res B :=
  res_bind m (fun a => Ret (f a)).

Declare Scope res_scope.
Delimit Scope res_scope with res.

Notation "x <- m ;; k" := (res_bind m (fun x => k))
  (at level 100, m at next level, right associativity,
   format "'[v' x  <-  m  ;;  '/' k ']'") : res_scope.

#[local] Open Scope res_scope.

#[export] Instance panic_eq_dec : EqDecision panic.
Proof. solve_decision. Defined.

#[export] Instance error_eq_dec : EqDecision error.
Proof. solve_decision. Defined.

#[export] Instance res_eq_dec {A : Type} `{EqDecision A} : EqDecision (res A).
Proof. solve_decision. Defined.

(** [is_ret m] holds when the call returned normally. *)
Definition is_ret {A : Type} (m : res A) : bool :=
  match m with Ret _ => true | _ => false end.

(** Total correctness: the call returns normally with a value in [Q]. *)
Definition wp {A : Type} (m : res A) (Q : A -> Prop) : Prop :=
  match m with Ret a => Q a | _ => False end.

(** Refinement of results: whatever [m1] returns normally, [m2] returns too.
    It is the order under which a computation on a slice is compared with
    the computation on a longer slice. *)
Definition res_le {A : Type} (m1 m2 : res A) : Prop :=
  forall a, m1 = Ret a -> m2 = Ret a.

(** * The for statement *)

(** What one execution of a loop body does to the enclosing function. *)
Inductive ctl (S R : Type) : Type :=
| Continue (s : S)
| Break (s : S)
| Return (r : R).

Arguments Continue {S R} s.
Arguments Break {S R} s.
Arguments Return {S R} r.

(** [for_range n i body s]: at most [n] iterations from index [i]. *)
Fixpoint for_range {S R : Type} (n : nat) (i : Z)
    (body : Z -> S -> res (ctl S R)) (s : S) : res (S + R) :=
  match n with
  | O => Ret (inl s)
  | Datatypes.S n' =>
      c <- body i s ;;
      match c with
      | Continue s' => for_range n' (i + 1) body s'
      | Break s' => Ret (inl s')
      | Return r => Ret (inr r)
      end
  end.

(** [for i := lo; i < hi; i++ { body }] with loop state [s]. *)
Definition for_loop {S R : Type} (lo hi : Z)
    (body : Z -> S -> res (ctl S R)) (s : S) : res (S + R) :=
  for_range (Z.to_nat (hi - lo)) lo body s.

(** [for _, x := range xs { body }] with loop state [s]. *)
Fixpoint for_each {A S R : Type} (xs : list A)
    (body : A -> S -> res (ctl S R)) (s : S) : res (S + R) :=
  match xs with
  | [] => Ret (inl s)
  | x :: xs' =>
      c <- body x s ;;
      match c with
      | Continue s' => for_each xs' body s'
      | Break s' => Ret (inl s')
      | Return r => Ret (inr r)
      end
  end.

(** A loop without [return] in its body yields its final state. *)
Definition loop_state {S : Type} (m : res (S + Empty_set)) : res S :=
  x <- m ;; match x with inl s => Ret s | inr e => match e with end end.

Lemma loop_state_Ret {S : Type} (s : S) : loop_state (Ret (inl s)) = Ret s.
Proof. reflexivity. Qed.

(** * 64-bit signed integers *)

Definition min_int64 : Z := - 2 ^ 63.
Definition max_int64 : Z := 2 ^ 63 - 1.

Definition in_int64 (z : Z) : bool := (min_int64 <=? z) && (z <=? max_int64).

(** Two's-complement wrap-around of a mathematical integer. *)
Definition wrap64 (z : Z) : Z := (z + 2 ^ 63) mod 2 ^ 64 - 2 ^ 63.

(** * Slices *)

(** [vs[i]]: the element, or the index-out-of-range panic. *)
Definition slice_get {A : Type} (vs : list A) (i : Z) : res A :=
  if i <? 0 then Panic IndexOutOfRange
  else match vs !! Z.to_nat i with
       | Some v => Ret v
       | None => Panic IndexOutOfRange
       end.

(** [len(vs)] as an [int]. *)
Definition len {A : Type} (vs : list A) : Z := Z.of_nat (length vs).

(** * Tactics and hints *)

Create HintDb judge discriminated.
Create Rewrite HintDb judge.

(** Invert hypotheses stating that a sequence of calls returned normally. *)
Ltac res_inv :=
  repeat match goal with
  | H : Ret _ = Ret _ |- _ => injection H as H; try subst
  | H : Err _ = Ret _ |- _ => discriminate H
  | H : Panic _ = Ret _ |- _ => discriminate H
  | H : Ret _ = Err _ |- _ => discriminate H
  | H : Ret _ = Panic _ |- _ => discriminate H
  | H : res_bind ?m _ = Ret _ |- _ =>
      let E := fresh "E" in destruct m eqn:E; simpl in H; try discriminate H
  | H : wp (res_bind ?m _) _ |- _ =>
      let E := fresh "E" in destruct m eqn:E; simpl in H; try contradiction
  end.

(** Turn boolean integer tests of the code into linear arithmetic. *)
Ltac zbool :=
  repeat match goal with
  | H : (_ <? _) = true |- _ => apply Z.ltb_lt in H
  | H : (_ <? _) = false |- _ => apply Z.ltb_ge in H
  | H : (_ <=? _) = true |- _ => apply Z.leb_le in H
  | H : (_ <=? _) = false |- _ => apply Z.leb_gt in H
  | H : (_ >=? _) = true |- _ => rewrite Z.geb_leb in H
  | H : (_ >=? _) = false |- _ => rewrite Z.geb_leb in H
  | H : (_ >? _) = true |- _ => rewrite Z.gtb_ltb in H
  | H : (_ >? _) = false |- _ => rewrite Z.gtb_ltb in H
  | H : (_ =? _) = true |- _ => apply Z.eqb_eq in H
  | H : (_ =? _) = false |- _ => apply Z.eqb_neq in H
  | H : (_ && _)%bool = true |- _ => apply andb_prop in H; destruct H
  | H : negb _ = true |- _ => apply negb_true_iff in H
  | H : negb _ = false |- _ => apply negb_false_iff in H
  end.

(** Case analysis on the integer tests of the goal. *)
Ltac zcases :=
  repeat match goal with
  | |- context [Z.ltb ?a ?b] => destruct (Z.ltb_spec a b)
  | |- context [Z.leb ?a ?b] => destruct (Z.leb_spec a b)
  | |- context [Z.eqb ?a ?b] => destruct (Z.eqb_spec a b)
  | |- context [Z.geb ?a ?b] => rewrite (Z.geb_leb a b)
  | |- context [Z.gtb ?a ?b] => rewrite (Z.gtb_ltb a b)
  end;
  simpl; try (done || lia).

(** * Lemmas on results *)

Section ResLemmas.
Context {A B : Type}.

Lemma res_bind_ret (a : A) (k : A -> res B) : res_bind (Ret a) k = k a.
Proof. reflexivity. Qed.

Lemma res_bind_ret_r (m : res A) : res_bind m Ret = m.
Proof. by destruct m. Qed.

Lemma res_bind_Ret_inv (m : res A) (k : A -> res B) (b : B) :
  res_bind m k = Ret b <-> exists a, m = Ret a /\ k a = Ret b.
Proof.
  destruct m; simpl; split; try discriminate; eauto.
  - intros (a0 & Ha & Hk). by injection Ha as ->.
  - by intros (? & ? & _).
  - by intros (? & ? & _).
Qed.

Lemma wp_bind (m : res A) (k : A -> res B) (Q : B -> Prop) :
  wp (res_bind m k) Q <-> wp m (fun a => wp (k a) Q).
Proof. by destruct m. Qed.

Lemma wp_mono (m : res A) (P Q : A -> Prop) :
  (forall a, P a -> Q a) -> wp m P -> wp m Q.
Proof. destruct m; simpl; auto. Qed.

Lemma wp_Ret_iff (m : res A) (Q : A -> Prop) :
  wp m Q <-> exists a, m = Ret a /\ Q a.
Proof.
  destruct m; simpl; split; try done; eauto.
  - intros (? & [= ->] & ?). done.
  - intros (? & ? & ?). done.
  - intros (? & ? & ?). done.
Qed.

End ResLemmas.

#[export] Instance res_le_preorder {A : Type} : PreOrder (@res_le A).
Proof.
  split.
  - by intros m a.
  - intros m1 m2 m3 H12 H23 a Ha. auto.
Qed.

#[export] Instance res_bind_proper {A B : Type} :
  Proper (res_le ==> pointwise_relation A res_le ==> res_le) (@res_bind A B).
Proof.
  intros m1 m2 Hm k1 k2 Hk b Hb.
  apply res_bind_Ret_inv in Hb as (a & Ha & Hka).
  apply res_bind_Ret_inv. exists a. split; [by apply Hm | by apply Hk].
Qed.

Lemma res_le_refl_eq {A : Type} (m1 m2 : res A) : m1 = m2 -> res_le m1 m2.
Proof. by intros ->. Qed.

Lemma res_le_bind {A B : Type} (m1 m2 : res A) (k1 k2 : A -> res B) :
  res_le m1 m2 -> (forall a, m1 = Ret a -> res_le (k1 a) (k2 a)) ->
  res_le (res_bind m1 k1) (res_bind m2 k2).
Proof.
  intros Hm Hk b Hb.
  apply res_bind_Ret_inv in Hb as (a & Ha & Hka).
  apply res_bind_Ret_inv. exists a. split; [by apply Hm | by apply Hk].
Qed.

Lemma res_le_Ret {A : Type} (a : A) (m : res A) : res_le (Ret a) m <-> m = Ret a.
Proof. split; [intros H; by apply H | by intros -> ?]. Qed.

Lemma res_le_apply {A : Type} (m1 m2 : res A) (a : A) :
  res_le m1 m2 -> m1 = Ret a -> m2 = Ret a.
Proof. auto. Qed.

#[export] Hint Resolve res_le_refl_eq res_le_bind : judge.

(** * Lemmas on the for statement *)

Section ForLemmas.
Context {S R : Type}.
Implicit Types (body : Z -> S -> res (ctl S R)) (s : S).

Lemma for_loop_done lo hi body s : hi <= lo -> for_loop lo hi body s = Ret (inl s).
Proof.
  intros H. unfold for_loop. by replace (Z.to_nat (hi - lo)) with O by lia.
Qed.

Lemma for_loop_unroll lo hi body s :
  lo < hi ->
  for_loop lo hi body s =
    (c <- body lo s ;;
     match c with
     | Continue s' => for_loop (lo + 1) hi body s'
     | Break s' => Ret (inl s')
     | Return r => Ret (inr r)
     end).
Proof.
  intros H. unfold for_loop.
  replace (Z.to_nat (hi - lo)) with (Datatypes.S (Z.to_nat (hi - (lo + 1)))) by lia.
  reflexivity.
Qed.

(** Two bodies that agree up to [res_le] on the indices the loop visits
    give loops that agree up to [res_le]. *)
Lemma for_range_le n i body1 body2 s :
  (forall j s', i <= j < i + Z.of_nat n -> res_le (body1 j s') (body2 j s')) ->
  res_le (for_range n i body1 s) (for_range n i body2 s).
Proof.
  revert i s. induction n as [|n IH]; intros i s Hb; [done|].
  simpl. apply res_le_bind; [apply Hb; lia|].
  intros [s'| |] _; try done. apply IH. intros j s'' Hj. apply Hb. lia.
Qed.

Lemma for_loop_le lo hi body1 body2 s :
  (forall j s', lo <= j < hi -> res_le (body1 j s') (body2 j s')) ->
  res_le (for_loop lo hi body1 s) (for_loop lo hi body2 s).
Proof. intros Hb. apply for_range_le. intros j s' Hj. apply Hb. lia. Qed.

(** The invariant rule.  [I j s] holds before the iteration at index [j];
    a body that continues re-establishes it at [j + 1]; [Q] holds of every
    way the loop is left. *)
Lemma for_range_inv (I : Z -> S -> Prop) (Q : S + R -> Prop) n i body s :
  I i s ->
  (forall j s', i <= j < i + Z.of_nat n -> I j s' ->
     wp (body j s') (fun c =>
       match c with
       | Continue s'' => I (j + 1) s''
       | Break s'' => Q (inl s'')
       | Return r => Q (inr r)
       end)) ->
  (forall s', I (i + Z.of_nat n) s' -> Q (inl s')) ->
  wp (for_range n i body s) Q.
Proof.
  revert i s. induction n as [|n IH]; intros i s Hi Hb Hq; simpl.
  - apply Hq. by replace (i + Z.of_nat 0) with i by lia.
  - apply wp_bind. eapply wp_mono; [|apply Hb; [lia|done]].
    intros [s'| |] Hc; simpl; try done.
    apply IH; [done| |].
    + intros j s'' Hj. apply Hb. lia.
    + intros s''. replace (i + 1 + Z.of_nat n) with (i + Z.of_nat (Datatypes.S n)) by lia.
      apply Hq.
Qed.

Lemma for_loop_inv (I : Z -> S -> Prop) (Q : S + R -> Prop) lo hi body s :
  lo <= hi ->
  I lo s ->
  (forall j s', lo <= j < hi -> I j s' ->
     wp (body j s') (fun c =>
       match c with
       | Continue s'' => I (j + 1) s''
       | Break s'' => Q (inl s'')
       | Return r => Q (inr r)
       end)) ->
  (forall s', I hi s' -> Q (inl s')) ->
  wp (for_loop lo hi body s) Q.
Proof.
  intros Hle Hi Hb Hq. apply for_range_inv with (I := I); [done| |].
  - intros j s' Hj. apply Hb. lia.
  - intros s'. replace (lo + Z.of_nat (Z.to_nat (hi - lo))) with hi by lia. apply Hq.
Qed.

End ForLemmas.

(** * Lemmas on 64-bit integers *)

Lemma in_int64_spec z : in_int64 z = true <-> - 2 ^ 63 <= z <= 2 ^ 63 - 1.
Proof. unfold in_int64, min_int64, max_int64. rewrite andb_true_iff, !Z.leb_le. done. Qed.

Lemma wrap64_id z : in_int64 z = true -> wrap64 z = z.
Proof.
  intros H%in_int64_spec. unfold wrap64.
  rewrite Z.mod_small; lia.
Qed.

Lemma wrap64_range z : in_int64 (wrap64 z) = true.
Proof.
  apply in_int64_spec. unfold wrap64.
  pose proof (Z.mod_pos_bound (z + 2 ^ 63) (2 ^ 64) ltac:(lia)). lia.
Qed.

Lemma wrap64_sub_zero a b :
  in_int64 a = true -> in_int64 b = true -> wrap64 (a - b) = 0 <-> a = b.
Proof.
  intros Ha%in_int64_spec Hb%in_int64_spec. unfold wrap64. split.
  - intros H.
    pose proof (Z.div_mod (a - b + 2 ^ 63) (2 ^ 64) ltac:(lia)) as Hd.
    set (q := (a - b + 2 ^ 63) / 2 ^ 64) in Hd. lia.
  - intros ->. rewrite Z.sub_diag. reflexivity.
Qed.

#[export] Hint Rewrite wrap64_id using (assumption || (apply in_int64_spec; lia)) : judge.
#[export] Hint Resolve wrap64_range : judge.

(** * Lemmas on slices *)

Section SliceLemmas.
Context {A : Type}.
Implicit Types (vs : list A) (i : Z).

Lemma slice_get_Ret vs i v :
  slice_get vs i = Ret v <-> 0 <= i /\ vs !! Z.to_nat i = Some v.
Proof.
  unfold slice_get. destruct (Z.ltb_spec i 0).
  - split; [done | lia].
  - destruct (vs !! Z.to_nat i) eqn:E; split; try done.
    + intros [= ->]. done.
    + intros [_ [= ->]]. done.
    + intros [_ ?]. done.
Qed.

Lemma slice_get_in_range vs i :
  0 <= i < len vs -> exists v, slice_get vs i = Ret v.
Proof.
  unfold len. intros Hi.
  destruct (lookup_lt_is_Some_2 vs (Z.to_nat i)) as [v Hv]; [lia|].
  exists v. apply slice_get_Ret. split; [lia | done].
Qed.

Lemma slice_get_out_of_range vs i :
  i < 0 \/ len vs <= i -> slice_get vs i = Panic IndexOutOfRange.
Proof.
  unfold len, slice_get. intros Hi. destruct (Z.ltb_spec i 0); [done|].
  rewrite lookup_ge_None_2; [done | lia].
Qed.

Lemma slice_get_is_ret vs i :
  is_ret (slice_get vs i) = (0 <=? i) && (i <? len vs).
Proof.
  destruct (Z.leb_spec 0 i), (Z.ltb_spec i (len vs)); simpl.
  - destruct (slice_get_in_range vs i) as [v ->]; [lia | done].
  - rewrite slice_get_out_of_range; [done | lia].
  - rewrite slice_get_out_of_range; [done | lia].
  - rewrite slice_get_out_of_range; [done | lia].
Qed.

(** Reading a slice and reading a longer slice with the same prefix. *)
Lemma slice_get_app_le vs ext i : res_le (slice_get vs i) (slice_get (vs ++ ext) i).
Proof.
  intros v [Hi Hv]%slice_get_Ret. apply slice_get_Ret. split; [done|].
  by apply lookup_app_l_Some.
Qed.

Lemma slice_get_take vs (n : nat) i :
  i < Z.of_nat n -> slice_get (take n vs) i = slice_get vs i.
Proof.
  intros Hi. unfold slice_get. destruct (Z.ltb_spec i 0); [done|].
  rewrite lookup_take_lt; [done | lia].
Qed.

Lemma slice_get_cons_succ (v : A) vs i :
  0 <= i -> slice_get (v :: vs) (i + 1) = slice_get vs i.
Proof.
  intros Hi. unfold slice_get.
  destruct (Z.ltb_spec (i + 1) 0), (Z.ltb_spec i 0); try lia.
  replace (Z.to_nat (i + 1)) with (Datatypes.S (Z.to_nat i)) by lia. done.
Qed.

Lemma len_app vs ext : len (vs ++ ext) = len vs + len ext.
Proof. unfold len. rewrite length_app. lia. Qed.

Lemma len_nonneg vs : 0 <= len vs.
Proof. unfold len. lia. Qed.

Lemma NoDup_pair (x y : A) : x <> y -> NoDup [x; y].
Proof.
  intros Hne. apply NoDup_cons. split; [by intros ?%list_elem_of_singleton|].
  apply NoDup_singleton.
Qed.

End SliceLemmas.

#[export] Hint Resolve slice_get_app_le : judge.
#[export] Hint Rewrite @len_app : judge.

(** * Index loops as list recursion *)

(** [scan_n g n l s] consumes up to [n] elements of [l], as a loop that reads
    [vs[i]], [vs[i+1]], ... does: running out of elements before [n]
    iterations is the index-out-of-range panic. *)
Fixpoint scan_n {A S R : Type} (g : S -> A -> ctl S R) (n : nat) (l : list A)
    (s : S) : res (S + R) :=
  match n with
  | O => Ret (inl s)
  | Datatypes.S n' =>
      match l with
      | [] => Panic IndexOutOfRange
      | v :: l' =>
          match g s v with
          | Continue s' => scan_n g n' l' s'
          | Break s' => Ret (inl s')
          | Return r => Ret (inr r)
          end
      end
  end.

Section ScanLemmas.
Context {A S R : Type}.
Implicit Types (g : S -> A -> ctl S R) (l vs : list A) (s : S).

(** A loop whose body reads the slice at the loop index and nothing else of
    the index is a scan of the slice from the first index. *)
Lemma for_range_scan_n g vs n i body s :
  0 <= i ->
  (forall j s', body j s' = (v <- slice_get vs j ;; Ret (g s' v))) ->
  for_range n i body s = scan_n g n (drop (Z.to_nat i) vs) s.
Proof.
  intros Hi Hbody. revert i s Hi. induction n as [|n IH]; intros i s Hi; [done|].
  simpl. rewrite Hbody. unfold slice_get.
  destruct (Z.ltb_spec i 0); [lia|].
  destruct (vs !! Z.to_nat i) as [v|] eqn:E; simpl.
  - rewrite (drop_S _ _ _ E).
    destruct (g s v); try done.
    rewrite IH by lia. by replace (Z.to_nat (i + 1)) with (Datatypes.S (Z.to_nat i)) by lia.
  - apply lookup_ge_None_1 in E. by rewrite drop_ge.
Qed.

Lemma for_loop_scan_n g vs lo hi body s :
  0 <= lo ->
  (forall j s', body j s' = (v <- slice_get vs j ;; Ret (g s' v))) ->
  for_loop lo hi body s = scan_n g (Z.to_nat (hi - lo)) (drop (Z.to_nat lo) vs) s.
Proof. intros. by apply for_range_scan_n. Qed.

(** Only the first [n] elements matter. *)
Lemma scan_n_take g n l s : scan_n g n (take n l) s = scan_n g n l s.
Proof.
  revert l s. induction n as [|n IH]; intros [|v l] s; simpl; try done.
  destruct (g s v); auto.
Qed.

Lemma scan_n_app_le g n l ext s : res_le (scan_n g n l s) (scan_n g n (l ++ ext) s).
Proof.
  revert l s. induction n as [|n IH]; intros [|v l] s; simpl; try reflexivity.
  - intros ? [=].
  - destruct (g s v); auto; reflexivity.
Qed.

(** A scan that looks at the elements through a projection. *)
Lemma scan_n_fmap {B : Type} (f : B -> A) g n (l : list B) s :
  scan_n (fun s v => g s (f v)) n l s = scan_n g n (f <$> l) s.
Proof.
  revert l s. induction n as [|n IH]; intros [|v l] s; simpl; try done.
  destruct (g s (f v)); auto.
Qed.

(** A body that never leaves the loop folds the window. *)
Lemma scan_n_fold (f : S -> A -> S) n l s :
  (n <= length l)%nat ->
  scan_n (R := R) (fun s v => Continue (f s v)) n l s = Ret (inl (foldl f s (take n l))).
Proof.
  revert l s. induction n as [|n IH]; intros [|v l] s Hn; simpl in *; try done; try lia.
  apply IH. lia.
Qed.

(** With too few elements and no way out of the loop, the scan panics. *)
Lemma scan_n_short g n l s :
  (length l < n)%nat ->
  (forall s' v, v ∈ l -> exists s'', g s' v = Continue s'') ->
  scan_n g n l s = Panic IndexOutOfRange.
Proof.
  revert n s. induction l as [|v l IH]; intros [|n] s Hn Hg; simpl in *; try done; try lia.
  destruct (Hg s v) as [s'' ->]; [by left|].
  apply IH; [lia|]. intros s' v' Hv'. apply Hg. by right.
Qed.

(** With enough elements the scan returns normally. *)
Lemma scan_n_is_ret g n l s : (n <= length l)%nat -> is_ret (scan_n g n l s) = true.
Proof.
  revert l s. induction n as [|n IH]; intros [|v l] s Hn; simpl in *; try done; try lia.
  destruct (g s v); try done. apply IH. lia.
Qed.

End ScanLemmas.

#[export] Hint Resolve scan_n_app_le : judge.

(** Prove that a computation on a slice is refined by the same computation
    on an extension of the slice: descend through the sequencing and the
    loops down to the reads of the slice. *)
Ltac solve_res_le :=
  repeat first
    [ reflexivity
    | apply slice_get_app_le
    | apply res_le_bind; [|intros ? _]
    | apply for_loop_le; intros ? ? _
    | progress unfold loop_state ].

(** A property of all elements of a list holds of a sublist of it. *)
Lemma Forall_sublist {A : Type} (P : A -> Prop) (k l : list A) :
  k `sublist_of` l -> Forall P l -> Forall P k.
Proof.
  induction 1 as [|x k l _ IH|x k l _ IH]; [done| |];
    intros [Hx Hl]%Forall_cons; [constructor|]; auto.
Qed.

(** [vs[len(vs)-1]] is the last element of a slice that has one. *)
Lemma slice_get_last {A : Type} (vs : list A) :
  slice_get vs (len vs - 1)
  = match last vs with Some v => Ret v | None => Panic IndexOutOfRange end.
Proof.
  unfold slice_get, len. rewrite last_lookup.
  destruct vs as [|v vs]; [done|].
  destruct (Z.ltb_spec (Z.of_nat (length (v :: vs)) - 1) 0) as [Hlt|_];
    [simpl in Hlt; lia|].
  replace (Z.to_nat (Z.of_nat (length (v :: vs)) - 1)) with (pred (length (v :: vs)))
    by (simpl; lia).
  by destruct (_ !! _).
Qed.

(** * Loops over slices *)

(** The invariant rule of [range] loops: a property of the state that
    every iteration keeps holds of the state the loop ends in, and a
    property of what the body returns holds of what the loop returns. *)
Lemma for_each_inv {A S R : Type} (P : S -> Prop) (Q : R -> Prop) (xs : list A)
    (body : A -> S -> res (ctl S R)) :
  (forall x s c, x ∈ xs -> P s -> body x s = Ret c ->
     match c with Continue s' | Break s' => P s' | Return r => Q r end) ->
  forall s out, P s -> for_each xs body s = Ret out ->
  match out with inl s' => P s' | inr r => Q r end.
Proof.
  induction xs as [|x xs IH]; intros Hbody s out Hs Hrun; simpl in Hrun.
  - by injection Hrun as <-.
  - destruct (body x s) as [c| |] eqn:Hc; try done. simpl in Hrun.
    pose proof (Hbody x s c (list_elem_of_here _ _) Hs Hc) as Hstep.
    destruct c as [s'|s'|r]; [|by injection Hrun as <-..].
    eapply IH; [|exact Hstep|exact Hrun].
    intros y t c Hy. apply Hbody. by apply list_elem_of_further.
Qed.

(** A loop whose body never panics and never fails ends. *)
Lemma for_each_is_ret {A S R : Type} (P : S -> Prop) (xs : list A)
    (body : A -> S -> res (ctl S R)) :
  (forall x s, x ∈ xs -> P s -> exists c, body x s = Ret c /\
     match c with Continue s' => P s' | _ => True end) ->
  forall s, P s -> exists out, for_each xs body s = Ret out.
Proof.
  induction xs as [|x xs IH]; intros Hbody s Hs; simpl; [by eexists|].
  destruct (Hbody x s (list_elem_of_here _ _) Hs) as (c & -> & Hc). simpl.
  destruct c as [s'|s'|r]; [|by eexists..].
  apply IH; [|done]. intros y t Hy. apply Hbody. by apply list_elem_of_further.
Qed.

(** A body that returns stops the loop: the elements after it are not
    visited. *)
Lemma for_each_return {A S R : Type} (x : A) (xs : list A)
    (body : A -> S -> res (ctl S R)) (s : S) (r : R) :
  body x s = Ret (Return r) -> for_each (x :: xs) body s = Ret (inr r).
Proof. intros Hx. simpl. by rewrite Hx. Qed.

Lemma for_each_continue {A S R : Type} (x : A) (xs : list A)
    (body : A -> S -> res (ctl S R)) (s s' : S) :
  body x s = Ret (Continue s') -> for_each (x :: xs) body s = for_each xs body s'.
Proof. intros Hx. simpl. by rewrite Hx. Qed.
