(* ===== verification/Atomic.v ===== *)
(** * Atomic: goroutines as programs of atomic steps

    The goroutines of the judge share the last-event store and the
    connection to the server, and reach them through operations that are
    atomic one by one ([SafeEvents.Get], [SafeEvents.Set], [rc.Do]).  A
    [prog] is the code of a goroutine as the sequence of its atomic
    steps on the shared state, with the computation between two steps
    in the continuation; [exec] runs one program alone; [pstep] runs a
    pool of programs, one atomic step of one program at a time, in any
    order.

    [isolation] is the theorem the components use: when each program of
    a pool reads and writes the shared state under a key of its own, it
    sees under that key what it would see if it ran alone.  [pool_safe_run]
    is the rule for invariants: a property of the shared state that each
    atomic step of each program keeps holds in every state of the pool. *)

From Stdlib Require Import ZArith Lia.
From stdpp Require Import base tactics option list relations.
From S2P Require Import Prelude.

Local Open Scope res_scope.

(** A program over the shared state [St] that ends in a result of type
    [A]: it is done, with a value, an error or a panic, or it makes an
    atomic step that reads a value off the state and changes it, and
    goes on with that value. *)
Inductive prog (St A : Type) : Type :=
  | Done (r : res A)
  | Atom {X : Type} (act : St -> X * St) (k : X -> prog St A).

Arguments Done {St A} r.
Arguments Atom {St A X} act k.

(** One atomic step. *)
Definition atom {St X : Type} (act : St -> X * St) : prog St X :=
  Atom act (fun x => Done (Ret x)).

(** Computation that does not touch the shared state. *)
Definition lift {St A : Type} (r : res A) : prog St A := Done r.

(** [return] without a value. *)
Definition skip {St : Type} : prog St unit := Done (Ret tt).

Fixpoint prog_bind {St A B : Type} (m : prog St A) (f : A -> prog St B) : prog St B :=
  match m with
  | Done (Ret a) => f a
  | Done (Err e) => Done (Err e)
  | Done (Panic p) => Done (Panic p)
  | Atom act k => Atom act (fun x => prog_bind (k x) f)
  end.

Declare Scope prog_scope.
Delimit Scope prog_scope with prog.
Notation "x <- m ;; k" := (prog_bind m (fun x => k))
  (at level 100, m at next level, right associativity) : prog_scope.
Notation "m ;; k" := (prog_bind m (fun _ => k))
  (at level 100, right associativity) : prog_scope.

(** A program run alone, from a state: its result and the state it
    leaves. *)
Fixpoint exec {St A : Type} (m : prog St A) (s : St) : res (A * St) :=
  match m with
  | Done r => res_map (fun a => (a, s)) r
  | Atom act k => exec (k (act s).1) (act s).2
  end.

(** The state a program run alone leaves. *)
Definition exec_state {St A : Type} (m : prog St A) (s : St) : res St :=
  res_map snd (exec m s).

(** * Programs made of given steps *)

(** A program whose atomic steps all satisfy [P]. *)
Fixpoint made_of {St : Type} (P : forall X : Type, (St -> X * St) -> Prop) {A : Type}
    (m : prog St A) : Prop :=
  match m with
  | Done _ => True
  | Atom act k => P _ act /\ forall x, made_of P (k x)
  end.

Lemma made_of_bind {St A B : Type} (P : forall X : Type, (St -> X * St) -> Prop)
    (m : prog St A) (f : A -> prog St B) :
  made_of P m -> (forall a, made_of P (f a)) -> made_of P (prog_bind m f).
Proof.
  intros Hm Hf. induction m as [[a|e|p]|X act k IH]; cbn; try done.
  destruct Hm as [Hact Hk]. split; [done|]. intros x. by apply IH.
Qed.

Lemma made_of_mono {St A : Type} (P Q : forall X : Type, (St -> X * St) -> Prop)
    (m : prog St A) :
  (forall X act, P X act -> Q X act) -> made_of P m -> made_of Q m.
Proof.
  intros HPQ. induction m as [r|X act k IH]; [done|]. intros [Hact Hk].
  split; [by apply HPQ|]. intros x. by apply IH.
Qed.

(** * Pools *)

Section Pool.
Context {St : Type}.

(** The goroutines in flight; one that has returned stays in the pool
    as [skip]. *)
Abbreviation pool := (list (prog St unit)).

(** One atomic step of one goroutine of the pool. *)
Inductive pstep : St * pool -> St * pool -> Prop :=
  | pstep_atom (s : St) (threads : pool) (i : nat) (X : Type) (act : St -> X * St)
      (k : X -> prog St unit) :
      threads !! i = Some (Atom act k) ->
      pstep (s, threads) ((act s).2, <[i := k (act s).1]> threads).

(** One atomic step of a program that runs alone. *)
Inductive sstep {A : Type} : St * prog St A -> St * prog St A -> Prop :=
  | sstep_atom (s : St) (X : Type) (act : St -> X * St) (k : X -> prog St A) :
      sstep (s, Atom act k) ((act s).2, k (act s).1).

Lemma exec_bind {A B : Type} (m : prog St A) (f : A -> prog St B) (s : St) :
  exec (prog_bind m f) s = (r <- exec m s ;; exec (f r.1) r.2).
Proof.
  revert s. induction m as [[a|e|p]|X act k IH]; intros s; cbn; by try done.
Qed.

Lemma exec_state_bind {A B : Type} (m : prog St A) (f : A -> prog St B) (s : St) :
  exec_state (prog_bind m f) s = (r <- exec m s ;; exec_state (f r.1) r.2).
Proof. unfold exec_state. rewrite exec_bind. by destruct (exec m s). Qed.

Lemma exec_atom {X : Type} (act : St -> X * St) (s : St) : exec (atom act) s = Ret (act s).
Proof. cbn. by destruct (act s). Qed.

Lemma exec_lift {A : Type} (r : res A) (s : St) : exec (lift r) s = res_map (fun a => (a, s)) r.
Proof. reflexivity. Qed.

(** A program without value leaves its state only. *)
Lemma exec_unit (m : prog St unit) (s : St) :
  exec m s = res_map (fun s' => (tt, s')) (exec_state m s).
Proof. unfold exec_state. by destruct (exec m s) as [[[] s']| |]. Qed.

(** The steps of a program that runs alone are its execution. *)
Lemma sstep_exec {A : Type} (m m' : prog St A) (s s' : St) :
  sstep (s, m) (s', m') -> exec m s = exec m' s'.
Proof. by inversion 1; simplify_eq. Qed.

Lemma ssteps_exec {A : Type} (m m' : prog St A) (s s' : St) :
  rtc sstep (s, m) (s', m') -> exec m s = exec m' s'.
Proof.
  intros Hrun. remember (s, m) as c eqn:Hc. remember (s', m') as c' eqn:Hc'.
  revert s m Hc. induction Hrun as [c|c [s1 m1] c' Hstep _ IH]; intros s m ->.
  - by simplify_eq.
  - rewrite (sstep_exec _ _ _ _ Hstep). by apply IH.
Qed.

(** Running one goroutine of a pool to its end is one of the schedules
    of the pool. *)
Lemma exec_schedule (m : prog St unit) (s s' : St) (threads : pool) (i : nat) :
  threads !! i = Some m -> exec m s = Ret (tt, s') ->
  rtc pstep (s, threads) (s', <[i := skip]> threads).
Proof.
  revert s threads. induction m as [[[]|e|p]|X act k IH]; intros s threads Hi; cbn;
    try done.
  - intros [= <-]. by rewrite list_insert_id.
  - intros Hrun. eapply rtc_l; [by apply pstep_atom|].
    rewrite <- (list_insert_insert_eq threads i skip (k (act s).1)).
    apply (IH (act s).1); [|done]. apply list_lookup_insert_eq. by eapply lookup_lt_Some.
Qed.

(** The pool after the steps of a schedule: the goroutine of each index
    of the list takes a step in its turn, when it has one to take. *)
Fixpoint run_schedule (schedule : list nat) (c : St * pool) : St * pool :=
  match schedule with
  | [] => c
  | i :: schedule =>
      match c.2 !! i with
      | Some (Atom act k) => run_schedule schedule ((act c.1).2, <[i := k (act c.1).1]> c.2)
      | _ => run_schedule schedule c
      end
  end.

Lemma run_schedule_steps (schedule : list nat) (c : St * pool) :
  rtc pstep c (run_schedule schedule c).
Proof.
  revert c. induction schedule as [|i schedule IH]; intros [s threads]; cbn; [done|].
  destruct (threads !! i) as [[r|X act k]|] eqn:Hi; try apply IH.
  eapply rtc_l; [by apply pstep_atom | apply IH].
Qed.

End Pool.

(** * Invariants *)

Section Invariant.
Context {St : Type} (I : St -> Prop).

(** A program that keeps the invariant [I] and returns when it ends:
    from every state that satisfies [I], each atomic step leads to a
    state that satisfies [I], and the program goes on as such a program
    with what the step has read. *)
Fixpoint safe {A : Type} (m : prog St A) : Prop :=
  match m with
  | Done r => is_ret r = true
  | Atom act k => forall s, I s -> I (act s).2 /\ safe (k (act s).1)
  end.

Lemma safe_bind {A B : Type} (m : prog St A) (f : A -> prog St B) :
  safe m -> (forall a, safe (f a)) -> safe (prog_bind m f).
Proof.
  intros Hm Hf. induction m as [[a|e|p]|X act k IH]; cbn; try done.
  intros s Hs. destruct (Hm s Hs) as [Hs' Hk]. split; [done|]. by apply IH.
Qed.

Lemma safe_atom {X : Type} (act : St -> X * St) :
  (forall s, I s -> I (act s).2) -> safe (atom act).
Proof. intros Hact s Hs. split; [by apply Hact | done]. Qed.

(** The program after an atomic step goes on with what the step has
    read in a state that satisfies the invariant. *)
Lemma safe_atom_bind {X B : Type} (act : St -> X * St) (f : X -> prog St B) :
  (forall s, I s -> I (act s).2 /\ safe (f (act s).1)) -> safe (prog_bind (atom act) f).
Proof. done. Qed.

(** The states of a pool of safe programs satisfy the invariant, and
    the programs stay safe: the steps of the others are steps from a
    state that satisfies the invariant to another. *)
Definition pool_safe (c : St * list (prog St unit)) : Prop := I c.1 /\ Forall safe c.2.

Lemma pool_safe_step (c c' : St * list (prog St unit)) :
  pstep c c' -> pool_safe c -> pool_safe c'.
Proof.
  intros [s threads i X act k Hi] [Hs Hsafe]. cbn in *.
  destruct (proj1 (Forall_lookup _ _) Hsafe i _ Hi s Hs) as [Hs' Hk].
  split; [done|]. by apply Forall_insert.
Qed.

Lemma pool_safe_run (c c' : St * list (prog St unit)) :
  rtc pstep c c' -> pool_safe c -> pool_safe c'.
Proof. induction 1; eauto using pool_safe_step. Qed.

(** No goroutine of a pool of safe programs ends in a panic. *)
Lemma pool_safe_no_panic (s : St) (threads : list (prog St unit)) (p : panic) :
  pool_safe (s, threads) -> Done (Panic p) ∉ threads.
Proof.
  intros [_ Hsafe] Hin. rewrite Forall_forall in Hsafe. by pose proof (Hsafe _ Hin).
Qed.

End Invariant.

(** * Isolation *)

Section Isolation.
Context {St K V : Type} (view : St -> K -> V).

(** An atomic step that is local to a key: what it reads and what it
    leaves under the key depend on the state under that key only, and it
    leaves the state under the other keys as it is. *)
Definition local (key : K) {X : Type} (act : St -> X * St) : Prop :=
  (forall s u, view s key = view u key ->
     (act s).1 = (act u).1 /\ view (act s).2 key = view (act u).2 key)
  /\ (forall s key', key' <> key -> view (act s).2 key' = view s key').

(** A program whose steps are all local to a key. *)
Definition confined (key : K) {A : Type} (m : prog St A) : Prop :=
  made_of (fun X act => local key act) m.

Lemma confined_bind (key : K) {A B : Type} (m : prog St A) (f : A -> prog St B) :
  confined key m -> (forall a, confined key (f a)) -> confined key (prog_bind m f).
Proof. apply made_of_bind. Qed.

(** What a goroutine sees under its key is what it would see alone:
    [t] is what is left of [t0] after some steps of [t0] alone from
    [s0], which lead to a state equal to [s] under [key]. *)
Definition as_alone (s0 s : St) (key : K) (t0 t : prog St unit) : Prop :=
  exists u, rtc sstep (s0, t0) (u, t) /\ view s key = view u key.

Lemma as_alone_other (s0 s : St) (key key' : K) (t0 t : prog St unit) (X : Type)
    (act : St -> X * St) :
  local key' act -> key <> key' ->
  as_alone s0 s key t0 t -> as_alone s0 (act s).2 key t0 t.
Proof.
  intros [_ Hframe] Hne (u & Hrun & Hv). exists u. split; [done|]. by rewrite Hframe.
Qed.

Lemma as_alone_step (s0 s : St) (key : K) (t0 : prog St unit) (X : Type)
    (act : St -> X * St) (k : X -> prog St unit) :
  local key act ->
  as_alone s0 s key t0 (Atom act k) -> as_alone s0 (act s).2 key t0 (k (act s).1).
Proof.
  intros [Hloc _] (u & Hrun & Hv). destruct (Hloc s u Hv) as [Hx Hv'].
  exists (act u).2. split; [|done]. eapply rtc_r; [exact Hrun|].
  rewrite Hx. apply sstep_atom.
Qed.

(** ** A pool of goroutines with a key each *)

Section Keyed.
Context (keys : list K) (threads0 : list (prog St unit)) (s0 : St).
Context (Hkeys : NoDup keys) (Hlen : length threads0 = length keys).
Context (Hconf : forall i key t0,
           keys !! i = Some key -> threads0 !! i = Some t0 -> confined key t0).

(** What the steps of the pool keep true: each goroutine is confined to
    its key and sees under it what it would see alone. *)
Definition alone_inv (c : St * list (prog St unit)) : Prop :=
  length c.2 = length keys
  /\ forall i key t0 t,
       keys !! i = Some key -> threads0 !! i = Some t0 -> c.2 !! i = Some t ->
       confined key t /\ as_alone s0 c.1 key t0 t.

Lemma alone_inv_init : alone_inv (s0, threads0).
Proof.
  split; [done|]. intros i key t0 t Hk Ht0 Ht. cbn in Ht. simplify_eq.
  split; [by eapply Hconf|]. by exists s0.
Qed.

Lemma alone_inv_step (c c' : St * list (prog St unit)) :
  pstep c c' -> alone_inv c -> alone_inv c'.
Proof.
  intros [s threads j X act k Hj] [Hl Hinv]. unfold alone_inv. cbn in *.
  split; [by rewrite length_insert|]. intros i key t0 t Hk Ht0 Ht.
  destruct (lookup_lt_is_Some_2 keys j) as [keyj Hkj];
    [rewrite <- Hl; by eapply lookup_lt_Some|].
  destruct (lookup_lt_is_Some_2 threads0 j) as [tj Htj];
    [rewrite Hlen, <- Hl; by eapply lookup_lt_Some|].
  destruct (Hinv j keyj tj _ Hkj Htj Hj) as [[Hloc Hk'] Haj].
  destruct (decide (i = j)) as [->|Hne].
  - rewrite list_lookup_insert_eq in Ht by by eapply lookup_lt_Some. simplify_eq.
    split; [apply Hk'|]. by apply as_alone_step.
  - rewrite list_lookup_insert_ne in Ht by done.
    destruct (Hinv i key t0 t Hk Ht0 Ht) as [Hc Ha]. split; [done|].
    eapply as_alone_other; [done| |done]. intros ->.
    by apply Hne, (NoDup_lookup keys i j keyj).
Qed.

(** Isolation: in every state the pool reaches, each goroutine is what
    is left of its program after steps it could make alone from the
    first state, and the state under its key is the one those steps
    lead to. *)
Lemma isolation (c : St * list (prog St unit)) :
  rtc pstep (s0, threads0) c -> alone_inv c.
Proof.
  intros Hrun. revert c Hrun. apply (rtc_ind_r alone_inv); [apply alone_inv_init|].
  intros c c' _ Hstep Hinv. by eapply alone_inv_step.
Qed.

(** A goroutine that has ended in the pool has ended as it does alone,
    and leaves under its key what it leaves alone. *)
Lemma isolation_done (s : St) (threads : list (prog St unit)) (i : nat) (key : K)
    (t0 : prog St unit) (r : res unit) :
  rtc pstep (s0, threads0) (s, threads) ->
  keys !! i = Some key -> threads0 !! i = Some t0 -> threads !! i = Some (Done r) ->
  exists u, exec t0 s0 = res_map (fun a => (a, u)) r /\ view s key = view u key.
Proof.
  intros Hrun Hk Ht0 Ht. destruct (isolation _ Hrun) as [_ Hinv].
  destruct (Hinv i key t0 _ Hk Ht0 Ht) as [_ (u & Halone & Hv)].
  exists u. split; [|done]. by rewrite (ssteps_exec _ _ _ _ Halone).
Qed.

End Keyed.

End Isolation.
