(* ===== verification/Serial.v ===== *)
(** * Serial: pools whose steps commute

    A pool of goroutines is serializable when the atomic steps of
    different goroutines commute: whatever the order in which the steps of
    the pool are taken, the state the pool reaches is the state the
    goroutines leave when they run one after the other, each to its end,
    in the order of the pool.

    The steps commute up to an equivalence of states (the order of the
    elements of a queue, say), and on the states that satisfy a condition
    the steps keep (a connection that works); [Movers] is what the steps
    must promise, [pool_serial] what the pool gets for it.  The judge
    discharges [Movers] in [Concurrent]. *)

From Stdlib Require Import ZArith Lia.
From stdpp Require Import base tactics option list relations.
From S2P Require Import Prelude.
From S2P Require Import Atomic.

Local Open Scope res_scope.

(** The atomic steps [atom_of key] of the goroutine of a key: each
    respects the equivalence [R] of states, keeps the condition [good],
    and commutes on a good state with the steps of another key: it reads
    what it would have read before the other step, and the two orders
    leave equivalent states. *)
Class Movers {St K : Type} (R : relation St) (good : St -> Prop)
    (atom_of : K -> forall X : Type, (St -> X * St) -> Prop) : Prop := {
  movers_equivalence :: Equivalence R;
  atom_proper (key : K) (X : Type) (act : St -> X * St) (s s' : St) :
    atom_of key X act -> R s s' -> (act s).1 = (act s').1 /\ R (act s).2 (act s').2;
  atom_good (key : K) (X : Type) (act : St -> X * St) (s : St) :
    atom_of key X act -> good s -> good (act s).2;
  atom_comm (key key' : K) (X Y : Type) (act : St -> X * St) (act' : St -> Y * St) (s : St) :
    key <> key' -> atom_of key X act -> atom_of key' Y act' -> good s ->
    (act (act' s).2).1 = (act s).1 /\ R (act (act' s).2).2 (act' (act s).2).2
}.

Section Serial.
Context {St K : Type} (R : relation St) (good : St -> Prop).
Context (atom_of : K -> forall X : Type, (St -> X * St) -> Prop).
Context `{!Movers R good atom_of}.

(** Results that are the same up to [R]. *)
Definition res_rel (m1 m2 : res St) : Prop :=
  match m1, m2 with
  | Ret s1, Ret s2 => R s1 s2
  | Err e1, Err e2 => e1 = e2
  | Panic p1, Panic p2 => p1 = p2
  | _, _ => False
  end.

(** The goroutines of a pool one after the other, each to its end. *)
Fixpoint seq (ts : list (prog St unit)) (s : St) : res St :=
  match ts with
  | [] => Ret s
  | t :: ts => s' <- exec_state t s ;; seq ts s'
  end.

(** The goroutine of each key is made of the steps of the key. *)
Definition keyed (keys : list K) (ts : list (prog St unit)) : Prop :=
  Forall2 (fun key t => made_of (atom_of key) t) keys ts.

#[export] Instance res_rel_equivalence : Equivalence res_rel.
Proof.
  split.
  - intros [s|e|p]; cbn; reflexivity.
  - by intros [s1|e1|p1] [s2|e2|p2]; cbn.
  - intros [s1|e1|p1] [s2|e2|p2] [s3|e3|p3]; cbn; try done; intros; by etrans.
Qed.

Lemma res_rel_bind (m1 m2 : res St) (f g : St -> res St) :
  res_rel m1 m2 -> (forall s1 s2, R s1 s2 -> res_rel (f s1) (g s2)) ->
  res_rel (s <- m1 ;; f s) (s <- m2 ;; g s).
Proof. destruct m1, m2; cbn; try done. intros HR Hf. by apply Hf. Qed.

Lemma exec_state_Atom {A X : Type} (act : St -> X * St) (k : X -> prog St A) (s : St) :
  exec_state (Atom act k) s = exec_state (k (act s).1) (act s).2.
Proof. reflexivity. Qed.

Lemma seq_app (ts1 ts2 : list (prog St unit)) (s : St) :
  seq (ts1 ++ ts2) s = (s' <- seq ts1 s ;; seq ts2 s').
Proof.
  revert s. induction ts1 as [|t ts1 IH]; intros s; cbn; [done|].
  destruct (exec_state t s); cbn; [apply IH | done..].
Qed.

Lemma seq_skip (ts : list (prog St unit)) (s : St) :
  Forall (fun t => t = skip) ts -> seq ts s = Ret s.
Proof. induction 1 as [|t ts -> _ IH]; by cbn. Qed.

(** ** A goroutine alone respects the equivalence and the condition *)

Lemma exec_state_proper {A : Type} (key : K) (t : prog St A) (s s' : St) :
  made_of (atom_of key) t -> R s s' -> res_rel (exec_state t s) (exec_state t s').
Proof.
  revert s s'. induction t as [[a|e|p]|X act k IH]; intros s s' Ht HR; try done.
  destruct Ht as [Hact Hk]. destruct (atom_proper key X act s s' Hact HR) as [Hx HR'].
  rewrite !exec_state_Atom, Hx. by apply IH.
Qed.

Lemma exec_state_good {A : Type} (key : K) (t : prog St A) (s s' : St) :
  made_of (atom_of key) t -> good s -> exec_state t s = Ret s' -> good s'.
Proof.
  revert s. induction t as [[a|e|p]|X act k IH]; intros s Ht Hs; try done.
  - by intros [= <-].
  - destruct Ht as [Hact Hk]. rewrite exec_state_Atom. apply IH; [done|].
    by eapply atom_good.
Qed.

Lemma seq_proper (keys : list K) (ts : list (prog St unit)) (s s' : St) :
  keyed keys ts -> R s s' -> res_rel (seq ts s) (seq ts s').
Proof.
  intros Hk. revert s s'. induction Hk as [|key t keys ts Ht _ IH]; intros s s' HR;
    [exact HR|].
  cbn. apply res_rel_bind; [by eapply exec_state_proper | done].
Qed.

(** ** A step moves past the goroutines of the other keys *)

Lemma atom_past_prog {A X : Type} (key key' : K) (act : St -> X * St) (t : prog St A)
    (s : St) :
  key <> key' -> atom_of key X act -> made_of (atom_of key') t -> good s ->
  res_rel (exec_state t (act s).2) (s' <- exec_state t s ;; Ret (act s').2)
  /\ forall s', exec_state t s = Ret s' -> (act s').1 = (act s).1.
Proof.
  intros Hne Hact. revert s. induction t as [[a|e|p]|Y act' k IH]; intros s Ht Hs;
    try done.
  - split; [by cbn | by intros s' [= <-]].
  - destruct Ht as [Hact' Hk].
    destruct (atom_comm key key' X Y act act' s Hne Hact Hact' Hs) as [Hx HR].
    destruct (atom_comm key' key Y X act' act s (not_eq_sym Hne) Hact' Hact Hs)
      as [Hy _].
    destruct (IH (act' s).1 (act' s).2 (Hk _) (atom_good _ _ _ _ Hact' Hs)) as [IHr IHx].
    split.
    + rewrite !exec_state_Atom, Hy. etrans; [|exact IHr].
      apply (exec_state_proper key'); [apply Hk | by symmetry].
    + intros s' Hs'. by rewrite (IHx s' Hs').
Qed.

Lemma atom_past_seq {X : Type} (key : K) (act : St -> X * St) (keys : list K)
    (ts : list (prog St unit)) (s : St) :
  key ∉ keys -> atom_of key X act -> keyed keys ts -> good s ->
  res_rel (seq ts (act s).2) (s' <- seq ts s ;; Ret (act s').2)
  /\ forall s', seq ts s = Ret s' -> (act s').1 = (act s).1.
Proof.
  intros Hkey Hact Hk. revert s.
  induction Hk as [|key' t keys ts Ht Hk IH]; intros s Hs.
  { split; [by cbn | by intros s' [= <-]]. }
  apply not_elem_of_cons in Hkey as [Hne Hkey].
  destruct (atom_past_prog key key' act t s Hne Hact Ht Hs) as [Hr Hx].
  cbn. destruct (exec_state t s) as [s1|e|p] eqn:Hs1;
    destruct (exec_state t (act s).2) as [s2|e2|p2]; cbn in *; try done.
  destruct (IH Hkey s1 (exec_state_good key' t s s1 Ht Hs Hs1)) as [IHr IHx].
  split.
  - etrans; [by eapply seq_proper | exact IHr].
  - intros s' Hs'. rewrite (IHx s' Hs'). by apply Hx.
Qed.

(** One step of a goroutine of the pool, taken first, is the step taken
    in its turn. *)
Lemma seq_insert_atom {X : Type} (keys : list K) (ts : list (prog St unit)) (i : nat)
    (act : St -> X * St) (k : X -> prog St unit) (s : St) :
  NoDup keys -> keyed keys ts -> good s -> ts !! i = Some (Atom act k) ->
  res_rel (seq (<[i := k (act s).1]> ts) (act s).2) (seq ts s).
Proof.
  intros Hnd Hk Hs Ht.
  destruct (Forall2_lookup_r _ _ _ _ _ Hk Ht) as (key & Hkey & [Hact Hcont]).
  rewrite <- (take_drop_middle keys i key Hkey) in Hnd.
  apply NoDup_app in Hnd as (_ & Hpre & _).
  destruct (atom_past_seq key act (take i keys) (take i ts) s) as [Hr Hx];
    [intros Hin; apply (Hpre _ Hin); by left | done | by apply Forall2_take | done |].
  rewrite <- (take_drop_middle ts i _ Ht) at 2.
  rewrite insert_take_drop by by eapply lookup_lt_Some.
  rewrite !seq_app.
  destruct (seq (take i ts) s) as [s1|e|p] eqn:Hs1;
    destruct (seq (take i ts) (act s).2) as [s2|e2|p2]; cbn in Hr |- *; try done.
  rewrite exec_state_Atom, (Hx s1 eq_refl).
  apply (seq_proper (key :: drop (S i) keys) (k (act s).1 :: drop (S i) ts)); [|done].
  constructor; [apply Hcont | by apply Forall2_drop].
Qed.

(** ** The pool *)

Section Pool.
Context (keys : list K) (threads0 : list (prog St unit)) (s0 : St).
Context (Hkeys : NoDup keys) (Hkeyed : keyed keys threads0) (Hgood : good s0).

(** What the steps of the pool keep true: what is left of the
    goroutines, run one after the other from the state of the pool, ends
    as the goroutines do one after the other from the first state. *)
Definition serial_inv (c : St * list (prog St unit)) : Prop :=
  good c.1 /\ keyed keys c.2 /\ res_rel (seq c.2 c.1) (seq threads0 s0).

Lemma serial_inv_step (c c' : St * list (prog St unit)) :
  pstep c c' -> serial_inv c -> serial_inv c'.
Proof.
  intros [s threads i X act k Hi] (Hs & Hk & Hr). cbn in *.
  destruct (Forall2_lookup_r _ _ _ _ _ Hk Hi) as (key & Hkey & [Hact Hcont]).
  split_and!; cbn.
  - by eapply atom_good.
  - rewrite <- (list_insert_id keys i key Hkey). apply Forall2_insert; [done | apply Hcont].
  - etrans; [|exact Hr]. by eapply seq_insert_atom.
Qed.

(** Serializability: every state the pool reaches leads, by the
    goroutines one after the other, where the first state does. *)
Lemma pool_serial (c : St * list (prog St unit)) :
  rtc pstep (s0, threads0) c -> serial_inv c.
Proof.
  intros Hrun. revert c Hrun. apply (rtc_ind_r serial_inv); [by split_and!|].
  intros c c' _ Hstep Hinv. by eapply serial_inv_step.
Qed.

(** When all goroutines have returned, the state of the pool is the one
    they leave one after the other, up to the equivalence. *)
Lemma pool_serial_done (s : St) (threads : list (prog St unit)) :
  rtc pstep (s0, threads0) (s, threads) -> Forall (fun t => t = skip) threads ->
  exists s', seq threads0 s0 = Ret s' /\ R s s'.
Proof.
  intros Hrun Hdone. destruct (pool_serial _ Hrun) as (_ & _ & Hr). cbn in Hr.
  rewrite seq_skip in Hr by done. destruct (seq threads0 s0) as [s'| |]; try done.
  by exists s'.
Qed.

End Pool.

End Serial.
