(* ===== verification/Float64.v ===== *)
(** * Float64: Go's [float64]

    IEEE-754 binary64 values as the Standard Library's [spec_float], with the
    arithmetic of [SpecFloat] at precision 53 and exponent bound 1024 (round
    to nearest, ties to even).  Every operation computes, so the scenarios of
    the specification are checked by evaluation.

    The comparisons are related to a key into integer triples ordered
    lexicographically ([f64_key]); the order facts the function library needs
    (asymmetry, transitivity, totality away from NaN) are then linear
    arithmetic, discharged by the tactic [f64_order]. *)

From Stdlib Require Import ZArith Lia Bool Floats.SpecFloat.
From stdpp Require Import base tactics decidable.
From S2P Require Import Prelude.

#[local] Open Scope Z_scope.

(** * Values and operations *)

Definition float64 : Type := spec_float.

Definition prec : Z := 53.
Definition emax : Z := 1024.

(** The conversion [float64(n)] of an integer. *)
Definition f64_of_int (n : Z) : float64 := binary_normalize prec emax n 0 false.

Definition f64_zero : float64 := S754_zero false.
Definition f64_nan : float64 := S754_nan.
Definition f64_inf : float64 := S754_infinity false.

Definition f64_add (x y : float64) : float64 := SFadd prec emax x y.
Definition f64_sub (x y : float64) : float64 := SFsub prec emax x y.
Definition f64_mul (x y : float64) : float64 := SFmul prec emax x y.
Definition f64_div (x y : float64) : float64 := SFdiv prec emax x y.

(** [math.Abs] *)
Definition f64_abs (x : float64) : float64 := SFabs x.

(** [x < y], [x <= y], [x > y], [x >= y], [x == y], [x != y] *)
Definition f64_ltb (x y : float64) : bool := SFltb x y.
Definition f64_leb (x y : float64) : bool := SFleb x y.
Definition f64_gtb (x y : float64) : bool := SFltb y x.
Definition f64_geb (x y : float64) : bool := SFleb y x.
Definition f64_eqb (x y : float64) : bool := SFeqb x y.
Definition f64_neqb (x y : float64) : bool := negb (SFeqb x y).

(** [math.IsNaN] *)
Definition f64_is_nan (x : float64) : bool :=
  match x with S754_nan => true | _ => false end.

(** Neither NaN nor an infinity. *)
Definition f64_is_finite (x : float64) : bool :=
  match x with S754_zero _ | S754_finite _ _ _ => true | _ => false end.

(** The literal [0.0001]: the binary64 value nearest to 1/10000. *)
Definition f64_0_0001 : float64 := S754_finite false 7378697629483821 (-66).

(** The literal [100.0]. *)
Definition f64_100 : float64 := S754_finite false 7036874417766400 (-46).

Declare Scope f64_scope.
Delimit Scope f64_scope with f64.
Infix "+" := f64_add : f64_scope.
Infix "-" := f64_sub : f64_scope.
Infix "*" := f64_mul : f64_scope.
Infix "/" := f64_div : f64_scope.
Infix "<?" := f64_ltb : f64_scope.
Infix "<=?" := f64_leb : f64_scope.
Infix ">?" := f64_gtb : f64_scope.
Infix ">=?" := f64_geb : f64_scope.
Infix "=?" := f64_eqb : f64_scope.
Infix "!=?" := f64_neqb (at level 70) : f64_scope.

#[export] Instance float64_eq_dec : EqDecision float64.
Proof. unfold float64. solve_decision. Defined.

(** * The order key *)

Definition key : Type := Z * Z * Z.

Definition key_lt (a b : key) : Prop :=
  a.1.1 < b.1.1 \/
  (a.1.1 = b.1.1 /\ (a.1.2 < b.1.2 \/ (a.1.2 = b.1.2 /\ a.2 < b.2))).

Definition key_eq (a b : key) : Prop :=
  a.1.1 = b.1.1 /\ a.1.2 = b.1.2 /\ a.2 = b.2.

Definition key_le (a b : key) : Prop := key_lt a b \/ key_eq a b.

Definition key_compare (a b : key) : comparison :=
  match a.1.1 ?= b.1.1 with
  | Eq => match a.1.2 ?= b.1.2 with
          | Eq => a.2 ?= b.2
          | c => c
          end
  | c => c
  end.

#[export] Instance key_lt_dec (a b : key) : Decision (key_lt a b).
Proof. unfold key_lt. apply _. Qed.

#[export] Instance key_eq_dec (a b : key) : Decision (key_eq a b).
Proof. unfold key_eq. apply _. Qed.

#[export] Instance key_le_dec (a b : key) : Decision (key_le a b).
Proof. unfold key_le. apply _. Qed.

(** NaN has no key; the two zeros share one. *)
Definition f64_key (x : float64) : option key :=
  match x with
  | S754_nan => None
  | S754_infinity true => Some (-2, 0, 0)
  | S754_infinity false => Some (2, 0, 0)
  | S754_zero _ => Some (0, 0, 0)
  | S754_finite true m e => Some (-1, - e, Zneg m)
  | S754_finite false m e => Some (1, e, Zpos m)
  end.

Definition okey_ltb (a b : option key) : bool :=
  match a, b with
  | Some a, Some b => bool_decide (key_lt a b)
  | _, _ => false
  end.

Definition okey_leb (a b : option key) : bool :=
  match a, b with
  | Some a, Some b => bool_decide (key_le a b)
  | _, _ => false
  end.

Definition okey_eqb (a b : option key) : bool :=
  match a, b with
  | Some a, Some b => bool_decide (key_eq a b)
  | _, _ => false
  end.

(** * The comparisons through the key *)

Lemma key_compare_Lt a b : key_compare a b = Lt <-> key_lt a b.
Proof.
  destruct a as [[a1 a2] a3], b as [[b1 b2] b3]. unfold key_compare, key_lt. simpl.
  destruct (Z.compare_spec a1 b1); [destruct (Z.compare_spec a2 b2);
    [destruct (Z.compare_spec a3 b3)| |]| |]; split; intros; try done; lia.
Qed.

Lemma key_compare_Eq a b : key_compare a b = Eq <-> key_eq a b.
Proof.
  destruct a as [[a1 a2] a3], b as [[b1 b2] b3]. unfold key_compare, key_eq. simpl.
  destruct (Z.compare_spec a1 b1); [destruct (Z.compare_spec a2 b2);
    [destruct (Z.compare_spec a3 b3)| |]| |]; split; intros; try done; lia.
Qed.

Lemma key_compare_Gt a b : key_compare a b = Gt <-> key_lt b a.
Proof.
  destruct a as [[a1 a2] a3], b as [[b1 b2] b3]. unfold key_compare, key_lt. simpl.
  destruct (Z.compare_spec a1 b1); [destruct (Z.compare_spec a2 b2);
    [destruct (Z.compare_spec a3 b3)| |]| |]; split; intros; try done; lia.
Qed.

Lemma SFcompare_key (x y : float64) :
  SFcompare x y =
    match f64_key x, f64_key y with
    | Some a, Some b => Some (key_compare a b)
    | _, _ => None
    end.
Proof.
  destruct x as [[]|[]| |[] mx ex], y as [[]|[]| |[] my ey]; try reflexivity;
    unfold key_compare; simpl.
  rewrite Z.compare_opp, (Z.compare_antisym ex ey).
  by destruct (ex ?= ey).
Qed.

Lemma f64_ltb_key x y : f64_ltb x y = okey_ltb (f64_key x) (f64_key y).
Proof.
  unfold f64_ltb, SFltb, okey_ltb. rewrite SFcompare_key.
  destruct (f64_key x) as [a|], (f64_key y) as [b|]; try done.
  destruct (key_compare a b) eqn:E; symmetry;
    [apply key_compare_Eq in E | apply key_compare_Lt in E | apply key_compare_Gt in E];
    [apply bool_decide_eq_false | apply bool_decide_eq_true | apply bool_decide_eq_false];
    unfold key_eq, key_lt in *; lia.
Qed.

Lemma f64_leb_key x y : f64_leb x y = okey_leb (f64_key x) (f64_key y).
Proof.
  unfold f64_leb, SFleb, okey_leb. rewrite SFcompare_key.
  destruct (f64_key x) as [a|], (f64_key y) as [b|]; try done.
  destruct (key_compare a b) eqn:E; symmetry;
    [apply key_compare_Eq in E | apply key_compare_Lt in E | apply key_compare_Gt in E];
    [apply bool_decide_eq_true | apply bool_decide_eq_true | apply bool_decide_eq_false];
    unfold key_le, key_eq, key_lt in *; lia.
Qed.

Lemma f64_eqb_key x y : f64_eqb x y = okey_eqb (f64_key x) (f64_key y).
Proof.
  unfold f64_eqb, SFeqb, okey_eqb. rewrite SFcompare_key.
  destruct (f64_key x) as [a|], (f64_key y) as [b|]; try done.
  destruct (key_compare a b) eqn:E; symmetry;
    [apply key_compare_Eq in E | apply key_compare_Lt in E | apply key_compare_Gt in E];
    [apply bool_decide_eq_true | apply bool_decide_eq_false | apply bool_decide_eq_false];
    unfold key_eq, key_lt in *; lia.
Qed.

Lemma f64_is_nan_key x : f64_is_nan x = bool_decide (f64_key x = None).
Proof. by destruct x as [[]|[]| |[] m e]. Qed.

Lemma f64_gtb_ltb x y : f64_gtb x y = f64_ltb y x.
Proof. reflexivity. Qed.

Lemma f64_geb_leb x y : f64_geb x y = f64_leb y x.
Proof. reflexivity. Qed.

(** Decide a goal about the order of floats: comparisons become statements
    on keys, keys become integer triples, the rest is linear arithmetic. *)
Ltac f64_keys :=
  repeat match goal with
  | |- context [f64_key ?x] => destruct (f64_key x) as [[[? ?] ?]|]
  | H : context [f64_key ?x] |- _ => destruct (f64_key x) as [[[? ?] ?]|]
  end.

Ltac f64_order :=
  unfold f64_neqb in *; fold f64_eqb in *;
  rewrite ?f64_gtb_ltb, ?f64_geb_leb in *;
  rewrite ?f64_ltb_key, ?f64_leb_key, ?f64_eqb_key, ?f64_is_nan_key in *;
  f64_keys; unfold okey_ltb, okey_leb, okey_eqb in *;
  rewrite ?negb_true_iff, ?negb_false_iff in *;
  rewrite ?bool_decide_eq_true, ?bool_decide_eq_false in *;
  unfold key_le, key_eq, key_lt in *; cbn [fst snd] in *;
  try solve [ discriminate | congruence | lia | intuition (try congruence; try lia) ].

(** * Order facts *)

Section Order.
Implicit Types x y z : float64.

Lemma f64_ltb_irrefl x : f64_ltb x x = false.
Proof. f64_order. Qed.

Lemma f64_ltb_asym x y : f64_ltb x y = true -> f64_ltb y x = false.
Proof. intros H. f64_order. Qed.

Lemma f64_ltb_trans x y z :
  f64_ltb x y = true -> f64_ltb y z = true -> f64_ltb x z = true.
Proof. intros H1 H2. f64_order. Qed.

Lemma f64_ltb_leb x y : f64_ltb x y = true -> f64_leb x y = true.
Proof. intros H. f64_order. Qed.

Lemma f64_leb_ltb_trans x y z :
  f64_leb x y = true -> f64_ltb y z = true -> f64_ltb x z = true.
Proof.
  intros H1 H2. f64_order.
Qed.

(** Away from NaN the order is total: [x <= y] is the negation of [y < x]. *)
Lemma f64_leb_negb_ltb x y :
  f64_is_nan x = false -> f64_is_nan y = false ->
  f64_leb x y = negb (f64_ltb y x).
Proof.
  intros Hx Hy. destruct (f64_ltb y x) eqn:E; simpl; f64_order.
Qed.

(** Every comparison with a NaN operand is false. *)
Lemma f64_nan_ltb_l x y : f64_is_nan x = true -> f64_ltb x y = false.
Proof. intros H. f64_order. Qed.

Lemma f64_nan_ltb_r x y : f64_is_nan y = true -> f64_ltb x y = false.
Proof. intros H. f64_order. Qed.

Lemma f64_nan_leb_l x y : f64_is_nan x = true -> f64_leb x y = false.
Proof. intros H. f64_order. Qed.

Lemma f64_nan_leb_r x y : f64_is_nan y = true -> f64_leb x y = false.
Proof. intros H. f64_order. Qed.

Lemma f64_nan_eqb_l x y : f64_is_nan x = true -> f64_eqb x y = false.
Proof. intros H. f64_order. Qed.

Lemma f64_ltb_not_nan x y :
  f64_ltb x y = true -> f64_is_nan x = false /\ f64_is_nan y = false.
Proof. intros H. split; f64_order. Qed.

End Order.

#[export] Hint Resolve f64_ltb_asym f64_ltb_leb f64_ltb_trans : judge.
#[export] Hint Rewrite f64_ltb_irrefl : judge.

(** * NaN propagation *)

Section Nan.
Implicit Types x y : float64.

Lemma f64_add_nan_l x y : f64_is_nan x = true -> f64_is_nan (f64_add x y) = true.
Proof. by destruct x. Qed.

Lemma f64_add_nan_r x y : f64_is_nan y = true -> f64_is_nan (f64_add x y) = true.
Proof. by destruct x as [[]|[]| |[] ? ?], y. Qed.

Lemma f64_sub_nan_l x y : f64_is_nan x = true -> f64_is_nan (f64_sub x y) = true.
Proof. by destruct x. Qed.

Lemma f64_sub_nan_r x y : f64_is_nan y = true -> f64_is_nan (f64_sub x y) = true.
Proof. by destruct x as [[]|[]| |[] ? ?], y. Qed.

Lemma f64_div_nan_l x y : f64_is_nan x = true -> f64_is_nan (f64_div x y) = true.
Proof. by destruct x. Qed.

Lemma f64_abs_nan x : f64_is_nan (f64_abs x) = f64_is_nan x.
Proof. by destruct x. Qed.

End Nan.

(** * The literals *)

Example f64_0_0001_nearest : f64_div (f64_of_int 1) (f64_of_int 10000) = f64_0_0001.
Proof. vm_compute. reflexivity. Qed.

Example f64_100_exact : f64_of_int 100 = f64_100.
Proof. vm_compute. reflexivity. Qed.
