(* ===== verification/GoStrings.v ===== *)
(** * GoStrings: the string functions the judge calls

    Go strings are byte sequences, as Rocq's [string] is.  This file models
    the calls that the sources make into [strings], [strconv] and [fmt], and
    the slicing and indexing expressions on strings, from their documented
    behaviour:

    - [s[lo:hi]] is [str_slice], with its bounds panic; [s[i]] is [str_at];
    - [strings.Index] is [strings_Index], [strings.Contains] is
      [strings_Contains] (defined in Go as [Index(s, substr) >= 0]);
    - [strings.Split] is [strings_Split], for the one-byte separators that
      the sources pass;
    - [strconv.Atoi] is [strconv_Atoi]: an optional sign, then one or more
      decimal digits, within the range of a 64-bit [int];
    - the verb [%d] is [strconv_Itoa].

    Decimal digits are read and printed with the Standard Library's
    [DecimalString], whose round-trip lemmas carry the round trip of the
    parser. *)

From Stdlib Require Import ZArith Lia String Ascii Decimal DecimalString DecimalZ DecimalPos.
From stdpp Require Import base tactics option list strings.
From S2P Require Import Prelude.

#[local] Open Scope Z_scope.
#[local] Open Scope res_scope.

(** * Slicing and indexing *)

Definition str_len (s : string) : Z := Z.of_nat (String.length s).

(** [s[lo:hi]] *)
Definition str_slice (s : string) (lo hi : Z) : res string :=
  if (0 <=? lo) && (lo <=? hi) && (hi <=? str_len s)
  then Ret (substring (Z.to_nat lo) (Z.to_nat (hi - lo)) s)
  else Panic SliceBoundsOutOfRange.

(** [s[i]] *)
Definition str_at (s : string) (i : Z) : res ascii :=
  if i <? 0 then Panic IndexOutOfRange
  else match String.get (Z.to_nat i) s with
       | Some c => Ret c
       | None => Panic IndexOutOfRange
       end.

(** * Searching *)

(** The position of the first occurrence of [substr] in [s]. *)
Fixpoint index_nat (substr s : string) : option nat :=
  match s with
  | EmptyString => if String.prefix substr s then Some O else None
  | String _ s' =>
      if String.prefix substr s then Some O else S <$> index_nat substr s'
  end.

(** [strings.Index]: the position, or -1. *)
Definition strings_Index (s substr : string) : Z :=
  match index_nat substr s with
  | Some n => Z.of_nat n
  | None => -1
  end.

(** [strings.Contains] *)
Definition strings_Contains (s substr : string) : bool :=
  0 <=? strings_Index s substr.

(** [strings.Split] on a one-byte separator: the pieces between the
    separators, in order; always at least one piece. *)
Fixpoint strings_Split (s : string) (sep : ascii) : list string :=
  match s with
  | EmptyString => [EmptyString]
  | String c s' =>
      if Ascii.eqb c sep then EmptyString :: strings_Split s' sep
      else match strings_Split s' sep with
           | piece :: pieces => String c piece :: pieces
           | [] => [String c EmptyString]
           end
  end.

(** [strings.Join] on a one-byte separator. *)
Fixpoint strings_Join (pieces : list string) (sep : ascii) : string :=
  match pieces with
  | [] => EmptyString
  | [piece] => piece
  | piece :: pieces' => piece +:+ String sep (strings_Join pieces' sep)
  end.

(** * Decimal integers *)

(** [strconv.Atoi] *)
Definition strconv_Atoi (s : string) : res Z :=
  let '(neg, digits) :=
    match s with
    | String "-" r => (true, r)
    | String "+" r => (false, r)
    | _ => (false, s)
    end in
  match digits with
  | EmptyString => Err (ErrSyntax s)
  | _ =>
      match NilEmpty.uint_of_string digits with
      | None => Err (ErrSyntax s)
      | Some d =>
          let n := if neg then - Z.of_uint d else Z.of_uint d in
          if in_int64 n then Ret n else Err (ErrRange s)
      end
  end.

(** [strconv.Itoa], and the verb [%d] *)
Definition strconv_Itoa (n : Z) : string := NilZero.string_of_int (Z.to_int n).

(** The bytes of a string. *)
Definition bytes (s : string) : list ascii := list_ascii_of_string s.

(** A decimal digit. *)
Definition is_digit (c : ascii) : bool :=
  let n := N_of_ascii c in (48 <=? n)%N && (n <=? 57)%N.

(** * Lemmas on slicing *)

Lemma app_String (c : ascii) (a b : string) : String c a +:+ b = String c (a +:+ b).
Proof. reflexivity. Qed.

Lemma app_empty_l (b : string) : EmptyString +:+ b = b.
Proof. reflexivity. Qed.

Lemma str_len_String c s : str_len (String c s) = 1 + str_len s.
Proof. unfold str_len. simpl. lia. Qed.

Lemma str_len_app (a b : string) : str_len (a +:+ b) = str_len a + str_len b.
Proof.
  induction a as [|c a IH]; [done|].
  rewrite app_String, !str_len_String, IH. lia.
Qed.

Lemma str_len_nonneg (s : string) : 0 <= str_len s.
Proof. unfold str_len. lia. Qed.

Lemma substring_full (s : string) : substring 0 (String.length s) s = s.
Proof. induction s as [|c s IH]; simpl; [done | by rewrite IH]. Qed.

Lemma substring_app_l (a b : string) : substring 0 (String.length a) (a +:+ b) = a.
Proof.
  induction a as [|c a IH]; [by destruct b|].
  rewrite app_String. simpl. by rewrite IH.
Qed.

Lemma substring_skip (a b : string) n :
  substring (String.length a) n (a +:+ b) = substring 0 n b.
Proof. induction a as [|c a IH]; [done|]. by rewrite app_String. Qed.

(** The slice that takes the middle of three pieces. *)
Lemma str_slice_middle (a b c : string) :
  str_slice (a +:+ b +:+ c) (str_len a) (str_len a + str_len b) = Ret b.
Proof.
  unfold str_slice. rewrite !str_len_app.
  pose proof (str_len_nonneg a). pose proof (str_len_nonneg b). pose proof (str_len_nonneg c).
  replace ((0 <=? str_len a) && (str_len a <=? str_len a + str_len b)
           && (str_len a + str_len b <=? str_len a + (str_len b + str_len c))) with true
    by (symmetry; zcases).
  f_equal. unfold str_len. rewrite Nat2Z.id.
  replace (Z.to_nat (Z.of_nat (String.length a) + Z.of_nat (String.length b)
                     - Z.of_nat (String.length a))) with (String.length b) by lia.
  by rewrite substring_skip, substring_app_l.
Qed.

(** The slice that takes a prefix. *)
Lemma str_slice_prefix (a b : string) : str_slice (a +:+ b) 0 (str_len a) = Ret a.
Proof.
  unfold str_slice. rewrite str_len_app.
  pose proof (str_len_nonneg a). pose proof (str_len_nonneg b).
  replace ((0 <=? 0) && (0 <=? str_len a) && (str_len a <=? str_len a + str_len b))
    with true by (symmetry; zcases).
  f_equal. unfold str_len. rewrite Z.sub_0_r, Nat2Z.id. apply substring_app_l.
Qed.

Lemma str_slice_panics (s : string) lo hi :
  lo < 0 \/ hi < lo \/ str_len s < hi -> str_slice s lo hi = Panic SliceBoundsOutOfRange.
Proof.
  intros H. unfold str_slice.
  replace ((0 <=? lo) && (lo <=? hi) && (hi <=? str_len s)) with false; [done|].
  symmetry. zcases.
Qed.

Lemma str_at_0 (c : ascii) (s : string) : str_at (String c s) 0 = Ret c.
Proof. reflexivity. Qed.

Lemma str_at_empty i : str_at EmptyString i = Panic IndexOutOfRange.
Proof. unfold str_at. by destruct (i <? 0). Qed.

(** * Lemmas on searching and splitting *)

(** [c] occurs in [s]. *)
Fixpoint has_byte (c : ascii) (s : string) : bool :=
  match s with
  | EmptyString => false
  | String x s' => Ascii.eqb x c || has_byte c s'
  end.

Lemma has_byte_app c (a b : string) : has_byte c (a +:+ b) = has_byte c a || has_byte c b.
Proof.
  induction a as [|x a IH]; [done|].
  rewrite app_String. simpl. by rewrite IH, orb_assoc.
Qed.

Lemma prefix_byte (c x : ascii) (s : string) :
  String.prefix (String c EmptyString) (String x s) = Ascii.eqb x c.
Proof.
  simpl. destruct (ascii_dec c x) as [->|Hne].
  - rewrite Ascii.eqb_refl. by destruct s.
  - symmetry. apply Ascii.eqb_neq. congruence.
Qed.

(** The first occurrence of a byte that the text before it does not hold. *)
Lemma index_nat_byte (c : ascii) (a b : string) :
  has_byte c a = false ->
  index_nat (String c EmptyString) (a +:+ String c b) = Some (String.length a).
Proof.
  induction a as [|x a IH]; intros Ha.
  - rewrite app_empty_l. unfold index_nat. by rewrite prefix_byte, Ascii.eqb_refl.
  - rewrite app_String. simpl in Ha. apply orb_false_iff in Ha as [Hx Ha].
    cbn [index_nat]. rewrite prefix_byte, Hx, IH by done. done.
Qed.

Lemma strings_Index_byte (c : ascii) (a b : string) :
  has_byte c a = false ->
  strings_Index (a +:+ String c b) (String c EmptyString) = str_len a.
Proof. intros Ha. unfold strings_Index. by rewrite index_nat_byte. Qed.

Lemma index_nat_byte_None (c : ascii) (s : string) :
  has_byte c s = false -> index_nat (String c EmptyString) s = None.
Proof.
  induction s as [|x s IH]; intros Hs; [done|].
  simpl in Hs. apply orb_false_iff in Hs as [Hx Hs].
  cbn [index_nat]. by rewrite prefix_byte, Hx, IH.
Qed.

Lemma strings_Split_cons (s : string) (sep : ascii) :
  exists piece pieces, strings_Split s sep = piece :: pieces.
Proof.
  induction s as [|c s (p & ps & IH)]; simpl; [by eauto|].
  destruct (Ascii.eqb c sep); [by eauto|]. rewrite IH. eauto.
Qed.

(** A text without the separator is a single piece. *)
Lemma strings_Split_free (s : string) (sep : ascii) :
  has_byte sep s = false -> strings_Split s sep = [s].
Proof.
  induction s as [|c s IH]; intros Hs; [done|].
  simpl in *. apply orb_false_iff in Hs as [-> Hs]. by rewrite IH.
Qed.

Lemma strings_Split_app (a b : string) (sep : ascii) :
  has_byte sep a = false ->
  strings_Split (a +:+ String sep b) sep = a :: strings_Split b sep.
Proof.
  induction a as [|c a IH]; intros Ha.
  - rewrite app_empty_l. simpl. by rewrite Ascii.eqb_refl.
  - rewrite app_String. simpl in *. apply orb_false_iff in Ha as [-> Ha]. by rewrite IH.
Qed.

Lemma strings_Join_cons (p q : string) (qs : list string) (sep : ascii) :
  strings_Join (p :: q :: qs) sep = p +:+ String sep (strings_Join (q :: qs) sep).
Proof. reflexivity. Qed.

(** Joining the pieces of a text gives the text back. *)
Lemma strings_Join_Split (s : string) (sep : ascii) :
  strings_Join (strings_Split s sep) sep = s.
Proof.
  induction s as [|c s IH]; [done|]. simpl.
  destruct (strings_Split_cons s sep) as (p & ps & E). rewrite E in *.
  destruct (Ascii.eqb_spec c sep) as [->|Hne].
  - by rewrite strings_Join_cons, IH, app_empty_l.
  - destruct ps as [|p' ps]; [by rewrite <- IH|].
    rewrite strings_Join_cons in *. by rewrite app_String, IH.
Qed.

(** Every piece of a split is free of the separator. *)
Lemma strings_Split_pieces_free (s : string) (sep : ascii) :
  Forall (fun piece => has_byte sep piece = false) (strings_Split s sep).
Proof.
  induction s as [|c s IH]; simpl; [by repeat constructor|].
  destruct (Ascii.eqb c sep) eqn:E; [by constructor|].
  destruct (strings_Split s sep) as [|p ps]; [by repeat constructor; simpl; rewrite E|].
  apply Forall_cons in IH as [Hp Hps]. constructor; [|done]. simpl. by rewrite E, Hp.
Qed.

(** * Lemmas on decimal integers *)

(** A sign or a decimal digit: the bytes that [strconv.Atoi] accepts. *)
Definition is_int_byte (c : ascii) : bool :=
  is_digit c || Ascii.eqb c "-" || Ascii.eqb c "+".

Fixpoint all_bytes (P : ascii -> bool) (s : string) : bool :=
  match s with
  | EmptyString => true
  | String c s' => P c && all_bytes P s'
  end.

Lemma all_bytes_has_byte (P : ascii -> bool) (c : ascii) (s : string) :
  all_bytes P s = true -> P c = false -> has_byte c s = false.
Proof.
  intros Hs Hc. induction s as [|x s IH]; [done|]. simpl in *.
  apply andb_prop in Hs as [Hx Hs]. rewrite IH by done.
  destruct (Ascii.eqb_spec x c) as [->|]; [congruence | done].
Qed.

Lemma all_bytes_mono (P Q : ascii -> bool) (s : string) :
  (forall c, P c = true -> Q c = true) -> all_bytes P s = true -> all_bytes Q s = true.
Proof.
  intros HPQ. induction s as [|c s IH]; [done|]. simpl.
  intros [Hc Hs]%andb_prop. by rewrite HPQ, IH.
Qed.

Lemma uint_of_char_digit (c : ascii) (d : option uint) :
  is_Some (uint_of_char c d) -> is_digit c = true.
Proof.
  destruct d as [d|]; [|by intros [? ?]].
  destruct c as [[] [] [] [] [] [] [] []]; simpl; try (by intros [? ?]); done.
Qed.

(** What reads as digits is made of digits. *)
Lemma uint_of_string_digits (s : string) :
  is_Some (NilEmpty.uint_of_string s) -> all_bytes is_digit s = true.
Proof.
  induction s as [|c s IH]; [done|]. simpl. intros H.
  rewrite (uint_of_char_digit _ _ H). simpl. apply IH.
  destruct (NilEmpty.uint_of_string s); [done|].
  destruct H as [? H]. by destruct c as [[] [] [] [] [] [] [] []].
Qed.

Lemma string_of_uint_digits (d : uint) :
  all_bytes is_digit (NilEmpty.string_of_uint d) = true.
Proof. apply uint_of_string_digits. rewrite NilEmpty.usu. done. Qed.

(** The text that [strconv.Atoi] accepts is made of digits and signs. *)
Lemma strconv_Atoi_bytes (s : string) (n : Z) :
  strconv_Atoi s = Ret n -> all_bytes is_int_byte s = true.
Proof.
  assert (Hd : forall t, is_Some (NilEmpty.uint_of_string t) ->
                         all_bytes is_int_byte t = true).
  { intros t Ht. apply (all_bytes_mono is_digit); [|by apply uint_of_string_digits].
    intros c Hc. unfold is_int_byte. by rewrite Hc. }
  unfold strconv_Atoi. intros H.
  destruct s as [|c r]; [done|].
  destruct (Ascii.eqb_spec c "-") as [->|N1]; [|destruct (Ascii.eqb_spec c "+") as [->|N2]].
  - destruct r as [|c' r']; [done|].
    destruct (NilEmpty.uint_of_string (String c' r')) eqn:E; [|done].
    change (all_bytes is_int_byte (String c' r') = true). apply Hd. by rewrite E.
  - destruct r as [|c' r']; [done|].
    destruct (NilEmpty.uint_of_string (String c' r')) eqn:E; [|done].
    change (all_bytes is_int_byte (String c' r') = true). apply Hd. by rewrite E.
  - assert (Hs : strconv_Atoi (String c r) = Ret n -> is_Some (NilEmpty.uint_of_string (String c r))).
    { unfold strconv_Atoi.
      destruct c as [[] [] [] [] [] [] [] []]; try congruence;
        by destruct (NilEmpty.uint_of_string _). }
    apply Hd, Hs. exact H.
Qed.

Lemma strconv_Itoa_pos (p : positive) :
  strconv_Itoa (Z.pos p) = NilEmpty.string_of_uint (Pos.to_uint p).
Proof.
  unfold strconv_Itoa. simpl.
  pose proof (Unsigned.to_uint_nonnil p). by destruct (Pos.to_uint p).
Qed.

Lemma strconv_Itoa_neg (p : positive) :
  strconv_Itoa (Z.neg p) = String "-" (NilEmpty.string_of_uint (Pos.to_uint p)).
Proof.
  unfold strconv_Itoa. simpl.
  pose proof (Unsigned.to_uint_nonnil p). by destruct (Pos.to_uint p).
Qed.

Lemma Z_of_uint_to_uint (p : positive) : Z.of_uint (Pos.to_uint p) = Z.pos p.
Proof. exact (DecimalZ.of_to (Z.pos p)). Qed.

(** Reading the digits of a positive number. *)
Lemma strconv_Atoi_digits (p : positive) :
  in_int64 (Z.pos p) = true ->
  strconv_Atoi (NilEmpty.string_of_uint (Pos.to_uint p)) = Ret (Z.pos p).
Proof.
  intros Hr. unfold strconv_Atoi.
  pose proof (NilEmpty.usu (Pos.to_uint p)) as Hu.
  pose proof (Unsigned.to_uint_nonnil p) as Hn.
  pose proof (Z_of_uint_to_uint p) as Hz.
  destruct (Pos.to_uint p) as [|d|d|d|d|d|d|d|d|d|d]; [done|..];
    cbn [NilEmpty.string_of_uint] in *; rewrite Hu, Hz, Hr; done.
Qed.

(** The round trip of decimal printing and reading. *)
Lemma strconv_Atoi_Itoa (n : Z) :
  in_int64 n = true -> strconv_Atoi (strconv_Itoa n) = Ret n.
Proof.
  intros Hr. destruct n as [|p|p].
  - reflexivity.
  - rewrite strconv_Itoa_pos. by apply strconv_Atoi_digits.
  - rewrite strconv_Itoa_neg. unfold strconv_Atoi.
    pose proof (NilEmpty.usu (Pos.to_uint p)) as Hu.
    pose proof (Unsigned.to_uint_nonnil p) as Hn.
    pose proof (Z_of_uint_to_uint p) as Hz.
    destruct (Pos.to_uint p) as [|d|d|d|d|d|d|d|d|d|d]; [done|..];
      cbn [NilEmpty.string_of_uint] in *; rewrite Hu, Hz;
      change (- Z.pos p) with (Z.neg p); by rewrite Hr.
Qed.

Lemma strconv_Itoa_bytes (n : Z) : all_bytes is_int_byte (strconv_Itoa n) = true.
Proof.
  assert (Hd : forall d, all_bytes is_int_byte (NilEmpty.string_of_uint d) = true).
  { intros d. apply (all_bytes_mono is_digit); [|apply string_of_uint_digits].
    intros c Hc. unfold is_int_byte. by rewrite Hc. }
  destruct n as [|p|p]; [done| |].
  - rewrite strconv_Itoa_pos. apply Hd.
  - rewrite strconv_Itoa_neg. simpl. apply Hd.
Qed.

(** Printed integers hold neither a comma nor a hash. *)
Lemma strconv_Itoa_free (n : Z) (c : ascii) :
  is_int_byte c = false -> has_byte c (strconv_Itoa n) = false.
Proof. intros Hc. eapply all_bytes_has_byte; [apply strconv_Itoa_bytes | done]. Qed.

#[export] Hint Rewrite str_len_app str_len_String : judge.
#[export] Hint Resolve strconv_Atoi_Itoa strconv_Itoa_free : judge.

(** [strconv.Atoi] returns values of type [int] only. *)
Lemma strconv_Atoi_range (s : string) (n : Z) :
  strconv_Atoi s = Ret n -> in_int64 n = true.
Proof.
  unfold strconv_Atoi.
  destruct (match s with String "-" r => _ | _ => _ end) as [neg digits].
  destruct digits; [done|]. destruct (NilEmpty.uint_of_string _); [|done].
  destruct (in_int64 _) eqn:E; [|done]. by intros [= <-].
Qed.

(** * Appending and joining *)

Lemma str_app_assoc (a b c : string) : a +:+ (b +:+ c) = (a +:+ b) +:+ c.
Proof. induction a as [|x a IH]; [done|]. by rewrite !app_String, IH. Qed.

Lemma str_app_empty_r (a : string) : a +:+ EmptyString = a.
Proof. induction a as [|x a IH]; [done|]. by rewrite app_String, IH. Qed.

(** Splitting the join of separator-free pieces gives the pieces back. *)
Lemma strings_Split_Join (pieces : list string) (sep : ascii) :
  pieces <> [] ->
  Forall (fun piece => has_byte sep piece = false) pieces ->
  strings_Split (strings_Join pieces sep) sep = pieces.
Proof.
  intros Hne Hall. induction Hall as [|p ps Hp Hps IH]; [done|].
  destruct ps as [|q qs]; [by apply strings_Split_free|].
  rewrite strings_Join_cons, strings_Split_app by done. f_equal. by apply IH.
Qed.

Lemma strconv_Atoi_no_panic (s : string) (p : panic) : strconv_Atoi s <> Panic p.
Proof.
  unfold strconv_Atoi.
  destruct (match s with String "-" r => (true, r) | String "+" r => (false, r)
            | _ => (false, s) end) as [neg digits].
  destruct digits; [done|]. destruct (NilEmpty.uint_of_string _); [|done].
  by destruct (in_int64 _).
Qed.

Lemma all_bytes_app (P : ascii -> bool) (a b : string) :
  all_bytes P (a +:+ b) = all_bytes P a && all_bytes P b.
Proof.
  induction a as [|x a IH]; [done|].
  rewrite app_String. simpl. by rewrite IH, andb_assoc.
Qed.

Lemma all_bytes_Join (P : ascii -> bool) (pieces : list string) (sep : ascii) :
  P sep = true ->
  Forall (fun piece => all_bytes P piece = true) pieces ->
  all_bytes P (strings_Join pieces sep) = true.
Proof.
  intros Hsep. induction 1 as [|p ps Hp Hps IH]; [done|].
  destruct ps as [|q qs]; [done|].
  rewrite strings_Join_cons, all_bytes_app, Hp. cbn [all_bytes andb]. by rewrite Hsep, IH.
Qed.

(** A slice of a text holds no byte that the text does not hold. *)
Lemma has_byte_substring (c : ascii) (s : string) : forall i n,
  has_byte c s = false -> has_byte c (substring i n s) = false.
Proof.
  induction s as [|x s IH]; intros i n Hs; [by destruct i, n|].
  simpl in Hs. apply orb_false_iff in Hs as [Hx Hs].
  destruct i as [|i]; destruct n as [|n]; simpl; rewrite ?Hx; simpl; auto.
Qed.

Lemma str_slice_has_byte (c : ascii) (s t : string) (lo hi : Z) :
  has_byte c s = false -> str_slice s lo hi = Ret t -> has_byte c t = false.
Proof.
  unfold str_slice. intros Hs. destruct (_ && _); [|done].
  intros [= <-]. by apply has_byte_substring.
Qed.

(** [s[:len(s)-1]] of a text that is not empty. *)
Lemma str_slice_init (s : string) :
  s <> EmptyString -> exists t, str_slice s 0 (str_len s - 1) = Ret t.
Proof.
  intros Hs. unfold str_slice, str_len. destruct s as [|c s]; [done|].
  eexists. replace (_ && _) with true; [done|]. simpl String.length. symmetry.
  rewrite !andb_true_iff, !Z.leb_le. lia.
Qed.

Lemma str_slice_empty_init : str_slice EmptyString 0 (str_len EmptyString - 1)
                             = Panic SliceBoundsOutOfRange.
Proof. reflexivity. Qed.

(** * Searching a text *)

Lemma prefix_app (s t : string) : String.prefix s (s +:+ t) = true.
Proof.
  induction s as [|c s IH]; [by destruct t|].
  rewrite app_String. simpl. by destruct (ascii_dec c c).
Qed.

Lemma index_nat_prefix (substr s : string) :
  String.prefix substr s = true -> index_nat substr s = Some O.
Proof. intros Hp. destruct s; cbn [index_nat]; by rewrite Hp. Qed.

Lemma strings_Contains_prefix (s t : string) : strings_Contains (s +:+ t) s = true.
Proof.
  unfold strings_Contains, strings_Index. by rewrite index_nat_prefix by apply prefix_app.
Qed.

(** A text without the first byte of [substr] does not contain it. *)
Lemma strings_Contains_free (c : ascii) (substr s : string) :
  has_byte c s = false -> strings_Contains s (String c substr) = false.
Proof.
  intros Hs. unfold strings_Contains, strings_Index.
  replace (index_nat (String c substr) s) with (@None nat); [done|]. symmetry.
  induction s as [|x s IH]; [done|].
  simpl in Hs. apply orb_false_iff in Hs as [Hx Hs]. cbn [index_nat String.prefix].
  destruct (ascii_dec c x) as [->|_]; [by rewrite Ascii.eqb_refl in Hx|].
  by rewrite IH.
Qed.

(** [(a + c)[:len-1]] is [a]. *)
Lemma str_slice_init_app (a : string) (c : ascii) :
  str_slice (a +:+ String c EmptyString) 0 (str_len (a +:+ String c EmptyString) - 1)
  = Ret a.
Proof.
  rewrite str_len_app. replace (str_len a + str_len (String c EmptyString) - 1)
    with (str_len a) by (unfold str_len; simpl; lia).
  apply str_slice_prefix.
Qed.
