(* ===== verification/Funcs.v ===== *)
(** * Funcs: the function library of the judge

    src/modules/judge/judge/func2.go.  A function takes the history of a
    metric, newest sample first, and returns [(leftValue, isTriggered,
    isEnough)].  The Go methods have named results, so an early [return]
    yields the zero values [(0, false, false)].

    Each [Compute] is translated with its loop as it is written (an index
    loop over [vs[i]]); the theorems relate it to a definition by recursion
    over the window of the list. *)

From Stdlib Require Import ZArith Lia Bool.
From stdpp Require Import base tactics list strings.
From S2P Require Import Prelude Float64.

#[local] Open Scope Z_scope.
#[local] Open Scope res_scope.

(** * Data *)

(** [model.RRDData]: one sample of a series. *)
Record RRDData : Type := mkRRDData {
  Timestamp : Z;
  Value : float64;
}.

#[export] Instance RRDData_eq_dec : EqDecision RRDData.
Proof. solve_decision. Defined.

(** The result of [Compute]: [(leftValue, isTriggered, isEnough)]. *)
Definition outcome : Type := float64 * bool * bool.

(** The zero values of the named results. *)
Definition zero_outcome : outcome := (f64_zero, false, false).

(** The implementations of the interface [Function], one constructor per
    struct with its fields. *)
Inductive Function : Type :=
| MaxFunction (Limit : Z) (Operator : string) (RightValue : float64)
| MinFunction (Limit : Z) (Operator : string) (RightValue : float64)
| AllFunction (Limit : Z) (Operator : string) (RightValue : float64)
| LookupFunction (Num : Z) (Limit : Z) (Operator : string) (RightValue : float64)
| SumFunction (Limit : Z) (Operator : string) (RightValue : float64)
| AvgFunction (Limit : Z) (Operator : string) (RightValue : float64)
| DiffFunction (Limit : Z) (Operator : string) (RightValue : float64)
| PDiffFunction (Limit : Z) (Operator : string) (RightValue : float64)
| CAvgRateAbs (Operator : string) (RightValue : float64).

#[export] Instance Function_eq_dec : EqDecision Function.
Proof. solve_decision. Defined.

(** * The comparison *)

Definition checkIsTriggered (leftValue : float64) (operator : string)
    (rightValue : float64) : bool :=
  if (String.eqb operator "=" || String.eqb operator "==")%bool then
    (f64_abs (leftValue - rightValue) <? f64_0_0001)%f64
  else if String.eqb operator "!=" then
    (f64_abs (leftValue - rightValue) >? f64_0_0001)%f64
  else if String.eqb operator "<" then (leftValue <? rightValue)%f64
  else if String.eqb operator "<=" then (leftValue <=? rightValue)%f64
  else if String.eqb operator ">" then (leftValue >? rightValue)%f64
  else if String.eqb operator ">=" then (leftValue >=? rightValue)%f64
  else false.

(** * The methods *)

Definition MaxFunction_Compute (Limit : Z) (Operator : string) (RightValue : float64)
    (vs : list RRDData) : res outcome :=
  let isEnough := len vs >=? Limit in
  if negb isEnough then Ret zero_outcome else
  v0 <- slice_get vs 0 ;;
  max <- loop_state (for_loop 1 Limit (fun i max =>
           vi <- slice_get vs i ;;
           Ret (Continue (if (max <? Value vi)%f64 then Value vi else max)))
         (Value v0)) ;;
  let leftValue := max in
  Ret (leftValue, checkIsTriggered leftValue Operator RightValue, isEnough).

Definition MinFunction_Compute (Limit : Z) (Operator : string) (RightValue : float64)
    (vs : list RRDData) : res outcome :=
  let isEnough := len vs >=? Limit in
  if negb isEnough then Ret zero_outcome else
  v0 <- slice_get vs 0 ;;
  min <- loop_state (for_loop 1 Limit (fun i min =>
           vi <- slice_get vs i ;;
           Ret (Continue (if (min >? Value vi)%f64 then Value vi else min)))
         (Value v0)) ;;
  let leftValue := min in
  Ret (leftValue, checkIsTriggered leftValue Operator RightValue, isEnough).

Definition AllFunction_Compute (Limit : Z) (Operator : string) (RightValue : float64)
    (vs : list RRDData) : res outcome :=
  let isEnough := len vs >=? Limit in
  if negb isEnough then Ret zero_outcome else
  isTriggered <- loop_state (for_loop 0 Limit (fun i (_ : bool) =>
           vi <- slice_get vs i ;;
           let isTriggered := checkIsTriggered (Value vi) Operator RightValue in
           Ret (if negb isTriggered then Break isTriggered else Continue isTriggered))
         true) ;;
  v0 <- slice_get vs 0 ;;
  let leftValue := Value v0 in
  Ret (leftValue, isTriggered, isEnough).

Definition LookupFunction_Compute (Num : Z) (Limit : Z) (Operator : string)
    (RightValue : float64) (vs : list RRDData) : res outcome :=
  let isEnough := len vs >=? Limit in
  if negb isEnough then Ret zero_outcome else
  v0 <- slice_get vs 0 ;;
  let leftValue := Value v0 in
  r <- for_loop 0 Limit (fun i n =>
         vi <- slice_get vs i ;;
         Ret (if checkIsTriggered (Value vi) Operator RightValue then
                let n := n + 1 in
                if n =? Num then Return (leftValue, true, isEnough) else Continue n
              else Continue n))
       0 ;;
  match r with
  | inl _ => Ret (leftValue, false, isEnough)
  | inr out => Ret out
  end.

Definition SumFunction_Compute (Limit : Z) (Operator : string) (RightValue : float64)
    (vs : list RRDData) : res outcome :=
  let isEnough := len vs >=? Limit in
  if negb isEnough then Ret zero_outcome else
  sum <- loop_state (for_loop 0 Limit (fun i sum =>
           vi <- slice_get vs i ;;
           Ret (Continue (sum + Value vi)%f64))
         f64_zero) ;;
  let leftValue := sum in
  Ret (leftValue, checkIsTriggered leftValue Operator RightValue, isEnough).

Definition AvgFunction_Compute (Limit : Z) (Operator : string) (RightValue : float64)
    (vs : list RRDData) : res outcome :=
  let isEnough := len vs >=? Limit in
  if negb isEnough then Ret zero_outcome else
  sum <- loop_state (for_loop 0 Limit (fun i sum =>
           vi <- slice_get vs i ;;
           Ret (Continue (sum + Value vi)%f64))
         f64_zero) ;;
  let leftValue := (sum / f64_of_int Limit)%f64 in
  Ret (leftValue, checkIsTriggered leftValue Operator RightValue, isEnough).

Definition DiffFunction_Compute (Limit : Z) (Operator : string) (RightValue : float64)
    (vs : list RRDData) : res outcome :=
  let isEnough := len vs >=? Limit in
  if negb isEnough then Ret zero_outcome else
  if len vs =? 0 then Ret zero_outcome else
  v0 <- slice_get vs 0 ;;
  let first := Value v0 in
  st <- loop_state (for_loop 1 (wrap64 (Limit + 1)) (fun i (st : float64 * bool) =>
          vi <- slice_get vs i ;;
          let leftValue := (first - Value vi)%f64 in
          let isTriggered := checkIsTriggered leftValue Operator RightValue in
          Ret (if isTriggered then Break (leftValue, isTriggered)
               else Continue (leftValue, isTriggered)))
        (f64_zero, false)) ;;
  Ret (st.1, st.2, isEnough).

Definition PDiffFunction_Compute (Limit : Z) (Operator : string) (RightValue : float64)
    (vs : list RRDData) : res outcome :=
  let isEnough := len vs >=? Limit in
  if negb isEnough then Ret zero_outcome else
  if len vs =? 0 then Ret zero_outcome else
  v0 <- slice_get vs 0 ;;
  let first := Value v0 in
  st <- loop_state (for_loop 1 (wrap64 (Limit + 1)) (fun i (st : float64 * bool) =>
          vi <- slice_get vs i ;;
          Ret (if (Value vi =? f64_zero)%f64 then Continue st else
               let leftValue := ((first - Value vi) / Value vi * f64_100)%f64 in
               let isTriggered := checkIsTriggered leftValue Operator RightValue in
               if isTriggered then Break (leftValue, isTriggered)
               else Continue (leftValue, isTriggered)))
        (f64_zero, false)) ;;
  Ret (st.1, st.2, isEnough).

(** One of the two averaging loops of [RelativeCompute]: the sum and the
    count of the samples that are neither NaN nor zero. *)
Definition sum_count (vs : list RRDData) : res (float64 * Z) :=
  loop_state (for_loop 0 (len vs) (fun i (st : float64 * Z) =>
    vi <- slice_get vs i ;;
    Ret (Continue
      (if negb (f64_is_nan (Value vi)) && (Value vi !=? f64_zero)%f64
       then ((st.1 + Value vi)%f64, st.2 + 1)
       else st)))
  (f64_zero, 0)).

Definition CAvgRateAbs_RelativeCompute (Operator : string) (RightValue : float64)
    (current relative : list RRDData) : res outcome :=
  if (len current >? 0) && (len relative >? 0) then
    c <- sum_count current ;;
    r <- sum_count relative ;;
    let csum := c.1 in let ccount := c.2 in
    let rsum := r.1 in let rcount := r.2 in
    if negb (ccount =? 0) && negb (rcount =? 0) then
      let cv := (csum / f64_of_int ccount)%f64 in
      let rv := (rsum / f64_of_int rcount)%f64 in
      let rate := (f64_abs (cv - rv) / rv * f64_100)%f64 in
      Ret (rate, checkIsTriggered rate Operator RightValue, true)
    else Ret zero_outcome
  else Ret zero_outcome.

(** * The interface

    Every struct embeds the interface [Function] and implements one of its
    two methods; the embedded interface value is nil, so the other method
    dereferences nil. *)

Definition Compute (fn : Function) (vs : list RRDData) : res outcome :=
  match fn with
  | MaxFunction l o r => MaxFunction_Compute l o r vs
  | MinFunction l o r => MinFunction_Compute l o r vs
  | AllFunction l o r => AllFunction_Compute l o r vs
  | LookupFunction n l o r => LookupFunction_Compute n l o r vs
  | SumFunction l o r => SumFunction_Compute l o r vs
  | AvgFunction l o r => AvgFunction_Compute l o r vs
  | DiffFunction l o r => DiffFunction_Compute l o r vs
  | PDiffFunction l o r => PDiffFunction_Compute l o r vs
  | CAvgRateAbs _ _ => Panic NilPointerDereference
  end.

Definition RelativeCompute (fn : Function) (current relative : list RRDData)
    : res outcome :=
  match fn with
  | CAvgRateAbs o r => CAvgRateAbs_RelativeCompute o r current relative
  | _ => Panic NilPointerDereference
  end.

(** * Reference definitions over the window *)

(** The first [n] samples, as values. *)
Definition window (n : Z) (vs : list RRDData) : list float64 :=
  Value <$> take (Z.to_nat n) vs.

Definition f64_max2 (m v : float64) : float64 := if (m <? v)%f64 then v else m.
Definition f64_min2 (m v : float64) : float64 := if (m >? v)%f64 then v else m.

Definition f64_sum (l : list float64) : float64 := foldl f64_add f64_zero l.

(** The samples that [RelativeCompute] averages. *)
Definition counted (v : float64) : bool :=
  negb (f64_is_nan v) && (v !=? f64_zero)%f64.

(** The state of the [diff] loop after scanning the differences [ds]: the
    first one that triggers, or else the last one examined. *)
Fixpoint first_trigger (Operator : string) (RightValue : float64)
    (ds : list float64) (st : float64 * bool) : float64 * bool :=
  match ds with
  | [] => st
  | d :: ds' =>
      if checkIsTriggered d Operator RightValue then (d, true)
      else first_trigger Operator RightValue ds' (d, false)
  end.

(** * The comparison: lemmas *)

Section CheckLemmas.
Implicit Types (l r : float64) (op : string).

Lemma checkIsTriggered_eq l r :
  checkIsTriggered l "=" r = (f64_abs (l - r) <? f64_0_0001)%f64.
Proof. reflexivity. Qed.

Lemma checkIsTriggered_eqeq l r :
  checkIsTriggered l "==" r = (f64_abs (l - r) <? f64_0_0001)%f64.
Proof. reflexivity. Qed.

Lemma checkIsTriggered_ne l r :
  checkIsTriggered l "!=" r = (f64_abs (l - r) >? f64_0_0001)%f64.
Proof. reflexivity. Qed.

Lemma checkIsTriggered_lt l r : checkIsTriggered l "<" r = (l <? r)%f64.
Proof. reflexivity. Qed.

Lemma checkIsTriggered_le l r : checkIsTriggered l "<=" r = (l <=? r)%f64.
Proof. reflexivity. Qed.

Lemma checkIsTriggered_gt l r : checkIsTriggered l ">" r = (l >? r)%f64.
Proof. reflexivity. Qed.

Lemma checkIsTriggered_ge l r : checkIsTriggered l ">=" r = (l >=? r)%f64.
Proof. reflexivity. Qed.

(** The operators the switch knows. *)
Definition known_operator (op : string) : bool :=
  bool_decide (op ∈ ["="; "=="; "!="; "<"; "<="; ">"; ">="]).

(** Case analysis on the operator: one goal per arm of the switch, and one
    for its fall-through. *)
Lemma checkIsTriggered_cases (P : string -> bool -> Prop) l r :
  P "=" (f64_abs (l - r) <? f64_0_0001)%f64 ->
  P "==" (f64_abs (l - r) <? f64_0_0001)%f64 ->
  P "!=" (f64_abs (l - r) >? f64_0_0001)%f64 ->
  P "<" (l <? r)%f64 ->
  P "<=" (l <=? r)%f64 ->
  P ">" (l >? r)%f64 ->
  P ">=" (l >=? r)%f64 ->
  (forall op, known_operator op = false -> P op false) ->
  forall op, P op (checkIsTriggered l op r).
Proof.
  intros H1 H2 H3 H4 H5 H6 H7 H8 op. unfold checkIsTriggered.
  destruct (String.eqb_spec op "=") as [->|N1]; [done|].
  destruct (String.eqb_spec op "==") as [->|N2]; [done|].
  destruct (String.eqb_spec op "!=") as [->|N3]; [done|].
  destruct (String.eqb_spec op "<") as [->|N4]; [done|].
  destruct (String.eqb_spec op "<=") as [->|N5]; [done|].
  destruct (String.eqb_spec op ">") as [->|N6]; [done|].
  destruct (String.eqb_spec op ">=") as [->|N7]; [done|].
  simpl. apply H8. apply bool_decide_eq_false.
  repeat (apply not_elem_of_cons; split; [done|]). apply not_elem_of_nil.
Qed.

End CheckLemmas.

#[export] Hint Rewrite checkIsTriggered_eq checkIsTriggered_eqeq checkIsTriggered_ne
  checkIsTriggered_lt checkIsTriggered_le checkIsTriggered_gt checkIsTriggered_ge : judge.

(** A NaN left value triggers under no operator: a window whose summary
    is NaN never raises an alert. *)
Theorem checkIsTriggered_nan_left (l r : float64) (op : string) :
  f64_is_nan l = true -> checkIsTriggered l op r = false.
Proof.
  intros Hl.
  assert (Ha : f64_is_nan (f64_abs (f64_sub l r)) = true)
    by (by rewrite f64_abs_nan, f64_sub_nan_l).
  apply (checkIsTriggered_cases (fun _ b => b = false)); try done;
    rewrite ?f64_gtb_ltb, ?f64_geb_leb;
    auto using f64_nan_ltb_l, f64_nan_ltb_r, f64_nan_leb_l, f64_nan_leb_r.
Qed.

Lemma checkIsTriggered_nan_left_witness :
  checkIsTriggered f64_nan ">" f64_zero = false.
Proof. apply (checkIsTriggered_nan_left f64_nan f64_zero ">"). reflexivity. Defined.

(** Operator duality: on two numbers (neither is NaN) [<] and [>=]
    are complementary, and so are [>] and [<=]. *)
Theorem checkIsTriggered_dual (l r : float64) :
  f64_is_nan l = false -> f64_is_nan r = false ->
  checkIsTriggered l "<" r = negb (checkIsTriggered l ">=" r) /\
  checkIsTriggered l ">" r = negb (checkIsTriggered l "<=" r).
Proof.
  intros Hl Hr. autorewrite with judge.
  rewrite f64_gtb_ltb, f64_geb_leb, !f64_leb_negb_ltb, !negb_involutive by done.
  done.
Qed.

Lemma checkIsTriggered_dual_witness :
  checkIsTriggered (f64_of_int 3) "<" (f64_of_int 5)
    = negb (checkIsTriggered (f64_of_int 3) ">=" (f64_of_int 5)) /\
  checkIsTriggered (f64_of_int 3) ">" (f64_of_int 5)
    = negb (checkIsTriggered (f64_of_int 3) "<=" (f64_of_int 5)).
Proof. apply (checkIsTriggered_dual (f64_of_int 3) (f64_of_int 5)); reflexivity. Defined.

(** Equality and inequality are tested with a tolerance and are never both
    true; both are false when the distance is exactly the tolerance or is
    not a number. *)
Lemma checkIsTriggered_eq_ne_exclusive (l r : float64) :
  checkIsTriggered l "=" r && checkIsTriggered l "!=" r = false.
Proof.
  autorewrite with judge. rewrite f64_gtb_ltb.
  destruct (f64_abs (l - r) <? f64_0_0001)%f64 eqn:E; [|done].
  by rewrite (f64_ltb_asym _ _ E).
Qed.

Example checkIsTriggered_inf_not_equal :
  checkIsTriggered f64_inf "==" f64_inf = false /\
  checkIsTriggered f64_inf "!=" f64_inf = false.
Proof. split; reflexivity. Qed.

(** * The loops as recursion over the window *)

(** How many values of [l] satisfy the comparison. *)
Definition count_triggered (Operator : string) (RightValue : float64)
    (l : list float64) : Z :=
  Z.of_nat (length (List.filter (fun v => checkIsTriggered v Operator RightValue) l)).

(** The difference that [diff] examines at a sample of value [v]. *)
Definition diff_of (first v : float64) : option float64 :=
  Some (first - v)%f64.

(** The relative difference that [pdiff] examines at a sample of value [v];
    a zero sample is skipped. *)
Definition pdiff_of (first v : float64) : option float64 :=
  if (v =? f64_zero)%f64 then None
  else Some ((first - v) / v * f64_100)%f64.

Lemma window_length n vs : 0 <= n <= len vs -> length (window n vs) = Z.to_nat n.
Proof. unfold window, len. intros H. rewrite length_fmap, length_take. lia. Qed.

Lemma window_fmap n vs : window n vs = take (Z.to_nat n) (Value <$> vs).
Proof. unfold window. apply fmap_take. Qed.

(** The window of a longer history is the same window. *)
Lemma window_app n vs ext : n <= len vs -> window n (vs ++ ext) = window n vs.
Proof. unfold window, len. intros H. rewrite take_app_le by lia. done. Qed.

Section Loops.
Context (Operator : string) (RightValue : float64).
Implicit Types (vs : list RRDData) (l : list float64) (Limit : Z).

Let check (v : float64) : bool := checkIsTriggered v Operator RightValue.

(** A loop that reads [vs[lo]], ..., [vs[hi-1]] and looks only at the
    values scans the values from position [lo]. *)
Lemma value_loop_scan {S R : Type} (g : S -> float64 -> ctl S R) lo hi vs
    (body : Z -> S -> res (ctl S R)) (s : S) :
  0 <= lo ->
  (forall j s', body j s' = (v <- slice_get vs j ;; Ret (g s' (Value v)))) ->
  for_loop lo hi body s
  = scan_n g (Z.to_nat (hi - lo)) (drop (Z.to_nat lo) (Value <$> vs)) s.
Proof.
  intros Hlo Hbody.
  rewrite (for_loop_scan_n (fun s v => g s (Value v)) vs) by done.
  by rewrite scan_n_fmap, fmap_drop.
Qed.

(** The loop of [all]: the conjunction of the comparisons, left to right. *)
Lemma scan_all n l :
  (n <= length l)%nat ->
  scan_n (R := Empty_set)
    (fun (_ : bool) v => if negb (check v) then Break (check v)
                         else Continue (check v)) n l true
  = Ret (inl (forallb check (take n l))).
Proof.
  revert l. induction n as [|n IH]; intros [|v l] Hn; simpl in *; try done; try lia.
  destruct (check v); simpl; [apply IH; lia | done].
Qed.

(** The loop of [lookup] from a count [c]: it returns as soon as the count
    reaches [Num], which it can only do from below. *)
Lemma scan_lookup (out : outcome) Num n l c :
  (n <= length l)%nat ->
  scan_n (fun c v => if check v
                     then if c + 1 =? Num then Return out else Continue (c + 1)
                     else Continue c) n l c
  = Ret (let k := c + count_triggered Operator RightValue (take n l) in
         if (c <? Num) && (Num <=? k) then inr out else inl k).
Proof.
  unfold count_triggered. fold check.
  revert l c. induction n as [|n IH]; intros [|v l] c Hn; simpl in *; try lia.
  - f_equal. zcases; f_equal; lia.
  - f_equal. zcases; f_equal; lia.
  - destruct (check v); simpl; [|by rewrite IH by lia].
    destruct (Z.eqb_spec (c + 1) Num) as [<-|Hne].
    + f_equal. zcases; f_equal; lia.
    + rewrite IH by lia. f_equal. simpl. zcases; f_equal; lia.
Qed.

(** The loops of [diff] and [pdiff]: [h] gives the difference examined at a
    value, or nothing for a value that is skipped.  The loop ends at the
    first difference that triggers; it runs past the end of the slice when
    the slice is shorter than the trip count and nothing triggers. *)
Lemma scan_first (h : float64 -> option float64) n l st :
  st.2 = false ->
  scan_n (R := Empty_set)
    (fun st v => match h v with
                 | None => Continue st
                 | Some d => if check d then Break (d, true) else Continue (d, false)
                 end) n l st
  = (let r := first_trigger Operator RightValue (omap h (take n l)) st in
     if (n <=? length l)%nat || r.2 then Ret (inl r) else Panic IndexOutOfRange).
Proof.
  revert l st. induction n as [|n IH]; intros [|v l] st Hst; simpl; try done.
  - by rewrite Hst.
  - destruct (h v) as [d|]; simpl; [|by rewrite IH].
    unfold check. destruct (checkIsTriggered d Operator RightValue) eqn:E; simpl.
    + by rewrite orb_true_r.
    + by rewrite IH.
Qed.

(** The averaging loop of [RelativeCompute] folds the counted samples. *)
Lemma foldl_sum_count l s c :
  foldl (fun (st : float64 * Z) v =>
           if counted v then ((st.1 + v)%f64, st.2 + 1) else st) (s, c) l
  = (foldl f64_add s (List.filter counted l),
     c + Z.of_nat (length (List.filter counted l))).
Proof.
  revert s c. induction l as [|v l IH]; intros s c; simpl.
  - f_equal. lia.
  - destruct (counted v); simpl; rewrite IH; f_equal; lia.
Qed.

End Loops.

(** A loop that folds the values [vs[lo]], ..., [vs[Limit-1]]. *)
Lemma fold_loop_window {S : Type} (f : S -> float64 -> S) lo Limit vs (s : S) :
  0 <= lo -> Limit <= len vs ->
  loop_state (for_loop lo Limit (fun i s =>
      vi <- slice_get vs i ;; Ret (Continue (f s (Value vi)))) s)
  = Ret (foldl f s (take (Z.to_nat (Limit - lo)) (drop (Z.to_nat lo) (Value <$> vs)))).
Proof.
  intros Hlo Hlen.
  rewrite (value_loop_scan (fun s v => Continue (f s v)) lo Limit vs) by done.
  rewrite scan_n_fold; [done|].
  rewrite length_drop, length_fmap. unfold len in Hlen. lia.
Qed.

Lemma sum_count_window (vs : list RRDData) :
  sum_count vs =
    Ret (f64_sum (List.filter counted (Value <$> vs)),
         Z.of_nat (length (List.filter counted (Value <$> vs)))).
Proof.
  unfold sum_count.
  rewrite (fold_loop_window
    (fun (st : float64 * Z) v => if counted v then ((st.1 + v)%f64, st.2 + 1) else st))
    by lia.
  rewrite foldl_sum_count. unfold len. simpl drop.
  rewrite Z.sub_0_r, Nat2Z.id, <- (length_fmap Value), firstn_all. done.
Qed.

(** * What each function computes *)

Section Characterisations.
Context (Limit : Z) (Operator : string) (RightValue : float64).
Implicit Types (vs : list RRDData).

Let check (v : float64) : bool := checkIsTriggered v Operator RightValue.

(** [sum(#N)]: with at least [N] samples the left value is the sum of
    the first [N] values, added left to right from [+0]; with fewer the
    method returns its zero values. *)
Theorem SumFunction_Compute_window vs :
  SumFunction_Compute Limit Operator RightValue vs =
    if len vs >=? Limit then
      let sum := f64_sum (window Limit vs) in
      Ret (sum, checkIsTriggered sum Operator RightValue, true)
    else Ret zero_outcome.
Proof.
  unfold SumFunction_Compute. destruct (len vs >=? Limit) eqn:E; [|done]. simpl.
  rewrite fold_loop_window by (zbool; lia). simpl.
  by rewrite window_fmap, Z.sub_0_r.
Qed.

(** [avg(#N)]: the sum of the first [N] values divided by [float64(N)]. *)
Theorem AvgFunction_Compute_window vs :
  AvgFunction_Compute Limit Operator RightValue vs =
    if len vs >=? Limit then
      let avg := (f64_sum (window Limit vs) / f64_of_int Limit)%f64 in
      Ret (avg, checkIsTriggered avg Operator RightValue, true)
    else Ret zero_outcome.
Proof.
  unfold AvgFunction_Compute. destruct (len vs >=? Limit) eqn:E; [|done]. simpl.
  rewrite fold_loop_window by (zbool; lia). simpl.
  by rewrite window_fmap, Z.sub_0_r.
Qed.

(** [max(#N)]: the running maximum from the newest value over the next
    [N-1] values.  With no sample at all (then [N <= 0]) the method indexes
    an empty slice. *)
Theorem MaxFunction_Compute_window vs :
  MaxFunction_Compute Limit Operator RightValue vs =
    if len vs >=? Limit then
      match vs with
      | [] => Panic IndexOutOfRange
      | v0 :: rest =>
          let max := foldl f64_max2 (Value v0) (window (Limit - 1) rest) in
          Ret (max, checkIsTriggered max Operator RightValue, true)
      end
    else Ret zero_outcome.
Proof.
  unfold MaxFunction_Compute. destruct (len vs >=? Limit) eqn:E; [|done]. simpl.
  destruct vs as [|v0 rest]; [done|]. simpl res_bind.
  rewrite (fold_loop_window (fun m v => if (m <? v)%f64 then v else m))
    by (zbool; lia).
  by rewrite window_fmap.
Qed.

Theorem MinFunction_Compute_window vs :
  MinFunction_Compute Limit Operator RightValue vs =
    if len vs >=? Limit then
      match vs with
      | [] => Panic IndexOutOfRange
      | v0 :: rest =>
          let min := foldl f64_min2 (Value v0) (window (Limit - 1) rest) in
          Ret (min, checkIsTriggered min Operator RightValue, true)
      end
    else Ret zero_outcome.
Proof.
  unfold MinFunction_Compute. destruct (len vs >=? Limit) eqn:E; [|done]. simpl.
  destruct vs as [|v0 rest]; [done|]. simpl res_bind.
  rewrite (fold_loop_window (fun m v => if (m >? v)%f64 then v else m))
    by (zbool; lia).
  by rewrite window_fmap.
Qed.

(** [all(#N)]: triggered when every one of the first [N] values
    satisfies the comparison; the left value is the newest value. *)
Theorem AllFunction_Compute_window vs :
  AllFunction_Compute Limit Operator RightValue vs =
    if len vs >=? Limit then
      match vs with
      | [] => Panic IndexOutOfRange
      | v0 :: _ =>
          Ret (Value v0,
               forallb (fun v => checkIsTriggered v Operator RightValue) (window Limit vs),
               true)
      end
    else Ret zero_outcome.
Proof.
  unfold AllFunction_Compute. destruct (len vs >=? Limit) eqn:E; [|done]. simpl.
  rewrite (value_loop_scan
    (fun (_ : bool) v => if negb (check v) then Break (check v) else Continue (check v))
    0 Limit vs) by done.
  rewrite (scan_all Operator RightValue)
    by (rewrite length_drop, length_fmap; zbool; unfold len in *; lia).
  simpl. rewrite window_fmap, Z.sub_0_r. by destruct vs.
Qed.

(** [lookup(#M,N)]: triggered when [M >= 1] and at least [M] of the
    first [N] values satisfy the comparison. *)
Theorem LookupFunction_Compute_window (Num : Z) vs :
  LookupFunction_Compute Num Limit Operator RightValue vs =
    if len vs >=? Limit then
      match vs with
      | [] => Panic IndexOutOfRange
      | v0 :: _ =>
          Ret (Value v0,
               (0 <? Num) && (Num <=? count_triggered Operator RightValue (window Limit vs)),
               true)
      end
    else Ret zero_outcome.
Proof.
  unfold LookupFunction_Compute. destruct (len vs >=? Limit) eqn:E; [|done]. simpl.
  destruct vs as [|v0 rest]; [done|]. simpl res_bind.
  rewrite (value_loop_scan
    (fun c v => if check v
                then if c + 1 =? Num then Return (Value v0, true, true) else Continue (c + 1)
                else Continue c) 0 Limit (v0 :: rest)) by done.
  rewrite (scan_lookup Operator RightValue)
    by (rewrite length_drop, length_fmap; zbool; unfold len in *; lia).
  simpl. rewrite window_fmap, Z.sub_0_r.
  by destruct (_ && _).
Qed.

(** The trip count of the loops of [diff] and [pdiff]:
    [for i := 1; i < Limit+1; i++]. *)
Definition diff_trips : nat := Z.to_nat (wrap64 (Limit + 1) - 1).

(** [diff(#N)]: the loop compares the newest value with each of the
    next [N] values and stops at the first difference that triggers.  The
    guard only asks for [N] samples, so the loop reads one sample more than
    the guard promises: when nothing triggers among the samples that exist
    the method indexes past the end of the slice. *)
Theorem DiffFunction_Compute_window vs :
  DiffFunction_Compute Limit Operator RightValue vs =
    if len vs >=? Limit then
      match vs with
      | [] => Ret zero_outcome
      | v0 :: rest =>
          let r := first_trigger Operator RightValue
                     (omap (diff_of (Value v0)) (take diff_trips (Value <$> rest)))
                     (f64_zero, false) in
          if (diff_trips <=? length rest)%nat || r.2 then Ret (r.1, r.2, true)
          else Panic IndexOutOfRange
      end
    else Ret zero_outcome.
Proof.
  unfold DiffFunction_Compute. destruct (len vs >=? Limit) eqn:E; [|done]. simpl.
  destruct vs as [|v0 rest]; [done|]. simpl res_bind.
  rewrite (value_loop_scan
    (fun st v => match diff_of (Value v0) v with
                 | None => Continue st
                 | Some d => if check d then Break (d, true) else Continue (d, false)
                 end) 1 _ (v0 :: rest)).
  - change (drop (Z.to_nat 1) (Value <$> v0 :: rest)) with (Value <$> rest).
    rewrite (scan_first Operator RightValue) by done.
    cbv zeta. rewrite length_fmap. fold diff_trips. by destruct (_ || _).
  - lia.
  - intros j st. destruct (slice_get _ j) as [v| |]; simpl; try done.
    unfold check. by destruct (checkIsTriggered _ _ _).
Qed.

(** [pdiff(#N)]: as [diff] on the relative differences, skipping the
    samples whose value is zero. *)
Theorem PDiffFunction_Compute_window vs :
  PDiffFunction_Compute Limit Operator RightValue vs =
    if len vs >=? Limit then
      match vs with
      | [] => Ret zero_outcome
      | v0 :: rest =>
          let r := first_trigger Operator RightValue
                     (omap (pdiff_of (Value v0)) (take diff_trips (Value <$> rest)))
                     (f64_zero, false) in
          if (diff_trips <=? length rest)%nat || r.2 then Ret (r.1, r.2, true)
          else Panic IndexOutOfRange
      end
    else Ret zero_outcome.
Proof.
  unfold PDiffFunction_Compute. destruct (len vs >=? Limit) eqn:E; [|done]. simpl.
  destruct vs as [|v0 rest]; [done|]. simpl res_bind.
  rewrite (value_loop_scan
    (fun st v => match pdiff_of (Value v0) v with
                 | None => Continue st
                 | Some d => if check d then Break (d, true) else Continue (d, false)
                 end) 1 _ (v0 :: rest)).
  - change (drop (Z.to_nat 1) (Value <$> v0 :: rest)) with (Value <$> rest).
    rewrite (scan_first Operator RightValue) by done.
    cbv zeta. rewrite length_fmap. fold diff_trips. by destruct (_ || _).
  - lia.
  - intros j st. unfold pdiff_of. destruct (slice_get _ j) as [v| |]; simpl; try done.
    destruct (Value v =? f64_zero)%f64; [done|].
    unfold check. by destruct (checkIsTriggered _ _ _).
Qed.

End Characterisations.

(** * The interface against its reference *)

(** The guard shared by the functions of a window. *)
Definition with_window (Limit : Z) (vs : list RRDData) (k : res outcome) : res outcome :=
  if len vs >=? Limit then k else Ret zero_outcome.

(** The scan of [diff] and [pdiff] over the values after the newest. *)
Definition diff_reference (Limit : Z) (Operator : string) (RightValue : float64)
    (delta : float64 -> float64 -> option float64) (vs : list RRDData) : res outcome :=
  match vs with
  | [] => Ret zero_outcome
  | v0 :: rest =>
      let r := first_trigger Operator RightValue
                 (omap (delta (Value v0)) (take (diff_trips Limit) (Value <$> rest)))
                 (f64_zero, false) in
      if (diff_trips Limit <=? length rest)%nat || r.2 then Ret (r.1, r.2, true)
      else Panic IndexOutOfRange
  end.

(** What [Compute] returns, as a function of the values of the window:
    folds and counts in place of the index loops. *)
Definition Compute_reference (fn : Function) (vs : list RRDData) : res outcome :=
  let newest (k : RRDData -> list RRDData -> res outcome) : res outcome :=
    match vs with [] => Panic IndexOutOfRange | v0 :: rest => k v0 rest end in
  let decided (Operator : string) (RightValue v : float64) : res outcome :=
    Ret (v, checkIsTriggered v Operator RightValue, true) in
  match fn with
  | MaxFunction Limit Operator RightValue =>
      with_window Limit vs (newest (fun v0 rest =>
        decided Operator RightValue (foldl f64_max2 (Value v0) (window (Limit - 1) rest))))
  | MinFunction Limit Operator RightValue =>
      with_window Limit vs (newest (fun v0 rest =>
        decided Operator RightValue (foldl f64_min2 (Value v0) (window (Limit - 1) rest))))
  | AllFunction Limit Operator RightValue =>
      with_window Limit vs (newest (fun v0 _ =>
        Ret (Value v0,
             forallb (fun v => checkIsTriggered v Operator RightValue) (window Limit vs),
             true)))
  | LookupFunction Num Limit Operator RightValue =>
      with_window Limit vs (newest (fun v0 _ =>
        Ret (Value v0,
             (0 <? Num) && (Num <=? count_triggered Operator RightValue (window Limit vs)),
             true)))
  | SumFunction Limit Operator RightValue =>
      with_window Limit vs (decided Operator RightValue (f64_sum (window Limit vs)))
  | AvgFunction Limit Operator RightValue =>
      with_window Limit vs
        (decided Operator RightValue (f64_sum (window Limit vs) / f64_of_int Limit)%f64)
  | DiffFunction Limit Operator RightValue =>
      with_window Limit vs (diff_reference Limit Operator RightValue diff_of vs)
  | PDiffFunction Limit Operator RightValue =>
      with_window Limit vs (diff_reference Limit Operator RightValue pdiff_of vs)
  | CAvgRateAbs _ _ => Panic NilPointerDereference
  end.

(** C2. Every [Compute] method, written with index loops, early exits
    and named results, returns what the reference computes from the
    values of the window by folds; the panics are the same. *)
Theorem Compute_window (fn : Function) (vs : list RRDData) :
  Compute fn vs = Compute_reference fn vs.
Proof.
  destruct fn; simpl; unfold with_window, diff_reference;
    [apply MaxFunction_Compute_window | apply MinFunction_Compute_window
    | apply AllFunction_Compute_window | apply LookupFunction_Compute_window
    | apply SumFunction_Compute_window | apply AvgFunction_Compute_window
    | apply DiffFunction_Compute_window | apply PDiffFunction_Compute_window | done].
Qed.

(** C37. [c_avg_rate_abs]: both averages are taken over the samples that are
    neither NaN nor zero; with no such sample on either side there is not
    enough data. *)
Theorem CAvgRateAbs_RelativeCompute_window Operator RightValue current relative :
  CAvgRateAbs_RelativeCompute Operator RightValue current relative =
    let cs := List.filter counted (Value <$> current) in
    let rs := List.filter counted (Value <$> relative) in
    match cs, rs with
    | _ :: _, _ :: _ =>
        let cv := (f64_sum cs / f64_of_int (len cs))%f64 in
        let rv := (f64_sum rs / f64_of_int (len rs))%f64 in
        let rate := (f64_abs (cv - rv) / rv * f64_100)%f64 in
        Ret (rate, checkIsTriggered rate Operator RightValue, true)
    | _, _ => Ret zero_outcome
    end.
Proof.
  unfold CAvgRateAbs_RelativeCompute. rewrite !sum_count_window. cbv zeta.
  destruct (List.filter counted (Value <$> current)) as [|x cs] eqn:Ec.
  - destruct (_ && _); done.
  - destruct (List.filter counted (Value <$> relative)) as [|y rs] eqn:Er.
    + destruct (_ && _); done.
    + destruct current; [done|]. destruct relative; [done|]. done.
Qed.

(** * Enough-data monotonicity *)

Lemma len_app_geb (vs ext : list RRDData) (n : Z) :
  (len vs >=? n) = true -> (len (vs ++ ext) >=? n) = true.
Proof. rewrite len_app. pose proof (len_nonneg ext) as Hn. intros H. zbool. zcases. Qed.

Lemma len_app_eqb_0 (vs ext : list RRDData) :
  (len vs =? 0) = false -> (len (vs ++ ext) =? 0) = false.
Proof.
  rewrite len_app. pose proof (len_nonneg ext) as Hn. pose proof (len_nonneg vs) as Hv.
  intros H. zbool. zcases.
Qed.

(** The step shared by the eight methods: once the guards have passed on
    [vs], they pass on [vs ++ ext], and what follows reads [vs] only at
    indices where [vs ++ ext] holds the same sample. *)
Ltac enough_mono vs ext :=
  let H := fresh "H" in
  intros H;
  destruct (len vs >=? _) eqn:?; [|discriminate H];
  erewrite len_app_geb by eassumption;
  cbn [negb] in *;
  try (destruct (len vs =? 0) eqn:?; [discriminate H|];
       erewrite len_app_eqb_0 by eassumption);
  eapply res_le_apply; [|exact H]; solve_res_le.

(** C4. Enough-data monotonicity: a function that found enough data in a
    history returns the same left value and the same decision on every
    extension of that history by older samples. *)
Theorem Compute_enough_mono (fn : Function) (vs ext : list RRDData)
    (leftValue : float64) (isTriggered : bool) :
  Compute fn vs = Ret (leftValue, isTriggered, true) ->
  Compute fn (vs ++ ext) = Ret (leftValue, isTriggered, true).
Proof.
  destruct fn; simpl; [..|done];
    unfold MaxFunction_Compute, MinFunction_Compute, AllFunction_Compute,
      LookupFunction_Compute, SumFunction_Compute, AvgFunction_Compute,
      DiffFunction_Compute, PDiffFunction_Compute;
    enough_mono vs ext.
Qed.

Lemma Compute_enough_mono_witness :
  Compute (AvgFunction 3 ">" (f64_of_int 10))
    ([mkRRDData 300 (f64_of_int 12); mkRRDData 240 (f64_of_int 11);
      mkRRDData 180 (f64_of_int 10)] ++ [mkRRDData 120 (f64_of_int 99)])
  = Ret (f64_of_int 11, true, true).
Proof. apply Compute_enough_mono. vm_compute. reflexivity. Defined.

(** * Bounds of [max] and [min] *)

Lemma foldl_max2_bound (a : float64) (l : list float64) :
  f64_is_nan a = false ->
  f64_is_nan (foldl f64_max2 a l) = false /\
  foldl f64_max2 a l ∈ a :: l /\
  Forall (fun v => (foldl f64_max2 a l <? v)%f64 = false) (a :: l).
Proof.
  revert a. induction l as [|v l IH]; intros a Ha; simpl.
  - split; [done|]. split; [by left|]. constructor; [apply f64_ltb_irrefl | constructor].
  - assert (Ha' : f64_is_nan (f64_max2 a v) = false).
    { unfold f64_max2. destruct (a <? v)%f64 eqn:E; [|done].
      by apply f64_ltb_not_nan in E as [_ ?]. }
    destruct (IH _ Ha') as (Hn & Hin & Hall). split; [done|]. split.
    + apply elem_of_cons in Hin as [->|Hin]; [|by do 2 right].
      unfold f64_max2. destruct (a <? v)%f64; [right|]; by left.
    + apply Forall_cons in Hall as [Hm Hall].
      set (m := foldl f64_max2 (f64_max2 a v) l) in *.
      unfold f64_max2 in Hm. destruct (a <? v)%f64 eqn:E.
      * constructor; [clear Hall; f64_order|]. by constructor.
      * constructor; [done|]. constructor; [clear Hall; f64_order | done].
Qed.

Lemma foldl_max2_nan (a : float64) (l : list float64) :
  f64_is_nan a = true -> f64_is_nan (foldl f64_max2 a l) = true.
Proof.
  revert a. induction l as [|v l IH]; intros a Ha; simpl; [done|].
  apply IH. unfold f64_max2. by rewrite f64_nan_ltb_l.
Qed.

(** When the newest sample is a number, the left value of [max(#N)]
    is one of the window's values and none of the window's values exceeds
    it. *)
Theorem MaxFunction_Compute_upper_bound Limit Operator RightValue v0 rest m t :
  f64_is_nan (Value v0) = false ->
  MaxFunction_Compute Limit Operator RightValue (v0 :: rest) = Ret (m, t, true) ->
  m ∈ Value v0 :: window (Limit - 1) rest /\
  Forall (fun v => (m <? v)%f64 = false) (Value v0 :: window (Limit - 1) rest).
Proof.
  intros Hv0. rewrite MaxFunction_Compute_window.
  destruct (_ >=? _); [|done]. intros [= <- _].
  by destruct (foldl_max2_bound (Value v0) (window (Limit - 1) rest) Hv0) as (_ & ? & ?).
Qed.

Lemma MaxFunction_Compute_upper_bound_witness :
  f64_of_int 12 ∈ Value (mkRRDData 300 (f64_of_int 11))
     :: window (3 - 1) [mkRRDData 240 (f64_of_int 12); mkRRDData 180 (f64_of_int 10)] /\
  Forall (fun v => (f64_of_int 12 <? v)%f64 = false)
    (Value (mkRRDData 300 (f64_of_int 11))
     :: window (3 - 1) [mkRRDData 240 (f64_of_int 12); mkRRDData 180 (f64_of_int 10)]).
Proof.
  apply (MaxFunction_Compute_upper_bound 3 ">" (f64_of_int 10)
           (mkRRDData 300 (f64_of_int 11)) _ _ true); [reflexivity|].
  vm_compute. reflexivity.
Defined.

(** C40. A NaN newest sample blinds [max]: the running maximum stays NaN, and
    the alert cannot trigger whatever the older samples are. *)
Theorem MaxFunction_Compute_nan_head Limit Operator RightValue v0 rest m t e :
  f64_is_nan (Value v0) = true ->
  MaxFunction_Compute Limit Operator RightValue (v0 :: rest) = Ret (m, t, e) ->
  t = false.
Proof.
  intros Hv0. rewrite MaxFunction_Compute_window.
  destruct (_ >=? _); [|by intros [= _ <- _]]. intros [= _ <- _].
  apply checkIsTriggered_nan_left. by apply foldl_max2_nan.
Qed.

Lemma MaxFunction_Compute_nan_head_witness : false = false.
Proof.
  apply (MaxFunction_Compute_nan_head 2 ">" (f64_of_int 1) (mkRRDData 120 f64_nan)
           [mkRRDData 60 (f64_of_int 5)] f64_nan false true); reflexivity.
Defined.

(** * The overrun of [diff] and [pdiff] *)

Lemma diff_trips_in_range Limit :
  in_int64 (Limit + 1) = true -> diff_trips Limit = Z.to_nat Limit.
Proof. intros H. unfold diff_trips. rewrite wrap64_id by done. f_equal. lia. Qed.

(** Nothing triggers among the differences [ds]. *)
Lemma first_trigger_none Operator RightValue (ds : list float64) st :
  st.2 = false ->
  Forall (fun d => checkIsTriggered d Operator RightValue = false) ds ->
  (first_trigger Operator RightValue ds st).2 = false.
Proof.
  intros Hst Hall. revert st Hst. induction Hall as [|d ds Hd _ IH]; intros st Hst; simpl.
  - done.
  - rewrite Hd. by apply IH.
Qed.

(** The scan of [diff] and [pdiff] on a history of exactly [Limit]
    samples in which no difference triggers reads one sample past the
    end. *)
Lemma diff_reference_overrun Limit Operator RightValue
    (delta : float64 -> float64 -> option float64) v0 rest :
  in_int64 (Limit + 1) = true ->
  len (v0 :: rest) = Limit ->
  Forall (fun v => forall d, delta (Value v0) (Value v) = Some d ->
                     checkIsTriggered d Operator RightValue = false) rest ->
  diff_reference Limit Operator RightValue delta (v0 :: rest) = Panic IndexOutOfRange.
Proof.
  intros Hr Hlen Hall. unfold diff_reference, len in *. simpl length in Hlen.
  rewrite diff_trips_in_range by done. cbv zeta.
  rewrite first_trigger_none; [|done|].
  - replace (Z.to_nat Limit <=? length rest)%nat with false; [done|].
    symmetry. apply Nat.leb_gt. lia.
  - rewrite take_ge by (rewrite length_fmap; lia).
    clear Hlen. induction Hall as [|v l Hv _ IH]; simpl; [constructor|].
    destruct (delta _ _) as [d|] eqn:Hd; [constructor; [by apply Hv | apply IH] | apply IH].
Qed.

Lemma len_geb_refl {A : Type} (l : list A) (n : Z) : len l = n -> (len l >=? n) = true.
Proof. intros <-. zcases. Qed.

(** C9. The off-by-one of [diff(#N)]: on a history of exactly [N]
    samples, [N >= 1], in which no difference with the newest value
    triggers, the method indexes [vs[N]] and panics.  The guard
    [len(vs) >= Limit] lets such a history through. *)
Theorem DiffFunction_Compute_overrun Limit Operator RightValue v0 rest :
  in_int64 (Limit + 1) = true ->
  len (v0 :: rest) = Limit ->
  Forall (fun v => checkIsTriggered (Value v0 - Value v)%f64 Operator RightValue = false) rest ->
  DiffFunction_Compute Limit Operator RightValue (v0 :: rest) = Panic IndexOutOfRange.
Proof.
  intros Hr Hlen Hall. rewrite DiffFunction_Compute_window, (len_geb_refl _ _ Hlen).
  apply (diff_reference_overrun Limit Operator RightValue diff_of); [done..|].
  eapply Forall_impl; [exact Hall|]. by intros v Hv d [= <-].
Qed.

(** The off-by-one of [pdiff(#N)]: on a history of exactly [N] samples
    in which every sample after the newest is zero or gives a relative
    difference that does not trigger, the method indexes [vs[N]] and
    panics. *)
Theorem PDiffFunction_Compute_overrun Limit Operator RightValue v0 rest :
  in_int64 (Limit + 1) = true ->
  len (v0 :: rest) = Limit ->
  Forall (fun v => (Value v =? f64_zero)%f64 = true
                   \/ checkIsTriggered ((Value v0 - Value v) / Value v * f64_100)%f64
                        Operator RightValue = false) rest ->
  PDiffFunction_Compute Limit Operator RightValue (v0 :: rest) = Panic IndexOutOfRange.
Proof.
  intros Hr Hlen Hall. rewrite PDiffFunction_Compute_window, (len_geb_refl _ _ Hlen).
  apply (diff_reference_overrun Limit Operator RightValue pdiff_of); [done..|].
  eapply Forall_impl; [exact Hall|]. unfold pdiff_of.
  intros v [->|Hv] d; [done|]. destruct (_ =? _)%f64; [done|]. by intros [= <-].
Qed.

Lemma DiffFunction_Compute_overrun_witness :
  DiffFunction_Compute 2 ">" (f64_of_int 50)
    [mkRRDData 120 (f64_of_int 110); mkRRDData 60 (f64_of_int 100)]
  = Panic IndexOutOfRange.
Proof.
  apply DiffFunction_Compute_overrun; [reflexivity | reflexivity |].
  repeat constructor.
Defined.

(** The history of scenario 8 without its last sample. *)
Lemma PDiffFunction_Compute_overrun_witness :
  PDiffFunction_Compute 2 ">" (f64_of_int 50)
    [mkRRDData 120 (f64_of_int 110); mkRRDData 60 (f64_of_int 100)]
  = Panic IndexOutOfRange.
Proof.
  apply PDiffFunction_Compute_overrun; [reflexivity | reflexivity |].
  constructor; [right; vm_compute; reflexivity | constructor].
Defined.

(** With one sample more than the limit, [diff(#N)] returns: the left
    value is the first difference that triggers among the [N] samples after
    the newest, or the last one examined. *)
Theorem DiffFunction_Compute_in_range Limit Operator RightValue v0 rest :
  in_int64 (Limit + 1) = true ->
  Limit <= len rest ->
  DiffFunction_Compute Limit Operator RightValue (v0 :: rest) =
    let r := first_trigger Operator RightValue
               (omap (diff_of (Value v0)) (window Limit rest)) (f64_zero, false) in
    Ret (r.1, r.2, true).
Proof.
  intros Hr Hlen. rewrite DiffFunction_Compute_window.
  replace (len (v0 :: rest) >=? Limit) with true
    by (symmetry; unfold len in *; simpl length; zcases).
  rewrite diff_trips_in_range by done. cbv zeta.
  replace (Z.to_nat Limit <=? length rest)%nat with true
    by (symmetry; apply Nat.leb_le; unfold len in Hlen; lia).
  by rewrite window_fmap.
Qed.

Lemma DiffFunction_Compute_in_range_witness :
  DiffFunction_Compute 2 ">" (f64_of_int 50)
    [mkRRDData 180 (f64_of_int 110); mkRRDData 120 (f64_of_int 100);
     mkRRDData 60 (f64_of_int 40)]
  = Ret (f64_of_int 70, true, true).
Proof.
  rewrite DiffFunction_Compute_in_range; [vm_compute; reflexivity | reflexivity |].
  unfold len. simpl. lia.
Defined.

(** * Absence of panics *)

(** The functions whose loop stays inside the guarded window. *)
Definition guarded_window (fn : Function) : bool :=
  match fn with
  | MaxFunction _ _ _ | MinFunction _ _ _ | AllFunction _ _ _
  | LookupFunction _ _ _ _ | SumFunction _ _ _ | AvgFunction _ _ _ => true
  | _ => false
  end.

(** The functions whose loop stays inside the guard return on a history
    that is not empty. *)
Lemma Compute_guarded (fn : Function) (v0 : RRDData) (rest : list RRDData) :
  guarded_window fn = true -> exists out, Compute fn (v0 :: rest) = Ret out.
Proof.
  destruct fn; try done; intros _; simpl;
    rewrite ?MaxFunction_Compute_window, ?MinFunction_Compute_window,
      ?AllFunction_Compute_window, ?LookupFunction_Compute_window,
      ?SumFunction_Compute_window, ?AvgFunction_Compute_window;
    destruct (_ >=? _); by eexists.
Qed.

Lemma CAvgRateAbs_RelativeCompute_total Operator RightValue current relative :
  exists out, CAvgRateAbs_RelativeCompute Operator RightValue current relative = Ret out.
Proof.
  unfold CAvgRateAbs_RelativeCompute. rewrite !sum_count_window. cbv zeta.
  destruct (_ && _); [cbn [res_bind]; destruct (_ && _)|]; by eexists.
Qed.

(** C21. On a non-empty history [max], [min], [all], [lookup], [sum] and
    [avg] return normally whatever their parameters are. *)
Theorem Compute_no_panic (fn : Function) (v0 : RRDData) (rest : list RRDData) :
  guarded_window fn = true -> is_ret (Compute fn (v0 :: rest)) = true.
Proof. intros Hg. by destruct (Compute_guarded fn v0 rest Hg) as [out ->]. Qed.

Lemma Compute_no_panic_witness :
  is_ret (Compute (LookupFunction 2 5 ">" f64_zero) [mkRRDData 60 (f64_of_int 1)]) = true.
Proof. apply Compute_no_panic. reflexivity. Defined.

(** Calling the method that a struct does not implement dereferences the
    nil embedded interface. *)
Lemma Compute_CAvgRateAbs_panics Operator RightValue vs :
  Compute (CAvgRateAbs Operator RightValue) vs = Panic NilPointerDereference.
Proof. reflexivity. Qed.

Lemma RelativeCompute_window_fn_panics fn current relative :
  (if fn is CAvgRateAbs _ _ then false else true) = true ->
  RelativeCompute fn current relative = Panic NilPointerDereference.
Proof. by destruct fn. Qed.

(** * The scenarios of the specification *)

Definition sample (t v : Z) : RRDData := mkRRDData t (f64_of_int v).

Example scenario_avg :
  AvgFunction_Compute 3 ">" (f64_of_int 10) [sample 300 12; sample 240 11; sample 180 10]
  = Ret (f64_of_int 11, true, true).
Proof. vm_compute. reflexivity. Qed.

Example scenario_lookup_triggered :
  LookupFunction_Compute 2 5 ">" f64_zero
    [sample 0 1; sample 0 (-1); sample 0 1; sample 0 (-1); sample 0 1]
  = Ret (f64_of_int 1, true, true).
Proof. vm_compute. reflexivity. Qed.

Example scenario_lookup_not_triggered :
  LookupFunction_Compute 2 5 ">" f64_zero
    [sample 0 1; sample 0 (-1); sample 0 (-1); sample 0 (-1); sample 0 (-1)]
  = Ret (f64_of_int 1, false, true).
Proof. vm_compute. reflexivity. Qed.

Example scenario_c_avg_rate_abs :
  CAvgRateAbs_RelativeCompute ">" (f64_of_int 15)
    [sample 0 120; sample 0 120; sample 0 120] [sample 0 100; sample 0 100; sample 0 100]
  = Ret (f64_of_int 20, true, true).
Proof. vm_compute. reflexivity. Qed.

Example scenario_c_avg_rate_abs_nan :
  CAvgRateAbs_RelativeCompute ">" (f64_of_int 15)
    [sample 0 120; sample 0 120; sample 0 120] [mkRRDData 0 f64_nan; mkRRDData 0 f64_nan]
  = Ret zero_outcome.
Proof. vm_compute. reflexivity. Qed.

Example scenario_pdiff :
  PDiffFunction_Compute 2 ">" (f64_of_int 5) [sample 0 110; sample 0 100; sample 0 0]
  = Ret (f64_of_int 10, true, true).
Proof. vm_compute. reflexivity. Qed.

(** [lookup(#0,N)] never triggers: the count is compared with [Num] only
    after it has been incremented. *)
Example lookup_zero_never_triggers :
  LookupFunction_Compute 0 2 ">" f64_zero [sample 0 1; sample 0 1]
  = Ret (f64_of_int 1, false, true).
Proof. vm_compute. reflexivity. Qed.

(** The relative average divides by the mean of the counted samples, which
    is zero when they cancel: the rate is then infinite and the alert
    triggers. *)
Example c_avg_rate_abs_infinite_rate :
  CAvgRateAbs_RelativeCompute ">" (f64_of_int 15) [sample 0 120] [sample 0 1; sample 0 (-1)]
  = Ret (f64_inf, true, true).
Proof. vm_compute. reflexivity. Qed.
