(* ===== verification/Parse.v ===== *)
(** * Parse: the function descriptor parser

    src/modules/judge/judge/func2.go: [Atois] and [ParseFuncFromString].
    A descriptor has the shape [name(#a1,a2,...)]: the parser looks for the
    first [#], reads the comma-separated integers between it and the last
    byte of the text, and takes as name the text before the byte that
    precedes the [#].  Both slicing expressions can panic, and so can the
    reads of [args[0]] and [args[1]]. *)

From Stdlib Require Import ZArith Lia String Ascii.
From stdpp Require Import base tactics option list strings.
From S2P Require Import Prelude Float64 GoStrings Funcs.

#[local] Open Scope Z_scope.
#[local] Open Scope res_scope.

(** * The parser *)

(** The loop of [Atois]: the integers of the pieces, or the first error. *)
Fixpoint Atois_loop (a : list string) : res (list Z) :=
  match a with
  | [] => Ret []
  | v :: a' =>
      n <- strconv_Atoi v ;;
      ns <- Atois_loop a' ;;
      Ret (n :: ns)
  end.

Definition Atois (s : string) : res (list Z) :=
  let a := strings_Split s "," in
  Atois_loop a.

(** The switch of [ParseFuncFromString] on the name. *)
Definition new_function (name : string) (args : list Z) (operator : string)
    (rightValue : float64) : res Function :=
  if String.eqb name "max" then
    a0 <- slice_get args 0 ;; Ret (MaxFunction a0 operator rightValue)
  else if String.eqb name "min" then
    a0 <- slice_get args 0 ;; Ret (MinFunction a0 operator rightValue)
  else if String.eqb name "all" then
    a0 <- slice_get args 0 ;; Ret (AllFunction a0 operator rightValue)
  else if String.eqb name "sum" then
    a0 <- slice_get args 0 ;; Ret (SumFunction a0 operator rightValue)
  else if String.eqb name "avg" then
    a0 <- slice_get args 0 ;; Ret (AvgFunction a0 operator rightValue)
  else if String.eqb name "diff" then
    a0 <- slice_get args 0 ;; Ret (DiffFunction a0 operator rightValue)
  else if String.eqb name "pdiff" then
    a0 <- slice_get args 0 ;; Ret (PDiffFunction a0 operator rightValue)
  else if String.eqb name "lookup" then
    a0 <- slice_get args 0 ;;
    a1 <- slice_get args 1 ;;
    Ret (LookupFunction a0 a1 operator rightValue)
  else if String.eqb name "c_avg_rate_abs" then
    Ret (CAvgRateAbs operator rightValue)
  else Err (ErrorString "not_supported_method").

Definition ParseFuncFromString (str : string) (operator : string)
    (rightValue : float64) : res Function :=
  if String.eqb str "" then Err (ErrorString "func can not be null!") else
  let idx := strings_Index str "#" in
  argstr <- str_slice str (idx + 1) (str_len str - 1) ;;
  args <- Atois argstr ;;
  name <- str_slice str 0 (idx - 1) ;;
  new_function name args operator rightValue.

(** * Descriptors *)

(** A text of the shape [name(#body)]. *)
Definition descriptor_text (name body : string) : string :=
  name +:+ "(#" +:+ body +:+ ")".

(** The text of a descriptor: [name(#a1,a2,...)]. *)
Definition descriptor (name : string) (args : list Z) : string :=
  descriptor_text name (strings_Join (strconv_Itoa <$> args) ",").

(** The names of the switch. *)
Definition supported_names : list string :=
  ["max"; "min"; "all"; "sum"; "avg"; "diff"; "pdiff"; "lookup"; "c_avg_rate_abs"].

(** The integer parameters of a function. *)
Definition parameters (fn : Function) : list Z :=
  match fn with
  | MaxFunction l _ _ | MinFunction l _ _ | AllFunction l _ _ | SumFunction l _ _
  | AvgFunction l _ _ | DiffFunction l _ _ | PDiffFunction l _ _ => [l]
  | LookupFunction n l _ _ => [n; l]
  | CAvgRateAbs _ _ => []
  end.

(** * Lemmas on [Atois] *)

Lemma Atois_loop_range (a : list string) (ns : list Z) :
  Atois_loop a = Ret ns -> Forall (fun n => in_int64 n = true) ns.
Proof.
  revert ns. induction a as [|v a IH]; intros ns H; simpl in H; res_inv.
  - constructor.
  - constructor; [by eapply strconv_Atoi_range | by apply IH].
Qed.

Lemma Atois_loop_length (a : list string) (ns : list Z) :
  Atois_loop a = Ret ns -> length ns = length a.
Proof.
  revert ns. induction a as [|v a IH]; intros ns H; simpl in H; res_inv; [done|].
  simpl. f_equal. by apply IH.
Qed.

Lemma Atois_loop_Itoa (ns : list Z) :
  Forall (fun n => in_int64 n = true) ns -> Atois_loop (strconv_Itoa <$> ns) = Ret ns.
Proof.
  induction 1 as [|n ns Hn _ IH]; [done|].
  rewrite fmap_cons. cbn [Atois_loop]. by rewrite strconv_Atoi_Itoa, IH.
Qed.

(** The text that [Atois] accepts holds digits, signs and commas only. *)
Lemma Atois_loop_bytes (a : list string) (ns : list Z) :
  Atois_loop a = Ret ns -> Forall (fun v => all_bytes is_int_byte v = true) a.
Proof.
  revert ns. induction a as [|v a IH]; intros ns H; simpl in H; res_inv.
  - constructor.
  - constructor; [by eapply strconv_Atoi_bytes | by eapply IH].
Qed.

Lemma Atois_never_empty (s : string) (ns : list Z) : Atois s = Ret ns -> ns <> [].
Proof.
  unfold Atois. intros H%Atois_loop_length.
  destruct (strings_Split_cons s ",") as (p & ps & E). rewrite E in H.
  by destruct ns.
Qed.

(** Reading the printed arguments gives the arguments back. *)
Lemma Atois_Join_Itoa (ns : list Z) :
  ns <> [] -> Forall (fun n => in_int64 n = true) ns ->
  Atois (strings_Join (strconv_Itoa <$> ns) ",") = Ret ns.
Proof.
  intros Hne Hr. unfold Atois. rewrite strings_Split_Join.
  - by apply Atois_loop_Itoa.
  - by destruct ns.
  - apply Forall_fmap, Forall_forall. intros n _. by apply strconv_Itoa_free.
Qed.

(** * Parsing a text of the descriptor shape *)

Lemma Atois_loop_no_panic (a : list string) : forall p, Atois_loop a <> Panic p.
Proof.
  induction a as [|v a IH]; intros p; [done|]. simpl.
  pose proof (strconv_Atoi_no_panic v) as Hv.
  destruct (strconv_Atoi v) as [n|e|q]; simpl; [|done|by destruct (Hv q)].
  destruct (Atois_loop a) as [ns|e|q]; simpl; [done|done|by destruct (IH q)].
Qed.

Section DescriptorText.
Context (name body : string).

Lemma descriptor_at_hash :
  descriptor_text name body = (name +:+ "(") +:+ String "#" (body +:+ ")").
Proof. apply (str_app_assoc name "(" (String "#" (body +:+ ")"))). Qed.

Lemma descriptor_at_args :
  descriptor_text name body = (name +:+ "(#") +:+ body +:+ ")".
Proof. apply (str_app_assoc name "(#" (body +:+ ")")). Qed.

Lemma descriptor_len :
  str_len (descriptor_text name body) = str_len name + 2 + str_len body + 1.
Proof. rewrite descriptor_at_args, !str_len_app. unfold str_len. simpl. lia. Qed.

Lemma descriptor_index :
  has_byte "#" name = false ->
  strings_Index (descriptor_text name body) "#" = str_len name + 1.
Proof.
  intros Hname. rewrite descriptor_at_hash, strings_Index_byte.
  - rewrite str_len_app. reflexivity.
  - rewrite has_byte_app, Hname. reflexivity.
Qed.

Lemma descriptor_not_empty : String.eqb (descriptor_text name body) "" = false.
Proof.
  apply String.eqb_neq. intros H. pose proof descriptor_len as Hl. rewrite H in Hl.
  pose proof (str_len_nonneg name). pose proof (str_len_nonneg body).
  unfold str_len in Hl at 1. simpl in Hl. lia.
Qed.

(** On a text [name(#body)] whose name holds no [#], the parser reads the
    integers of [body] and switches on [name]. *)
Lemma ParseFuncFromString_text (operator : string) (rightValue : float64) :
  has_byte "#" name = false ->
  ParseFuncFromString (descriptor_text name body) operator rightValue
  = (args <- Atois body ;; new_function name args operator rightValue).
Proof.
  intros Hname. unfold ParseFuncFromString.
  rewrite descriptor_not_empty, descriptor_index, descriptor_len by done.
  replace (str_len name + 1 + 1) with (str_len (name +:+ "(#"))
    by (rewrite str_len_app; unfold str_len; simpl; lia).
  replace (str_len name + 2 + str_len body + 1 - 1)
    with (str_len (name +:+ "(#") + str_len body)
    by (rewrite str_len_app; unfold str_len; simpl; lia).
  rewrite descriptor_at_args at 1. rewrite str_slice_middle. simpl res_bind.
  replace (str_len name + 1 - 1) with (str_len name) by lia.
  unfold descriptor_text. by rewrite str_slice_prefix.
Qed.

End DescriptorText.

(** C15. Parser round trip: the descriptor printed from a name without
    [#] and a non-empty list of integers parses to what the switch builds
    from that name and those integers. *)
Theorem ParseFuncFromString_descriptor (name : string) (args : list Z)
    (operator : string) (rightValue : float64) :
  has_byte "#" name = false ->
  args <> [] ->
  Forall (fun n => in_int64 n = true) args ->
  ParseFuncFromString (descriptor name args) operator rightValue
  = new_function name args operator rightValue.
Proof.
  intros Hname Hne Hr. unfold descriptor.
  by rewrite ParseFuncFromString_text, Atois_Join_Itoa.
Qed.

Lemma ParseFuncFromString_descriptor_witness :
  ParseFuncFromString (descriptor "lookup" [2; 5]) ">" f64_zero
  = new_function "lookup" [2; 5] ">" f64_zero.
Proof.
  apply ParseFuncFromString_descriptor; [reflexivity | discriminate | repeat constructor].
Defined.

(** What the switch builds for each name it knows. *)
Example parse_lookup :
  ParseFuncFromString "lookup(#2,5)" ">" f64_zero = Ret (LookupFunction 2 5 ">" f64_zero).
Proof. vm_compute. reflexivity. Qed.

Example parse_avg :
  ParseFuncFromString "avg(#3)" ">" (f64_of_int 10) = Ret (AvgFunction 3 ">" (f64_of_int 10)).
Proof. vm_compute. reflexivity. Qed.

Example parse_c_avg_rate_abs :
  ParseFuncFromString "c_avg_rate_abs(#3,7)" ">" f64_zero = Ret (CAvgRateAbs ">" f64_zero).
Proof. vm_compute. reflexivity. Qed.

(** The two-argument shape with a second [#] is a syntax error of
    [strconv.Atoi]. *)
Example parse_hash_separated :
  ParseFuncFromString "lookup(#2#5)" ">" f64_zero = Err (ErrSyntax "2#5").
Proof. vm_compute. reflexivity. Qed.

Example parse_unsupported :
  ParseFuncFromString "median(#3)" ">" f64_zero = Err (ErrorString "not_supported_method").
Proof. vm_compute. reflexivity. Qed.

Example parse_empty :
  ParseFuncFromString "" ">" f64_zero = Err (ErrorString "func can not be null!").
Proof. reflexivity. Qed.

(** The byte before the [#] is dropped whatever it is, and so is the last
    byte. *)
Example parse_any_padding :
  ParseFuncFromString "avg?#3!" ">" f64_zero = Ret (AvgFunction 3 ">" f64_zero).
Proof. vm_compute. reflexivity. Qed.

(** [lookup] with one argument reads [args[1]] out of range. *)
Example parse_lookup_one_argument :
  ParseFuncFromString "lookup(#2)" ">" f64_zero = Panic IndexOutOfRange.
Proof. vm_compute. reflexivity. Qed.

(** A text without [#] whose head reads as integers makes the name slice
    [str[:idx-1]] run from 0 to -2. *)
Example parse_no_hash :
  ParseFuncFromString "12)" ">" f64_zero = Panic SliceBoundsOutOfRange.
Proof. vm_compute. reflexivity. Qed.

Example parse_hash_first :
  ParseFuncFromString "#3)" ">" f64_zero = Panic SliceBoundsOutOfRange.
Proof. vm_compute. reflexivity. Qed.

(** * Where the [#] must be *)

Lemma str_slice_Ret (s t : string) (lo hi : Z) :
  str_slice s lo hi = Ret t -> 0 <= lo <= hi /\ hi <= str_len s.
Proof. unfold str_slice. destruct (_ && _) eqn:E; [|done]. intros _. zbool. lia. Qed.

(** C33. A text is parsed only when its first [#] has at least one byte
    before it and one after it: for a text without [#] or with the [#]
    first, the name slice [str[:idx-1]] is out of range, and the parser
    ends in an error of [Atois] or in a panic. *)
Theorem ParseFuncFromString_hash_inside (str operator : string) (rightValue : float64)
    (fn : Function) :
  ParseFuncFromString str operator rightValue = Ret fn ->
  1 <= strings_Index str "#" <= str_len str - 2.
Proof.
  unfold ParseFuncFromString. destruct (String.eqb str ""); [done|]. intros Hp. res_inv.
  repeat match goal with E : str_slice _ _ _ = Ret _ |- _ => apply str_slice_Ret in E end.
  lia.
Qed.

Lemma ParseFuncFromString_hash_inside_witness :
  1 <= strings_Index "avg(#3)" "#" <= str_len "avg(#3)" - 2.
Proof.
  apply (ParseFuncFromString_hash_inside "avg(#3)" ">" f64_zero (AvgFunction 3 ">" f64_zero)).
  vm_compute. reflexivity.
Defined.

(** * What the parser rejects *)

(** The bytes of an argument list: digits, signs and the comma. *)
Definition is_args_byte (c : ascii) : bool := is_int_byte c || Ascii.eqb c ",".

Lemma Atois_bytes (s : string) (ns : list Z) :
  Atois s = Ret ns -> all_bytes is_args_byte s = true.
Proof.
  unfold Atois. intros H%Atois_loop_bytes.
  rewrite <- (strings_Join_Split s ","). apply all_bytes_Join; [done|].
  eapply Forall_impl; [exact H|]. intros piece. apply all_bytes_mono.
  intros c Hc. unfold is_args_byte. by rewrite Hc.
Qed.

Lemma Atois_error (s : string) :
  all_bytes is_args_byte s = false -> exists e, Atois s = Err e.
Proof.
  intros Hs. destruct (Atois s) as [ns|e|p] eqn:E.
  - apply Atois_bytes in E. congruence.
  - by exists e.
  - by apply Atois_loop_no_panic in E.
Qed.

(** C32. The shape [name(#N#M)] is never accepted: a second [#] between
    the first one and the closing byte makes [Atois] fail, and the parser
    returns that error. *)
Theorem ParseFuncFromString_second_hash (name a b operator : string)
    (rightValue : float64) :
  has_byte "#" name = false ->
  exists e, ParseFuncFromString (descriptor_text name (a +:+ String "#" b))
              operator rightValue = Err e.
Proof.
  intros Hname. rewrite ParseFuncFromString_text by done.
  destruct (Atois_error (a +:+ String "#" b)) as [e ->]; [|by exists e].
  rewrite all_bytes_app. simpl. by rewrite andb_false_r.
Qed.

Lemma ParseFuncFromString_second_hash_witness :
  exists e, ParseFuncFromString (descriptor_text "lookup" ("2" +:+ String "#" "5"))
              ">" f64_zero = Err e.
Proof. apply ParseFuncFromString_second_hash. reflexivity. Defined.

(** * What the parser accepts *)

Lemma new_function_parameters (name : string) (args : list Z) operator rightValue fn :
  new_function name args operator rightValue = Ret fn ->
  parameters fn `sublist_of` args.
Proof.
  unfold new_function. intros H.
  repeat match type of H with
  | (if ?b then _ else _) = _ => destruct b
  end;
  destruct args as [|x [|y args]]; simplify_eq/=;
  repeat first [apply sublist_nil_l | apply sublist_skip].
Qed.

(** The integer parameters of a function that the parser returns
    fit a 64-bit [int]. *)
Theorem ParseFuncFromString_parameters_range (str operator : string)
    (rightValue : float64) (fn : Function) :
  ParseFuncFromString str operator rightValue = Ret fn ->
  Forall (fun n => in_int64 n = true) (parameters fn).
Proof.
  unfold ParseFuncFromString. destruct (String.eqb str ""); [done|].
  intros H. res_inv.
  eapply Forall_sublist; [by eapply new_function_parameters|].
  by eapply Atois_loop_range.
Qed.

Lemma ParseFuncFromString_parameters_range_witness :
  Forall (fun n => in_int64 n = true) (parameters (LookupFunction 2 5 ">" f64_zero)).
Proof.
  apply (ParseFuncFromString_parameters_range "lookup(#2,5)" ">" f64_zero).
  vm_compute. reflexivity.
Defined.

(** * The pieces of a printed descriptor *)

Section Printed.
Context (name : string) (args : list Z).

Let body : string := strings_Join (strconv_Itoa <$> args) ",".

Lemma printed_body_bytes : all_bytes is_args_byte body = true.
Proof.
  apply all_bytes_Join; [done|]. apply Forall_fmap, Forall_forall. intros n _.
  apply (all_bytes_mono is_int_byte); [|apply strconv_Itoa_bytes].
  intros c Hc. unfold is_args_byte. by rewrite Hc.
Qed.

Lemma printed_body_free (c : ascii) : is_args_byte c = false -> has_byte c body = false.
Proof. intros Hc. eapply all_bytes_has_byte; [apply printed_body_bytes | done]. Qed.

(** The text before the closing byte. *)
Lemma descriptor_init :
  str_slice (descriptor name args) 0 (str_len (descriptor name args) - 1)
  = Ret (name +:+ "(#" +:+ body).
Proof.
  unfold descriptor, descriptor_text. fold body.
  rewrite (str_app_assoc name "(#" (body +:+ ")")), (str_app_assoc (name +:+ "(#") body ")").
  rewrite str_slice_init_app. by rewrite <- str_app_assoc.
Qed.

(** Its two pieces around the [#]. *)
Lemma descriptor_Split :
  has_byte "#" name = false ->
  strings_Split (name +:+ "(#" +:+ body) "#" = [name +:+ "("; body].
Proof.
  intros Hname. change (name +:+ "(#" +:+ body) with (name +:+ "(" +:+ String "#" body).
  rewrite (str_app_assoc name "(" (String "#" body)), strings_Split_app
    by (by rewrite has_byte_app, Hname).
  by rewrite strings_Split_free by by apply printed_body_free.
Qed.

(** The bytes of a printed descriptor are those of the name, of the
    arguments and of the brackets. *)
Lemma descriptor_free (c : ascii) :
  has_byte c name = false -> is_args_byte c = false -> has_byte c "(#)" = false ->
  has_byte c (descriptor name args) = false.
Proof.
  intros Hname Hc Hb. unfold descriptor, descriptor_text. fold body.
  rewrite !has_byte_app, Hname, printed_body_free by done. cbn [has_byte orb] in *.
  by destruct (Ascii.eqb "(" c), (Ascii.eqb "#" c), (Ascii.eqb ")" c).
Qed.

End Printed.

(** * What the switch builds *)

(** On a list of arguments that is long enough for the name, the switch
    fails on a name it does not know, builds a function whose loop stays
    inside its guard, or builds [CAvgRateAbs]; [diff] and [pdiff] apart. *)
Lemma new_function_cases (name : string) (args : list Z) (operator : string)
    (rightValue : float64) :
  args <> [] -> name <> "diff" -> name <> "pdiff" ->
  (name = "lookup" -> 2 <= len args) ->
  (exists e, new_function name args operator rightValue = Err e)
  \/ (exists fn, new_function name args operator rightValue = Ret fn
                 /\ guarded_window fn = true /\ has_byte "c" name = false)
  \/ (name = "c_avg_rate_abs"
      /\ new_function name args operator rightValue = Ret (CAvgRateAbs operator rightValue)).
Proof.
  intros Hne Hd Hp Hl. unfold new_function. destruct args as [|a0 args]; [done|].
  repeat match goal with
  | |- context [String.eqb name ?x] => destruct (String.eqb_spec name x) as [->|?]
  end; try done;
  try (right; left; eexists; by split_and!);
  [|right; right; by split | left; by eexists].
  destruct args as [|a1 args]; [specialize (Hl eq_refl); unfold len in Hl; simpl in Hl; lia|].
  right; left; eexists; by split_and!.
Qed.
