(* ===== verification/Store.v ===== *)
(** * Store: the judge's in-memory maps

    Two maps guarded by a lock hold the judge's state between rounds.

    - [Cache] models [store/cache.go]: [TmpItemMap] maps a key to a
      pointer to a [JudgeItem].  [Set] adds the value of an item to the
      item already stored under the key when both carry the same
      timestamp, by writing through the stored pointer; the model keeps
      the heap of items and the pointers, so that a write through one
      pointer is seen through every key bound to it.
    - [KeyValue] is the interface of a map with [Get] and [Set], the
      contract the alert state machine needs of the last-event store;
      [gmap_KeyValue] implements it with a finite map.

    [Lock]/[Unlock] bracket each method body: a method is one atomic step
    of the model. *)

From Stdlib Require Import ZArith Lia String.
From stdpp Require Import base tactics option list strings gmap.
From S2P Require Import Prelude.
From S2P Require Import Float64.

Local Open Scope Z_scope.
Local Open Scope res_scope.

(** * A map with [Get] and [Set] *)

Class KeyValue (K V S : Type) `{EqDecision K} := {
  kv_empty : S;
  kv_get : S -> K -> option V;
  kv_set : K -> V -> S -> S;
  kv_get_empty : forall k, kv_get kv_empty k = None;
  kv_get_set : forall k k' v s,
    kv_get (kv_set k v s) k' = if decide (k = k') then Some v else kv_get s k'
}.

#[export] Instance gmap_KeyValue (K V : Type) `{Countable K} : KeyValue K V (gmap K V).
Proof.
  refine {| kv_empty := ∅; kv_get := fun s k => s !! k;
            kv_set := fun k v s => <[k:=v]> s |}.
  - intros k. apply lookup_empty.
  - intros k k' v s. destruct (decide (k = k')) as [->|Hne].
    + apply lookup_insert_eq.
    + by apply lookup_insert_ne.
Defined.

Section KeyValueLaws.
Context {K V S : Type} `{KeyValue K V S}.

Lemma kv_get_set_eq (k : K) (v : V) (s : S) : kv_get (kv_set k v s) k = Some v.
Proof. rewrite kv_get_set. by destruct (decide (k = k)). Qed.

Lemma kv_get_set_ne (k k' : K) (v : V) (s : S) :
  k <> k' -> kv_get (kv_set k v s) k' = kv_get s k'.
Proof. intros Hne. rewrite kv_get_set. by destruct (decide (k = k')). Qed.

(** A property of every stored value survives a [Set] of a value that has
    it. *)
Lemma kv_set_forall (P : K -> V -> Prop) (k : K) (v : V) (s : S) :
  P k v ->
  (forall k' v', kv_get s k' = Some v' -> P k' v') ->
  forall k' v', kv_get (kv_set k v s) k' = Some v' -> P k' v'.
Proof.
  intros Hv Hs k' v'. rewrite kv_get_set.
  destruct (decide (k = k')) as [->|_]; [by intros [= <-] | apply Hs].
Qed.

End KeyValueLaws.

(** * [store/cache.go] *)

Module Cache.

(** [model.JudgeItem] *)
Record JudgeItem := mkJudgeItem {
  Endpoint : string;
  Metric : string;
  Value : float64;
  Timestamp : Z;
  JudgeType : string;
  Tags : gmap string string
}.

(** A pointer to an item: [None] is [nil]. *)
Abbreviation loc := positive (only parsing).
Abbreviation ptr := (option positive) (only parsing).
Abbreviation heap := (gmap positive JudgeItem) (only parsing).

(** [type TmpItemMap struct { sync.RWMutex; B map[string]*model.JudgeItem }] *)
Record TmpItemMap := mkTmpItemMap { B : gmap string ptr }.

(** The memory the methods run in: the items and the map. *)
Record state := mkState { mem : heap; this : TmpItemMap }.

(** [p.f]: reading a field through a pointer. *)
Definition load (h : heap) (p : ptr) : res JudgeItem :=
  match p with
  | None => Panic NilPointerDereference
  | Some l =>
      match h !! l with
      | Some item => Ret item
      | None => Panic NilPointerDereference
      end
  end.

(** [init]: an empty map. *)
Definition init (h : heap) : state := mkState h (mkTmpItemMap ∅).

(** [TmpItemMap.Get]: the pointer stored under [key] and whether there is one. *)
Definition TmpItemMap_Get (key : string) (st : state) : ptr * bool :=
  match B (this st) !! key with
  | Some val => (val, true)
  | None => (None, false)
  end.

(** [old.Value += item.Value] *)
Definition add_value (old : loc) (o i : JudgeItem) (st : state) : state :=
  let o' := mkJudgeItem (Endpoint o) (Metric o) (Value o + Value i)%f64 (Timestamp o)
              (JudgeType o) (Tags o) in
  mkState (<[old := o']> (mem st)) (this st).

(** [this.B[key] = item] *)
Definition bind_key (key : string) (item : ptr) (st : state) : state :=
  mkState (mem st) (mkTmpItemMap (<[key := item]> (B (this st)))).

(** [TmpItemMap.Set]: the replaced pointer and [true] when the key held an
    item of another timestamp, [nil] and [false] otherwise. *)
Definition TmpItemMap_Set (key : string) (item : ptr) (st : state)
    : res (state * (ptr * bool)) :=
  match B (this st) !! key with
  | Some old =>
      o <- load (mem st) old ;;
      i <- load (mem st) item ;;
      if wrap64 (Timestamp o - Timestamp i) =? 0 then
        match old with
        | Some l => Ret (add_value l o i st, (None, false))
        | None => Panic NilPointerDereference
        end
      else Ret (bind_key key item st, (old, true))
  | None => Ret (bind_key key item st, (None, false))
  end.

(** What a reader of the map finds under a key: the item behind the
    pointer that [Get] returns. *)
Definition read (key : string) (st : state) : res JudgeItem :=
  load (mem st) (TmpItemMap_Get key st).1.

(** ** Well-formed memories *)

(** A pointer is valid when it is not nil and its item is allocated with
    a timestamp that fits an [int64]. *)
Definition valid (h : heap) (p : ptr) : Prop :=
  exists l item, p = Some l /\ h !! l = Some item /\ in_int64 (Timestamp item) = true.

(** Every pointer of the map is valid. *)
Definition state_ok (st : state) : Prop :=
  forall key p, B (this st) !! key = Some p -> valid (mem st) p.

Lemma load_valid (h : heap) (p : ptr) :
  valid h p -> exists l item, p = Some l /\ load h p = Ret item /\ h !! l = Some item
                             /\ in_int64 (Timestamp item) = true.
Proof.
  intros (l & item & -> & Hl & Hr). exists l, item. unfold load. by rewrite Hl.
Qed.

Lemma valid_add_value (old : loc) (o i : JudgeItem) (st : state) (p : ptr) :
  mem st !! old = Some o ->
  valid (mem st) p -> valid (mem (add_value old o i st)) p.
Proof.
  intros Ho (l & item & -> & Hl & Hr). unfold add_value, valid. cbn [mem].
  destruct (decide (old = l)) as [->|Hne].
  - simplify_eq. eexists l, _. split_and!; [done | apply lookup_insert_eq | done].
  - exists l, item. by rewrite lookup_insert_ne.
Qed.

Lemma init_ok (h : heap) : state_ok (init h).
Proof. intros key p. simpl. by rewrite lookup_empty. Qed.

(** The test [old.Timestamp-item.Timestamp == 0] is equality of the two
    timestamps. *)
Lemma same_step (a b : Z) :
  in_int64 a = true -> in_int64 b = true ->
  (wrap64 (a - b) =? 0) = (a =? b).
Proof.
  intros Ha Hb. destruct (Z.eqb_spec a b) as [->|Hne].
  - by rewrite Z.sub_diag.
  - apply Z.eqb_neq. by rewrite wrap64_sub_zero.
Qed.


Lemma load_Some (h : heap) (l : loc) (item : JudgeItem) :
  h !! l = Some item -> load h (Some l) = Ret item.
Proof. intros Hl. unfold load. by rewrite Hl. Qed.

Lemma state_ok_bind_key (key : string) (item : ptr) (st : state) :
  valid (mem st) item -> state_ok st -> state_ok (bind_key key item st).
Proof.
  intros Hitem Hst key' p. unfold bind_key. cbn [B this mem].
  destruct (decide (key = key')) as [->|Hne].
  - rewrite lookup_insert_eq. by intros [= <-].
  - rewrite lookup_insert_ne by done. apply Hst.
Qed.

Lemma state_ok_add_value (old : loc) (o i : JudgeItem) (st : state) :
  mem st !! old = Some o -> state_ok st -> state_ok (add_value old o i st).
Proof. intros Ho Hst key p Hp. apply valid_add_value; [done|]. by eapply Hst. Qed.

(** ** [Set], case by case *)

Section SetCases.
Context (key : string) (st : state) (l li : loc) (o i : JudgeItem).
Context (Hkey : B (this st) !! key = Some (Some l)).
Context (Ho : mem st !! l = Some o) (Hi : mem st !! li = Some i).
Context (Hro : in_int64 (Timestamp o) = true) (Hri : in_int64 (Timestamp i) = true).

Lemma TmpItemMap_Set_bound :
  TmpItemMap_Set key (Some li) st
  = if Timestamp o =? Timestamp i then Ret (add_value l o i st, (None, false))
    else Ret (bind_key key (Some li) st, (Some l, true)).
Proof.
  unfold TmpItemMap_Set. rewrite Hkey, (load_Some _ _ _ Ho), (load_Some _ _ _ Hi).
  cbn [res_bind]. by rewrite same_step.
Qed.

(** C22. An item with the timestamp of the stored one is added to it
    through the stored pointer: the map keeps its pointers, [Set] returns
    [nil] and [false], and every key bound to that pointer now reads the
    sum of the two values. *)
Theorem TmpItemMap_Set_accumulates (key' : string) :
  Timestamp o = Timestamp i ->
  B (this st) !! key' = Some (Some l) ->
  exists st',
    TmpItemMap_Set key (Some li) st = Ret (st', (None, false))
    /\ this st' = this st
    /\ read key' st'
       = Ret (mkJudgeItem (Endpoint o) (Metric o) (Value o + Value i)%f64 (Timestamp o)
                (JudgeType o) (Tags o)).
Proof.
  intros Heq%Z.eqb_eq Hkey'. eexists. rewrite TmpItemMap_Set_bound, Heq.
  split_and!; [done..|].
  unfold read, TmpItemMap_Get, add_value. cbn [this mem]. rewrite Hkey'.
  apply load_Some, lookup_insert_eq.
Qed.

(** An item of another timestamp replaces the stored one: [Set]
    returns the old pointer and [true], the key reads the new item, and
    no item changes. *)
Theorem TmpItemMap_Set_replaces :
  Timestamp o <> Timestamp i ->
  exists st',
    TmpItemMap_Set key (Some li) st = Ret (st', (Some l, true))
    /\ mem st' = mem st
    /\ TmpItemMap_Get key st' = (Some li, true)
    /\ read key st' = Ret i.
Proof.
  intros Hne%Z.eqb_neq. eexists. rewrite TmpItemMap_Set_bound, Hne.
  split; [done|]. unfold read, TmpItemMap_Get, bind_key. cbn [B this mem].
  rewrite lookup_insert_eq. split_and!; [done..|]. by apply load_Some.
Qed.

End SetCases.

(** C36. [Set] on a well-formed memory with a valid item does not panic
    and leaves a well-formed memory. *)
Theorem TmpItemMap_Set_ok (key : string) (item : ptr) (st : state) :
  state_ok st -> valid (mem st) item ->
  exists st' r, TmpItemMap_Set key item st = Ret (st', r) /\ state_ok st'.
Proof.
  intros Hst (li & i & -> & Hi & Hri).
  destruct (B (this st) !! key) as [old|] eqn:Hkey.
  - destruct (Hst _ _ Hkey) as (l & o & -> & Ho & Hro).
    rewrite (TmpItemMap_Set_bound key st l li o i) by done.
    destruct (_ =? _); eexists _, _; (split; [done|]).
    + by apply state_ok_add_value.
    + apply state_ok_bind_key; [|done]. by exists li, i.
  - unfold TmpItemMap_Set. rewrite Hkey. eexists _, _. split; [done|].
    apply state_ok_bind_key; [|done]. by exists li, i.
Qed.

(** [Set] leaves the pointers of the other keys alone. *)
Lemma TmpItemMap_Set_other_keys (key key' : string) (item : ptr) (st st' : state) r :
  key <> key' ->
  TmpItemMap_Set key item st = Ret (st', r) ->
  TmpItemMap_Get key' st' = TmpItemMap_Get key' st.
Proof.
  intros Hne. unfold TmpItemMap_Set, TmpItemMap_Get.
  destruct (B (this st) !! key) as [old|]; intros H; res_inv;
    repeat case_match; simplify_eq; cbn [B this bind_key add_value] in *;
    rewrite ?lookup_insert_ne in * by done; congruence.
Qed.

(** A memory of two items, the first bound to two keys. *)
Definition sample_item (v t : Z) : JudgeItem :=
  mkJudgeItem "host" "cpu.idle" (f64_of_int v) t "GAUGE" ∅.

Definition sample_state : state :=
  mkState {[ 1%positive := sample_item 3 60; 2%positive := sample_item 4 60;
             3%positive := sample_item 5 120 ]}
    (mkTmpItemMap {[ "a" := Some 1%positive; "b" := Some 1%positive ]}).

Lemma sample_state_ok : state_ok sample_state.
Proof.
  intros key p Hp. exists 1%positive, (sample_item 3 60).
  split_and!; [|done..]. unfold sample_state in Hp. cbn [B this] in Hp.
  apply lookup_insert_Some in Hp as [[_ <-]|[_ Hp]]; [done|].
  by apply lookup_singleton_Some in Hp as [_ <-].
Qed.

Lemma TmpItemMap_Set_accumulates_witness :
  exists st',
    TmpItemMap_Set "a" (Some 2%positive) sample_state = Ret (st', (None, false))
    /\ this st' = this sample_state
    /\ read "b" st'
       = Ret (mkJudgeItem "host" "cpu.idle" (f64_of_int 3 + f64_of_int 4)%f64 60 "GAUGE" ∅).
Proof.
  apply (TmpItemMap_Set_accumulates "a" sample_state 1 2 (sample_item 3 60)
           (sample_item 4 60)); reflexivity.
Defined.

Lemma TmpItemMap_Set_replaces_witness :
  exists st',
    TmpItemMap_Set "a" (Some 3%positive) sample_state = Ret (st', (Some 1%positive, true))
    /\ mem st' = mem sample_state
    /\ TmpItemMap_Get "a" st' = (Some 3%positive, true)
    /\ read "a" st' = Ret (sample_item 5 120).
Proof.
  apply (TmpItemMap_Set_replaces "a" sample_state 1 3 (sample_item 3 60)
           (sample_item 5 120)); done.
Defined.

Lemma TmpItemMap_Set_ok_witness :
  exists st' r, TmpItemMap_Set "c" (Some 3%positive) sample_state = Ret (st', r)
                /\ state_ok st'.
Proof.
  apply TmpItemMap_Set_ok; [exact sample_state_ok|].
  by exists 3%positive, (sample_item 5 120).
Defined.

(** Two keys bound to one item, and an item of the same timestamp set
    under the first: the second key reads the sum. *)
Example alias_accumulates :
  let item v := mkJudgeItem "host" "cpu.idle" (f64_of_int v) 60 "GAUGE" ∅ in
  let st := mkState {[ 1%positive := item 3; 2%positive := item 4 ]}
              (mkTmpItemMap {[ "a" := Some 1%positive; "b" := Some 1%positive ]}) in
  (st' ← (match TmpItemMap_Set "a" (Some 2%positive) st with
          | Ret (st', _) => Some st' | _ => None end);
   match read "b" st' with Ret it => Some (Value it) | _ => None end)
  = Some (f64_of_int 7).
Proof. vm_compute. reflexivity. Qed.

(** Setting under a key the very item it holds doubles the value of the
    item. *)
Example same_pointer_doubles :
  let st := mkState {[ 1%positive := mkJudgeItem "host" "cpu.idle" (f64_of_int 3) 60 "GAUGE" ∅ ]}
              (mkTmpItemMap {[ "a" := Some 1%positive ]}) in
  (st' ← (match TmpItemMap_Set "a" (Some 1%positive) st with
          | Ret (st', _) => Some st' | _ => None end);
   match read "a" st' with Ret it => Some (Value it) | _ => None end)
  = Some (f64_of_int 6).
Proof. vm_compute. reflexivity. Qed.

End Cache.
