(* ===== verification/Emitter.v ===== *)
(** * Emitter: events, the world of the judge and [sendEvent]

    [sendEvent] of [judge/cron/judge.go] and the data of [common/model]
    it works on.  The state is a [world]: the last-event store, reached
    through the [KeyValue] interface of [Store], the lists of the Redis
    server, and the fate of the commands to come on the connection.

    The payload pushed on a list is the JSON text of an event; the model
    keeps the event it encodes.  [json_Marshal] fails on the values JSON
    cannot carry, a NaN or an infinity in a float field.  [rc.Do] returns
    a reply and an error that [sendEvent] drops: a command that is lost
    leaves the lists as they are and the caller does not see it.  The
    formatting of the queue key is a parameter of the section: the
    theorems hold for every formatter. *)

From Stdlib Require Import ZArith Lia String Ascii.
From stdpp Require Import base tactics option list strings gmap.
From S2P Require Import Prelude.
From S2P Require Import Float64.
From S2P Require Import GoStrings.
From S2P Require Import Funcs.
From S2P Require Import Store.

Local Open Scope Z_scope.
Local Open Scope res_scope.

(** * Data of [common/model] *)

(** [model.Strategy] *)
Record Strategy := mkStrategy {
  Strategy_Id : Z;
  Metric : string;
  Tags : gmap string string;
  Func : string;
  Operator : string;
  RightValue : float64;
  MaxStep : Z;
  Priority : Z;
  Note : string
}.

(** [model.Event]; [Event_Strategy] is the pointer field [Strategy],
    [None] when it is [nil].  The field [Expression] is never set by the
    judge: it is [nil] in every event of this program. *)
Record Event := mkEvent {
  Id : string;
  Event_Strategy : option Strategy;
  Status : string;
  Endpoint : string;
  LeftValue : float64;
  CurrentStep : Z;
  EventTime : Z;
  PushedTags : gmap string string
}.

(** [event.Status = s] *)
Definition set_Status (s : string) (e : Event) : Event :=
  mkEvent (Id e) (Event_Strategy e) s (Endpoint e) (LeftValue e) (CurrentStep e)
    (EventTime e) (PushedTags e).

(** [event.CurrentStep = n] *)
Definition set_CurrentStep (n : Z) (e : Event) : Event :=
  mkEvent (Id e) (Event_Strategy e) (Status e) (Endpoint e) (LeftValue e) n
    (EventTime e) (PushedTags e).

(** [func (this *Event) Priority() int]: the priority of the strategy, or
    of the expression when there is no strategy. *)
Definition Event_Priority (e : Event) : res Z :=
  match Event_Strategy e with
  | Some s => Ret (Priority s)
  | None => Panic NilPointerDereference
  end.

(** [json.Marshal(event)]: an error when a float of the event is a NaN or
    an infinity, the encoding of the event otherwise. *)
Definition json_Marshal (e : Event) : res Event :=
  let strategy_ok :=
    match Event_Strategy e with
    | Some s => f64_is_finite (RightValue s)
    | None => true
    end in
  if f64_is_finite (LeftValue e) && strategy_ok then Ret e
  else Err (ErrorString "json: unsupported value").

(** [g.Config().Alarm] *)
Record AlarmConfig := mkAlarmConfig {
  MinInterval : Z;
  QueuePattern : string
}.

(** * The emitter *)

Section Emitter.
Context {S : Type} `{KeyValue string Event S}.
Context (Sprintf : string -> Z -> string) (cfg : AlarmConfig).

(** The last-event store, the lists of the Redis server, and what
    becomes of the commands to come: the head of [Outages] is [true]
    when the next command does not reach the server; on the empty list
    every command does. *)
Record world := mkWorld {
  LastEvents : S;
  Redis : gmap string (list Event);
  Outages : list bool
}.

(** [g.LastEvents.Set(key, event)] *)
Definition LastEvents_Set (key : string) (event : Event) (w : world) : world :=
  mkWorld (kv_set key event (LastEvents w)) (Redis w) (Outages w).

(** Whether the next command on the connection is lost. *)
Definition lost (w : world) : bool := default false (head (Outages w)).

(** [rc.Do("LPUSH", redisKey, payload)], its reply and its error
    dropped: the payload at the head of the list, unless the command is
    lost. *)
Definition LPUSH (redisKey : string) (payload : Event) (w : world) : world :=
  mkWorld (LastEvents w)
    (if lost w then Redis w
     else <[redisKey := payload :: default [] (Redis w !! redisKey)]> (Redis w))
    (tail (Outages w)).

Definition sendEvent (event : Event) (w : world) : res world :=
  let w := LastEvents_Set (Id event) event w in
  match json_Marshal event with
  | Ret bs =>
      priority <- Event_Priority event ;;
      let redisKey := Sprintf (QueuePattern cfg) priority in
      Ret (LPUSH redisKey bs w)
  | Err _ => Ret w
  | Panic p => Panic p
  end.

(** The list an event goes to, when it has a strategy. *)
Definition queue_of (e : Event) : option string :=
  s ← Event_Strategy e; Some (Sprintf (QueuePattern cfg) (Priority s)).

(** An event that [sendEvent] can put on a list: it carries its
    strategy and JSON can carry its floats. *)
Definition deliverable (e : Event) : bool :=
  match Event_Strategy e with
  | Some s => f64_is_finite (LeftValue e) && f64_is_finite (RightValue s)
  | None => false
  end.

(** * Well-formed worlds *)

(** An event as the state machine stores it: under its own id, with one
    of the two statuses, a step of at least one and a time of day. *)
Record event_ok (key : string) (e : Event) : Prop := mk_event_ok {
  ok_key : Id e = key;
  ok_status : Status e = "OK" \/ Status e = "PROBLEM";
  ok_step : 1 <= CurrentStep e <= max_int64;
  ok_time : 0 <= EventTime e <= max_int64
}.

Definition world_ok (w : world) : Prop :=
  forall key e, kv_get (LastEvents w) key = Some e -> event_ok key e.

(** Every event of the lists has the property [P]. *)
Definition queue_all (P : Event -> Prop) (w : world) : Prop :=
  forall key q e, Redis w !! key = Some q -> e ∈ q -> P e.

(** Every event of the lists is a well-formed event. *)
Definition queue_ok (w : world) : Prop := queue_all (fun e => event_ok (Id e) e) w.

(** [w'] is [w] with the event [e] pushed on one of the lists. *)
Definition pushes (w w' : world) (e : Event) : Prop :=
  exists key, Redis w' = <[key := e :: default [] (Redis w !! key)]> (Redis w).

(** The list of a key, empty when the server has none. *)
Definition queue (w : world) (key : string) : list Event :=
  default [] (Redis w !! key).

Lemma push_not_same (w : world) (e : Event) : pushes w w e -> False.
Proof.
  intros [key Hk]. apply (f_equal (fun m => length (default [] (m !! key)))) in Hk.
  rewrite lookup_insert_eq in Hk. simpl in Hk. lia.
Qed.

Lemma push_inj (w w' : world) (e e' : Event) (key : string) :
  Redis w' = <[key := e' :: default [] (Redis w !! key)]> (Redis w) ->
  pushes w w' e -> e = e'.
Proof.
  intros Hw' [key' Hk]. rewrite Hw' in Hk.
  apply (f_equal (fun m => default [] (m !! key))) in Hk.
  rewrite lookup_insert_eq in Hk. destruct (decide (key' = key)) as [->|Hne].
  - rewrite lookup_insert_eq in Hk. by simplify_eq/=.
  - rewrite lookup_insert_ne in Hk by done.
    apply (f_equal length) in Hk. simpl in Hk. lia.
Qed.

(** * What [sendEvent] does *)

Lemma json_Marshal_strategy (event : Event) (s : Strategy) :
  Event_Strategy event = Some s ->
  json_Marshal event
  = if f64_is_finite (LeftValue event) && f64_is_finite (RightValue s) then Ret event
    else Err (ErrorString "json: unsupported value").
Proof. intros Hs. unfold json_Marshal. by rewrite Hs. Qed.

Lemma json_Marshal_deliverable (event : Event) :
  deliverable event = true -> json_Marshal event = Ret event.
Proof.
  unfold deliverable. destruct (Event_Strategy event) as [s|] eqn:Hs; [|done].
  intros Hf. by rewrite (json_Marshal_strategy _ _ Hs), Hf.
Qed.

(** [sendEvent] on an event with a strategy always stores the event as
    the last one of its id; it sends it to the list of its priority when
    its floats are finite, and to no list otherwise. *)
Theorem sendEvent_Ret (event : Event) (s : Strategy) (w : world) :
  Event_Strategy event = Some s ->
  sendEvent event w
  = Ret (if f64_is_finite (LeftValue event) && f64_is_finite (RightValue s)
         then LPUSH (Sprintf (QueuePattern cfg) (Priority s)) event
                (LastEvents_Set (Id event) event w)
         else LastEvents_Set (Id event) event w).
Proof.
  intros Hs. unfold sendEvent, Event_Priority.
  rewrite (json_Marshal_strategy _ _ Hs), Hs. by destruct (_ && _).
Qed.

(** C34. An event whose left value is a NaN or an infinity is recorded as
    the last event of its alert and is not queued. *)
Theorem sendEvent_unsupported_value (event : Event) (w : world) :
  f64_is_finite (LeftValue event) = false ->
  sendEvent event w = Ret (LastEvents_Set (Id event) event w).
Proof. intros Hv. unfold sendEvent, json_Marshal. by rewrite Hv. Qed.

(** An event without strategy that JSON can carry has no priority. *)
Lemma sendEvent_no_strategy (event : Event) (w : world) :
  Event_Strategy event = None -> f64_is_finite (LeftValue event) = true ->
  sendEvent event w = Panic NilPointerDereference.
Proof.
  intros Hs Hv. unfold sendEvent, json_Marshal, Event_Priority. by rewrite Hs, Hv.
Qed.

Lemma sendEvent_store (event : Event) (w w' : world) :
  sendEvent event w = Ret w' ->
  LastEvents w' = kv_set (Id event) event (LastEvents w).
Proof.
  unfold sendEvent. destruct (json_Marshal event); [|by intros [= <-]|done].
  intros Hw. by res_inv.
Qed.

(** What [sendEvent] does to the lists: nothing, or one push of the
    event. *)
Lemma sendEvent_Redis (event : Event) (w w' : world) :
  sendEvent event w = Ret w' ->
  Redis w' = Redis w
  \/ exists key, Redis w' = <[key := event :: default [] (Redis w !! key)]> (Redis w).
Proof.
  unfold sendEvent, json_Marshal. destruct (_ && _); [|intros [= <-]; by left].
  intros Hw. res_inv. unfold LPUSH. cbn. destruct (lost _); [by left|right; by eexists].
Qed.

Lemma sendEvent_total (event : Event) (s : Strategy) (w : world) :
  Event_Strategy event = Some s -> exists w', sendEvent event w = Ret w'.
Proof. intros Hs. rewrite (sendEvent_Ret _ _ _ Hs). by eexists. Qed.

Lemma sendEvent_ok (event : Event) (w w' : world) :
  event_ok (Id event) event -> world_ok w ->
  sendEvent event w = Ret w' -> world_ok w'.
Proof.
  intros He Hw Hs%sendEvent_store key e. rewrite Hs. by apply kv_set_forall.
Qed.

(** A property of the events of the lists is kept when the event sent
    has it. *)
Lemma sendEvent_queue_all (P : Event -> Prop) (ev : Event) (w w' : world) :
  P ev -> queue_all P w -> sendEvent ev w = Ret w' -> queue_all P w'.
Proof.
  intros Hev Hq Hsend key q e.
  destruct (sendEvent_Redis _ _ _ Hsend) as [->|[k ->]]; [apply Hq|].
  destruct (decide (k = key)) as [->|Hne]; [|rewrite lookup_insert_ne by done; apply Hq].
  rewrite lookup_insert_eq. intros [= <-] [->|He]%elem_of_cons; [done|].
  destruct (Redis w !! key) as [old|] eqn:Hold; [by eapply Hq|].
  by apply elem_of_nil in He.
Qed.

(** The two writes of [sendEvent], one by one. *)
Lemma LastEvents_Set_ok (ev : Event) (w : world) :
  event_ok (Id ev) ev -> world_ok w -> world_ok (LastEvents_Set (Id ev) ev w).
Proof. intros He Hw key e. by apply kv_set_forall. Qed.

(** What JSON carries is the event, and an event with its strategy does
    not stop the encoder. *)
Lemma json_Marshal_payload (event bs : Event) : json_Marshal event = Ret bs -> bs = event.
Proof. unfold json_Marshal. destruct (_ && _); by intros [= <-]. Qed.

Lemma json_Marshal_no_panic (event : Event) (p : panic) : json_Marshal event <> Panic p.
Proof. unfold json_Marshal. by destruct (_ && _). Qed.

Lemma LPUSH_queue_all (P : Event -> Prop) (redisKey : string) (ev : Event) (w : world) :
  P ev -> queue_all P w -> queue_all P (LPUSH redisKey ev w).
Proof.
  intros Hev Hq key q e. unfold LPUSH. cbn. destruct (lost w); [apply Hq|].
  destruct (decide (redisKey = key)) as [->|Hne]; [|rewrite lookup_insert_ne by done; apply Hq].
  rewrite lookup_insert_eq. intros [= <-] [->|He]%elem_of_cons; [done|].
  destruct (Redis w !! key) as [old|] eqn:Hold; [by eapply Hq|].
  by apply elem_of_nil in He.
Qed.

Lemma sendEvent_queue_ok (ev : Event) (w w' : world) :
  event_ok (Id ev) ev -> queue_ok w -> sendEvent ev w = Ret w' -> queue_ok w'.
Proof. apply (sendEvent_queue_all (fun e => event_ok (Id e) e)). Qed.

Lemma queue_all_empty (P : Event -> Prop) (store : S) (outages : list bool) :
  queue_all P (mkWorld store ∅ outages).
Proof. intros key q e. cbn. by rewrite lookup_empty. Qed.

Lemma world_ok_empty (outages : list bool) (queues : gmap string (list Event)) :
  world_ok (mkWorld kv_empty queues outages).
Proof. intros key e. cbn. by rewrite kv_get_empty. Qed.

(** * Delivery and loss *)

(** The list of a key after a push on a key. *)
Lemma queue_LPUSH (redisKey key : string) (payload : Event) (w : world) :
  queue (LPUSH redisKey payload w) key
  = if lost w then queue w key
    else if decide (redisKey = key) then payload :: queue w key else queue w key.
Proof.
  unfold queue, LPUSH. cbn. destruct (lost w); [done|].
  destruct (decide (redisKey = key)) as [->|Hne];
    [by rewrite lookup_insert_eq | by rewrite lookup_insert_ne].
Qed.

(** What [sendEvent] does on a deliverable event, list by list. *)
Lemma sendEvent_deliverable (event : Event) (w : world) :
  deliverable event = true ->
  exists w', sendEvent event w = Ret w'
    /\ LastEvents w' = kv_set (Id event) event (LastEvents w)
    /\ Outages w' = tail (Outages w)
    /\ forall key, queue w' key
         = if lost w then queue w key
           else if decide (queue_of event = Some key) then event :: queue w key
           else queue w key.
Proof.
  intros Hd. pose proof Hd as Hd'. unfold deliverable in Hd'. unfold queue_of.
  destruct (Event_Strategy event) as [s|] eqn:Hs; [|done].
  rewrite (sendEvent_Ret _ _ _ Hs), Hd'. eexists. split_and!; try done.
  intros key. rewrite queue_LPUSH. change (lost (LastEvents_Set _ _ w)) with (lost w).
  change (queue (LastEvents_Set _ _ w) key) with (queue w key).
  destruct (lost w); [done|]. repeat case_decide; simplify_eq/=; congruence.
Qed.

(** An event that cannot be delivered changes the store only. *)
Lemma sendEvent_undeliverable (event : Event) (w w' : world) :
  deliverable event = false -> sendEvent event w = Ret w' ->
  w' = LastEvents_Set (Id event) event w.
Proof.
  unfold deliverable. destruct (Event_Strategy event) as [s|] eqn:Hs.
  - intros Hf. rewrite (sendEvent_Ret _ _ _ Hs), Hf. intros Hw. by simplify_eq.
  - unfold sendEvent, json_Marshal, Event_Priority. rewrite Hs, andb_true_r.
    destruct (f64_is_finite _); [done|]. intros _ Hw. by simplify_eq.
Qed.

(** The list of a key after [sendEvent]: the event at its head when the
    event is deliverable, goes to this list and the command is not lost. *)
Lemma sendEvent_queue (event : Event) (w w' : world) (key : string) :
  sendEvent event w = Ret w' ->
  queue w' key
  = if deliverable event && negb (lost w) && bool_decide (queue_of event = Some key)
    then event :: queue w key else queue w key.
Proof.
  intros Hsend. destruct (deliverable event) eqn:Hd.
  - destruct (sendEvent_deliverable event w Hd) as (w1 & Hw1 & _ & _ & Hq).
    rewrite Hsend in Hw1. injection Hw1 as <-. rewrite Hq.
    destruct (lost w); cbn; [done|]. by case_bool_decide; case_decide.
  - by rewrite (sendEvent_undeliverable _ _ _ Hd Hsend).
Qed.

(** [sendEvent] uses the connection once, for a deliverable event. *)
Lemma sendEvent_Outages (event : Event) (w w' : world) :
  sendEvent event w = Ret w' ->
  Outages w' = if deliverable event then tail (Outages w) else Outages w.
Proof.
  intros Hsend. destruct (deliverable event) eqn:Hd.
  - destruct (sendEvent_deliverable event w Hd) as (w1 & Hw1 & _ & Ho & _).
    rewrite Hsend in Hw1. by injection Hw1 as <-.
  - by rewrite (sendEvent_undeliverable _ _ _ Hd Hsend).
Qed.

Lemma queue_empty (store : S) (outages : list bool) (key : string) :
  queue (mkWorld store ∅ outages) key = [].
Proof. unfold queue. cbn. by rewrite lookup_empty. Qed.

Lemma Forall_tail_working (outages : list bool) :
  Forall (fun b => b = false) outages -> Forall (fun b => b = false) (tail outages).
Proof. by intros [|b l _ Hl]. Qed.

Lemma lost_working (w : world) : Forall (fun b => b = false) (Outages w) -> lost w = false.
Proof. unfold lost. by intros [|b l -> _]. Qed.

(** An event sent while the connection is down is stored as the last
    event of its alert and reaches no list: [sendEvent] returns as it
    does when the event is delivered. *)
Theorem sendEvent_outage (event : Event) (w : world) (rest : list bool) :
  deliverable event = true ->
  Outages w = true :: rest ->
  sendEvent event w
  = Ret (mkWorld (kv_set (Id event) event (LastEvents w)) (Redis w) rest).
Proof.
  intros Hd Ho. pose proof Hd as Hd'. unfold deliverable in Hd'.
  destruct (Event_Strategy event) as [s|] eqn:Hs; [|done].
  rewrite (sendEvent_Ret _ _ _ Hs), Hd'. unfold LPUSH, lost. cbn. by rewrite Ho.
Qed.

End Emitter.

Arguments world S : clear implicits.

(** * One alert

    [avg(#3) > 10] with [MaxStep = 3], under [MinInterval = 300], on a
    store that is a finite map. *)

Definition demo_Sprintf (pattern : string) (priority : Z) : string :=
  pattern +:+ strconv_Itoa priority.

Definition demo_cfg : AlarmConfig := mkAlarmConfig 300 "event:p".

Definition demo_strategy : Strategy :=
  mkStrategy 7 "cpu.idle" ∅ "avg(#3)" ">" (f64_of_int 10) 3 1 "".

(** The candidate event of a judgement at time [now]. *)
Definition demo_event (now : Z) : Event :=
  mkEvent "s_7_k" (Some demo_strategy) "" "host" (f64_of_int 11) 0 now ∅.

(** The event that the state machine stores for a [status] and a [step]. *)
Definition demo_sent (now : Z) (status : string) (step : Z) : Event :=
  set_CurrentStep step (set_Status status (demo_event now)).

(** The world with at most one last event and the given list, on a
    connection that works. *)
Definition demo_world (last : option Event) (queue : list Event) : world (gmap string Event) :=
  mkWorld (from_option (fun l => {[ "s_7_k" := l ]}) ∅ last)
    (if queue is [] then ∅ else {[ "event:p1" := queue ]}) [].

Lemma demo_sent_ok (now step : Z) (status : string) :
  status = "OK" \/ status = "PROBLEM" ->
  1 <= step <= max_int64 -> 0 <= now <= max_int64 ->
  event_ok "s_7_k" (demo_sent now status step).
Proof. by constructor. Qed.

Lemma demo_world_ok (l : Event) (queue : list Event) :
  event_ok "s_7_k" l -> world_ok (demo_world (Some l) queue).
Proof. intros Hl key e. cbn. by intros [<- <-]%lookup_singleton_Some. Qed.

(** The world after a first alarm. *)
Definition demo_before : world (gmap string Event) :=
  demo_world (Some (demo_sent 300 "PROBLEM" 1)) [demo_sent 300 "PROBLEM" 1].

Lemma demo_before_ok : world_ok demo_before.
Proof. apply demo_world_ok, demo_sent_ok; [by right|done..]. Qed.

Lemma sendEvent_Ret_witness :
  sendEvent demo_Sprintf demo_cfg (demo_sent 610 "PROBLEM" 2) demo_before
  = Ret (if f64_is_finite (LeftValue (demo_sent 610 "PROBLEM" 2))
            && f64_is_finite (RightValue demo_strategy)
         then LPUSH (demo_Sprintf (QueuePattern demo_cfg) (Priority demo_strategy))
                (demo_sent 610 "PROBLEM" 2)
                (LastEvents_Set (Id (demo_sent 610 "PROBLEM" 2)) (demo_sent 610 "PROBLEM" 2)
                   demo_before)
         else LastEvents_Set (Id (demo_sent 610 "PROBLEM" 2)) (demo_sent 610 "PROBLEM" 2)
                demo_before).
Proof. apply sendEvent_Ret. reflexivity. Defined.

Lemma sendEvent_unsupported_value_witness :
  sendEvent demo_Sprintf demo_cfg (mkEvent "s_7_k" (Some demo_strategy) "PROBLEM" "host"
                                     f64_nan 1 610 ∅) demo_before
  = Ret (LastEvents_Set "s_7_k" (mkEvent "s_7_k" (Some demo_strategy) "PROBLEM" "host"
                                   f64_nan 1 610 ∅) demo_before).
Proof. apply sendEvent_unsupported_value. reflexivity. Defined.

(** The second alarm while the connection is down: stored, not queued. *)
Lemma sendEvent_outage_witness :
  sendEvent demo_Sprintf demo_cfg (demo_sent 610 "PROBLEM" 2)
    (mkWorld (LastEvents demo_before) (Redis demo_before) [true; false])
  = Ret (mkWorld (kv_set "s_7_k" (demo_sent 610 "PROBLEM" 2) (LastEvents demo_before))
           (Redis demo_before) [false]).
Proof.
  exact (sendEvent_outage demo_Sprintf demo_cfg (demo_sent 610 "PROBLEM" 2)
           (mkWorld (LastEvents demo_before) (Redis demo_before) [true; false]) [false]
           eq_refl eq_refl).
Defined.
