(* ===== verification/Alarm.v ===== *)
(** * Alarm: the alert state machine

    [sendEventIfNeed] of [judge/cron/judge.go], on the [world] of
    [Emitter]: the read of the last event of the alert, then the
    decision and the call of [sendEvent].

    [alert_step] is the decision table of the state machine as a pure
    function; [sendEventIfNeed_refines] shows that the code implements it
    on the worlds the code itself produces.  [reachable] is the set of
    worlds that judgements make from the empty one. *)

From Stdlib Require Import ZArith Lia String Ascii.
From stdpp Require Import base tactics option list strings gmap relations.
From S2P Require Import Prelude.
From S2P Require Import Float64.
From S2P Require Import GoStrings.
From S2P Require Import Funcs.
From S2P Require Import Store.
From S2P Require Import Emitter.

Local Open Scope Z_scope.
Local Open Scope res_scope.

(** * The state machine *)

Section Alarm.
Context {S : Type} `{KeyValue string Event S}.
Context (Sprintf : string -> Z -> string) (cfg : AlarmConfig).

Abbreviation world := (Emitter.world S).
Abbreviation sendEvent := (Emitter.sendEvent Sprintf cfg).

(** [lastEvent.Status[0] == c] *)
Definition status_is (c : ascii) (lastEvent : Event) : res bool :=
  b <- str_at (Status lastEvent) 0 ;; Ret (Ascii.eqb b c).

Definition sendEventIfNeed (historyData : list RRDData) (isTriggered : bool) (now : Z)
    (event : Event) (maxStep : Z) (w : world) : res world :=
  let lastEvent := kv_get (LastEvents w) (Id event) in
  if isTriggered then
    let event := set_Status "PROBLEM" event in
    fresh <- match lastEvent with
             | None => Ret true
             | Some last => status_is "O" last
             end ;;
    if fresh : bool then
      let event := set_CurrentStep 1 event in
      if maxStep =? 0 then Ret w
      else sendEvent event w
    else
      match lastEvent with
      | None => Panic NilPointerDereference
      | Some last =>
          if CurrentStep last >=? maxStep then Ret w else
          oldest <- slice_get historyData (len historyData - 1) ;;
          if Timestamp oldest <=? EventTime last then Ret w else
          if wrap64 (now - EventTime last) <? MinInterval cfg then Ret w else
          let event := set_CurrentStep (wrap64 (CurrentStep last + 1)) event in
          sendEvent event w
      end
  else
    match lastEvent with
    | Some last =>
        problem <- status_is "P" last ;;
        if problem : bool then
          let event := set_CurrentStep 1 (set_Status "OK" event) in
          sendEvent event w
        else Ret w
    | None => Ret w
    end.

(** * The decision table *)

(** What a judgement does to an alert. *)
Inductive verdict :=
  | Suppress
  | Emit (status : string) (step : Z).

(** The state machine on the last event of the alert, the timestamp of
    the last sample of the history, the outcome of the function, the time
    and the quota of the strategy. *)
Definition alert_step (last : option Event) (sample : Z) (isTriggered : bool)
    (now maxStep : Z) : verdict :=
  match last, isTriggered with
  | None, true => if maxStep =? 0 then Suppress else Emit "PROBLEM" 1
  | None, false => Suppress
  | Some l, true =>
      if String.eqb (Status l) "OK" then
        if maxStep =? 0 then Suppress else Emit "PROBLEM" 1
      else if maxStep <=? CurrentStep l then Suppress
      else if sample <=? EventTime l then Suppress
      else if now - EventTime l <? MinInterval cfg then Suppress
      else Emit "PROBLEM" (CurrentStep l + 1)
  | Some l, false =>
      if String.eqb (Status l) "PROBLEM" then Emit "OK" 1 else Suppress
  end.

(** Carrying a verdict out. *)
Definition enact (v : verdict) (event : Event) (w : world) : res world :=
  match v with
  | Suppress => Ret w
  | Emit status step => sendEvent (set_CurrentStep step (set_Status status event)) w
  end.

(** The transitions of an alert: from its last event, on a judgement, to
    the status and step of the event that is emitted. *)
Inductive transition (sample now maxStep : Z) : option Event -> bool -> string -> Z -> Prop :=
  | first_problem :
      maxStep <> 0 ->
      transition sample now maxStep None true "PROBLEM" 1
  | new_problem (l : Event) :
      Status l = "OK" -> maxStep <> 0 ->
      transition sample now maxStep (Some l) true "PROBLEM" 1
  | next_problem (l : Event) :
      Status l = "PROBLEM" -> CurrentStep l < maxStep -> EventTime l < sample ->
      MinInterval cfg <= now - EventTime l ->
      transition sample now maxStep (Some l) true "PROBLEM" (CurrentStep l + 1)
  | recovery (l : Event) :
      Status l = "PROBLEM" ->
      transition sample now maxStep (Some l) false "OK" 1.

(** The decision table emits exactly on the transitions. *)
Lemma alert_step_transition (last : option Event) (sample now maxStep : Z)
    (isTriggered : bool) (status : string) (step : Z) :
  (forall l, last = Some l -> Status l = "OK" \/ Status l = "PROBLEM") ->
  alert_step last sample isTriggered now maxStep = Emit status step
  <-> transition sample now maxStep last isTriggered status step.
Proof.
  intros Hst. split.
  - unfold alert_step. destruct last as [l|], isTriggered; try done.
    + destruct (Hst l eq_refl) as [Hs|Hs]; rewrite Hs; cbn;
        repeat case_match; intros [= <- <-]; zbool;
        [by apply new_problem | apply next_problem; first [done | lia]].
    + destruct (String.eqb_spec (Status l) "PROBLEM"); intros [= <- <-].
      by apply recovery.
    + destruct (Z.eqb_spec maxStep 0); intros [= <- <-]. by apply first_problem.
  - intros [Hm|l Hs Hm|l Hs Hq Ht Hi|l Hs]; unfold alert_step; rewrite ?Hs; cbn;
      by zcases.
Qed.

(** * The code implements the decision table *)

Lemma status_is_head (c c' : ascii) (s : string) (l : Event) :
  Status l = String c' s -> status_is c l = Ret (Ascii.eqb c' c).
Proof. intros Hs. unfold status_is. by rewrite Hs, str_at_0. Qed.

(** A last event without status stops the program. *)
Lemma status_is_empty (c : ascii) (l : Event) :
  Status l = "" -> status_is c l = Panic IndexOutOfRange.
Proof. intros Hs. unfold status_is. by rewrite Hs. Qed.

(** On times of day and steps below the quota the 64-bit arithmetic of
    the code is exact. *)
Lemma elapsed_exact (now : Z) (l : Event) :
  0 <= now <= max_int64 -> 0 <= EventTime l <= max_int64 ->
  wrap64 (now - EventTime l) = now - EventTime l.
Proof.
  unfold max_int64. intros Hnow Ht. apply wrap64_id, in_int64_spec. lia.
Qed.

Lemma next_step_exact (maxStep : Z) (l : Event) :
  in_int64 maxStep = true -> 1 <= CurrentStep l < maxStep ->
  wrap64 (CurrentStep l + 1) = CurrentStep l + 1.
Proof.
  intros Hmax%in_int64_spec Hl. apply wrap64_id, in_int64_spec. lia.
Qed.

Section Judgement.
Context (historyData : list RRDData) (oldest : RRDData).
Context (now maxStep : Z) (event : Event) (w : world).
Context (Hlast : last historyData = Some oldest).
Context (Hw : world_ok w).
Context (Hmax : in_int64 maxStep = true) (Hnow : 0 <= now <= max_int64).

(** On a well-formed store and a history that is not empty the code
    decides as the decision table does. *)
Lemma sendEventIfNeed_decides (isTriggered : bool) :
  sendEventIfNeed historyData isTriggered now event maxStep w
  = match alert_step (kv_get (LastEvents w) (Id event)) (Timestamp oldest)
            isTriggered now maxStep with
    | Suppress => Ret w
    | Emit status step => sendEvent (set_CurrentStep step (set_Status status event)) w
    end.
Proof.
  unfold sendEventIfNeed, alert_step. rewrite slice_get_last, Hlast.
  destruct (kv_get _ _) as [l|] eqn:Hl; [|destruct isTriggered; cbn; by zcases].
  destruct (Hw _ _ Hl) as [_ [Hs|Hs] Hstep Htime];
    rewrite ?(status_is_head _ _ _ _ Hs), Hs; destruct isTriggered; cbn; try done;
    [by zcases|].
  rewrite Z.geb_leb, elapsed_exact by done.
  destruct (Z.leb_spec maxStep (CurrentStep l)); [done|].
  rewrite (next_step_exact maxStep) by first [done | lia]. by zcases.
Qed.

(** C1. On a well-formed store and a history that is not empty,
    [sendEventIfNeed] carries out the verdict of the decision table on
    the last event of the alert and the timestamp of the last sample of
    the history. *)
Theorem sendEventIfNeed_refines (isTriggered : bool) :
  sendEventIfNeed historyData isTriggered now event maxStep w
  = enact (alert_step (kv_get (LastEvents w) (Id event)) (Timestamp oldest)
             isTriggered now maxStep) event w.
Proof. rewrite sendEventIfNeed_decides. by destruct (alert_step _ _ _ _ _). Qed.

(** Every result is the world itself or the world after [sendEvent] on
    a transition of the alert. *)
Lemma sendEventIfNeed_cases (isTriggered : bool) :
  sendEventIfNeed historyData isTriggered now event maxStep w = Ret w
  \/ exists status step,
       transition (Timestamp oldest) now maxStep (kv_get (LastEvents w) (Id event))
         isTriggered status step
       /\ sendEventIfNeed historyData isTriggered now event maxStep w
          = sendEvent (set_CurrentStep step (set_Status status event)) w.
Proof.
  rewrite sendEventIfNeed_decides.
  destruct (alert_step _ _ _ _ _) as [|status step] eqn:Hv; [by left|right].
  exists status, step. split; [|done].
  eapply alert_step_transition; [|done]. intros l Hl. by destruct (Hw _ _ Hl).
Qed.

(** An event that the judgement pushes on the queue comes from a
    transition of the alert, and is the last event of the alert in the
    store. *)
Lemma sendEventIfNeed_pushes (isTriggered : bool) (w' : world) (e : Event) :
  sendEventIfNeed historyData isTriggered now event maxStep w = Ret w' ->
  pushes w w' e ->
  transition (Timestamp oldest) now maxStep (kv_get (LastEvents w) (Id event))
    isTriggered (Status e) (CurrentStep e)
  /\ Id e = Id event
  /\ kv_get (LastEvents w') (Id event) = Some e.
Proof.
  intros Hret Hpush.
  destruct (sendEventIfNeed_cases isTriggered) as [Hsame|(status & step & Htr & Hsend)].
  - rewrite Hsame in Hret. injection Hret as <-. by destruct (push_not_same w e).
  - rewrite Hsend in Hret. pose proof (sendEvent_store _ _ _ _ _ Hret) as Hstore.
    destruct (sendEvent_Redis _ _ _ _ _ Hret) as [Hq|[key Hq]].
    + destruct Hpush as [key Hk]. rewrite Hq in Hk.
      destruct (push_not_same w e). by exists key.
    + rewrite (push_inj _ _ _ _ _ Hq Hpush), Hstore. cbn. by rewrite kv_get_set_eq.
Qed.

Lemma transition_status_step (last : option Event) (isTriggered : bool)
    (status : string) (step : Z) :
  (forall l, last = Some l -> 1 <= CurrentStep l) ->
  transition (Timestamp oldest) now maxStep last isTriggered status step ->
  (status = "OK" \/ status = "PROBLEM") /\ 1 <= step <= max_int64.
Proof.
  pose proof (proj1 (in_int64_spec _) Hmax) as Hm'. unfold max_int64.
  intros Hl Htr. destruct Htr as [Hm|l Hs Hm|l Hs Hq Ht Hi|l Hs]; (split; [auto|]);
    try lia.
  specialize (Hl l eq_refl). lia.
Qed.

(** What a judgement does to the world: nothing, or [sendEvent] on a
    well-formed event. *)
Lemma sendEventIfNeed_sends (isTriggered : bool) (w' : world) :
  0 <= EventTime event <= max_int64 ->
  sendEventIfNeed historyData isTriggered now event maxStep w = Ret w' ->
  w' = w \/ exists ev, event_ok (Id ev) ev /\ sendEvent ev w = Ret w'.
Proof.
  intros Ht Hret.
  destruct (sendEventIfNeed_cases isTriggered) as [Hsame|(status & step & Htr & Hsend)].
  - rewrite Hsame in Hret. left. by injection Hret as <-.
  - rewrite Hsend in Hret. right. eexists. split; [|exact Hret].
    apply transition_status_step in Htr as [Hst Hstep]; [by constructor|].
    intros l Hl. by destruct (Hw _ _ Hl) as [_ _ [? _] _].
Qed.

(** A judgement on a well-formed store with an event stamped with a time
    of day leaves a well-formed store. *)
Lemma sendEventIfNeed_keeps_ok (isTriggered : bool) (w' : world) :
  0 <= EventTime event <= max_int64 ->
  sendEventIfNeed historyData isTriggered now event maxStep w = Ret w' ->
  world_ok w'.
Proof.
  intros Ht Hret.
  destruct (sendEventIfNeed_sends _ _ Ht Hret) as [->|(ev & Hev & Hsend)]; [done|].
  by eapply sendEvent_ok.
Qed.

(** A judgement on an event that carries its strategy and the time of
    day returns a well-formed world. *)
Lemma sendEventIfNeed_returns (isTriggered : bool) (s : Strategy) :
  Event_Strategy event = Some s ->
  0 <= EventTime event <= max_int64 ->
  exists w', sendEventIfNeed historyData isTriggered now event maxStep w = Ret w'
             /\ world_ok w'.
Proof.
  intros Hs Ht.
  assert (exists w', sendEventIfNeed historyData isTriggered now event maxStep w = Ret w')
    as [w' Hret]; [|exists w'; split; [done | by eapply sendEventIfNeed_keeps_ok]].
  destruct (sendEventIfNeed_cases isTriggered) as [->|(status & step & _ & ->)];
    [by eexists|].
  by apply (sendEvent_total _ _ _ s).
Qed.

(** A judgement on an event that carries its strategy returns: no
    index or pointer of [sendEventIfNeed] and [sendEvent] is out of
    range on a well-formed store and a history that is not empty. *)
Theorem sendEventIfNeed_no_panic (isTriggered : bool) (s : Strategy) :
  Event_Strategy event = Some s ->
  exists w', sendEventIfNeed historyData isTriggered now event maxStep w = Ret w'.
Proof.
  intros Hs.
  destruct (sendEventIfNeed_cases isTriggered) as [->|(status & step & _ & ->)];
    [by eexists|].
  by apply (sendEvent_total _ _ _ s).
Qed.

(** C14. Minimum interval: a PROBLEM event queued for an alert whose last
    event is a PROBLEM comes at least [MinInterval] seconds after it, on
    a history whose last sample is later than it, and carries the next
    step. *)
Theorem sendEventIfNeed_min_interval (isTriggered : bool) (w' : world) (e l : Event) :
  sendEventIfNeed historyData isTriggered now event maxStep w = Ret w' ->
  pushes w w' e ->
  kv_get (LastEvents w) (Id event) = Some l ->
  Status l = "PROBLEM" -> Status e = "PROBLEM" ->
  MinInterval cfg <= now - EventTime l
  /\ EventTime l < Timestamp oldest
  /\ CurrentStep e = CurrentStep l + 1.
Proof.
  intros Hret Hpush Hl Hsl Hse.
  destruct (sendEventIfNeed_pushes _ _ _ Hret Hpush) as (Htr & _).
  rewrite Hl, Hse in Htr. inversion Htr; simplify_eq; [congruence|done].
Qed.

(** C19. Quota: the step of a PROBLEM event that is queued is at least
    one and at most the [MaxStep] of the strategy. *)
Theorem sendEventIfNeed_quota (isTriggered : bool) (w' : world) (e : Event) :
  0 <= maxStep ->
  sendEventIfNeed historyData isTriggered now event maxStep w = Ret w' ->
  pushes w w' e ->
  Status e = "PROBLEM" ->
  1 <= CurrentStep e <= maxStep.
Proof.
  intros Hq Hret Hpush Hse.
  destruct (sendEventIfNeed_pushes _ _ _ Hret Hpush) as (Htr & _).
  rewrite Hse in Htr. inversion Htr as [Hm|l Hs Hm|l Hs Hlt Ht Hi Hl|]; try lia.
  symmetry in Hl. destruct (Hw _ _ Hl) as [_ _ [? _] _]. lia.
Qed.

(** C20. Recovery: an OK event is queued only on a judgement that is not
    triggered, for an alert whose last event is a PROBLEM, with step
    one. *)
Theorem sendEventIfNeed_recovery (isTriggered : bool) (w' : world) (e : Event) :
  sendEventIfNeed historyData isTriggered now event maxStep w = Ret w' ->
  pushes w w' e ->
  Status e = "OK" ->
  isTriggered = false /\ CurrentStep e = 1
  /\ exists l, kv_get (LastEvents w) (Id event) = Some l /\ Status l = "PROBLEM".
Proof.
  intros Hret Hpush Hse.
  destruct (sendEventIfNeed_pushes _ _ _ Hret Hpush) as (Htr & _).
  rewrite Hse in Htr. inversion Htr as [| | |l Hs Hlast' Htrig Hst Hstep].
  split_and!; [done..|]. by exists l.
Qed.

(** C31. A triggered judgement is dropped when the last sample of the
    history, the oldest one of a history that runs from new to old, is
    not later than the last PROBLEM event, whatever the other samples
    are. *)
Theorem sendEventIfNeed_stale_sample (l : Event) :
  kv_get (LastEvents w) (Id event) = Some l ->
  Status l = "PROBLEM" ->
  Timestamp oldest <= EventTime l ->
  sendEventIfNeed historyData true now event maxStep w = Ret w.
Proof.
  intros Hl Hs Ht. rewrite sendEventIfNeed_decides. unfold alert_step.
  rewrite Hl, Hs. cbn. by zcases.
Qed.

End Judgement.

(** * An alarm lost on the way to the server *)

Section Outage.
Context (historyData historyData' : list RRDData) (oldest' : RRDData).
Context (now now' maxStep : Z) (event event' : Event) (w : world) (rest : list bool).
Context (Hlast' : last historyData' = Some oldest').
Context (Hw : world_ok w) (Hmax : in_int64 maxStep = true).
Context (Hnow : 0 <= now <= max_int64) (Hnow' : 0 <= now' <= max_int64).
Context (Hfresh : kv_get (LastEvents w) (Id event) = None) (Hquota : maxStep <> 0).
Context (Hd : deliverable event = true) (Hout : Outages w = true :: rest).
Context (Htime : EventTime event = now) (Hid : Id event' = Id event).

(** The first alarm of the alert, as the store keeps it. *)
Definition first_alarm : Event := set_CurrentStep 1 (set_Status "PROBLEM" event).

(** The world after a first alarm that did not reach the server. *)
Definition after_outage : world :=
  mkWorld (kv_set (Id event) first_alarm (LastEvents w)) (Redis w) rest.

Lemma sendEventIfNeed_outage :
  sendEventIfNeed historyData true now event maxStep w = Ret after_outage.
Proof.
  unfold sendEventIfNeed. rewrite Hfresh. cbn.
  destruct (Z.eqb_spec maxStep 0); [done|].
  exact (sendEvent_outage Sprintf cfg first_alarm w rest Hd Hout).
Qed.

Lemma after_outage_ok : world_ok after_outage.
Proof.
  intros key e. cbn. apply kv_set_forall; [|done].
  constructor; cbn; [done|by right|done|by rewrite Htime].
Qed.

(** C17. An alarm that is lost is not sent again: the first alarm of an
    alert, sent while the connection is down, is stored and reaches no
    list; the triggered judgements of the alert that come less than
    [MinInterval] later send nothing and leave the world as it is. *)
Theorem sendEventIfNeed_lost_alarm :
  now' - now < MinInterval cfg ->
  sendEventIfNeed historyData true now event maxStep w = Ret after_outage
  /\ Redis after_outage = Redis w
  /\ kv_get (LastEvents after_outage) (Id event) = Some first_alarm
  /\ sendEventIfNeed historyData' true now' event' maxStep after_outage = Ret after_outage.
Proof.
  intros Hsoon. split_and!; [exact sendEventIfNeed_outage|done|apply kv_get_set_eq|].
  rewrite (sendEventIfNeed_decides historyData' oldest') by (done || apply after_outage_ok).
  unfold alert_step. rewrite Hid. cbn [LastEvents after_outage]. rewrite kv_get_set_eq.
  cbn. rewrite Htime. by zcases.
Qed.

End Outage.

(** * The worlds of the judge *)

(** The worlds that judgements make from the empty store and the empty
    lists, whatever becomes of the commands on the connection. *)
Inductive reachable : world -> Prop :=
  | reach_init (outages : list bool) : reachable (mkWorld kv_empty ∅ outages)
  | reach_judge (w w' : world) (historyData : list RRDData) (isTriggered : bool)
      (now maxStep : Z) (event : Event) :
      reachable w ->
      historyData <> [] ->
      in_int64 maxStep = true ->
      0 <= now <= max_int64 ->
      0 <= EventTime event <= max_int64 ->
      sendEventIfNeed historyData isTriggered now event maxStep w = Ret w' ->
      reachable w'.

Lemma last_is_Some {A : Type} (l : list A) : l <> [] -> exists x, last l = Some x.
Proof. intros Hl. destruct (last l) eqn:E; [by eexists|]. by apply last_None in E. Qed.

(** Well-formedness is an invariant of the state machine: in every
    world that judgements make from the empty one, each last event is
    stored under its id with status OK or PROBLEM, a step of at least one
    and a time of day, and so is each event of the queue. *)
Theorem reachable_world_ok (w : world) : reachable w -> world_ok w /\ queue_ok w.
Proof.
  induction 1 as [outages|w w' historyData isTriggered now maxStep event _ [IHw IHq]
                   Hne Hmax Hnow Ht Hret].
  - split; [intros key e; cbn; by rewrite kv_get_empty|].
    intros key q e. cbn. by rewrite lookup_empty.
  - destruct (last_is_Some historyData Hne) as [oldest Hlast].
    destruct (sendEventIfNeed_sends historyData oldest now maxStep event w Hlast IHw
                Hmax Hnow isTriggered w' Ht Hret) as [->|(ev & Hev & Hsend)]; [done|].
    split; [by eapply sendEvent_ok | by eapply sendEvent_queue_ok].
Qed.

(** C35. A last event with an empty status stops the judge: the test of
    the first byte of the status is out of range. *)
Theorem sendEventIfNeed_empty_status (historyData : list RRDData) (isTriggered : bool)
    (now maxStep : Z) (event l : Event) (w : world) :
  kv_get (LastEvents w) (Id event) = Some l ->
  Status l = "" ->
  sendEventIfNeed historyData isTriggered now event maxStep w = Panic IndexOutOfRange.
Proof.
  intros Hl Hs. unfold sendEventIfNeed.
  rewrite Hl, !(status_is_empty _ _ Hs). by destruct isTriggered.
Qed.

(** * The judgements of a worker *)

(** One judgement as a worker makes it: on a history that is not empty,
    at a time of day, of an event that carries the time and its strategy,
    with the quota of that strategy. *)
Inductive judgement (w w' : world) : Prop :=
  | judgement_intro (historyData : list RRDData) (isTriggered : bool) (now : Z)
      (event : Event) (strategy : Strategy) :
      historyData <> [] -> 0 <= now <= max_int64 ->
      in_int64 (MaxStep strategy) = true ->
      Event_Strategy event = Some strategy -> EventTime event = now ->
      sendEventIfNeed historyData isTriggered now event (MaxStep strategy) w = Ret w' ->
      judgement w w'.

(** A PROBLEM event within the quota of its strategy: its step is at
    most [MaxStep], or one when [MaxStep] is less. *)
Definition within_quota (e : Event) : Prop :=
  Status e = "PROBLEM" ->
  exists s, Event_Strategy e = Some s /\ 1 <= CurrentStep e <= Z.max 1 (MaxStep s).

(** The event of a transition is well formed and within its quota. *)
Lemma transition_sent_ok (last : option Event) (oldest : RRDData) (now : Z)
    (strategy : Strategy) (event : Event) (isTriggered : bool) (status : string) (step : Z) :
  0 <= now <= max_int64 -> in_int64 (MaxStep strategy) = true ->
  Event_Strategy event = Some strategy -> EventTime event = now ->
  (forall l, last = Some l -> 1 <= CurrentStep l) ->
  transition (Timestamp oldest) now (MaxStep strategy) last isTriggered status step ->
  event_ok (Id event) (set_CurrentStep step (set_Status status event))
  /\ within_quota (set_CurrentStep step (set_Status status event)).
Proof.
  intros Hnow Hmax Hs Ht Hl Htr. split.
  - eapply transition_status_step in Htr as [Hst Hstep]; [|done..].
    constructor; cbn; try done; lia.
  - intros _. exists strategy. split; [done|]. cbn.
    inversion Htr as [Hm|l Hs' Hm|l Hs' Hq Hts Hi Heq|]; try lia.
    specialize (Hl l (eq_sym Heq)). lia.
Qed.

(** What a judgement of a worker does: nothing, or [sendEvent] on an
    event that is well formed and within its quota. *)
Lemma judgement_sends (w w' : world) :
  world_ok w -> judgement w w' ->
  w' = w
  \/ exists ev, event_ok (Id ev) ev /\ within_quota ev /\ sendEvent ev w = Ret w'.
Proof.
  intros Hw [historyData isTriggered now event strategy Hne Hnow Hmax Hs Ht Hret].
  destruct (last_is_Some historyData Hne) as [oldest Hlast].
  destruct (sendEventIfNeed_cases historyData oldest now (MaxStep strategy) event w Hlast
              Hw Hmax Hnow isTriggered) as [Hsame|(status & step & Htr & Hsend)].
  { rewrite Hsame in Hret. left. by injection Hret as <-. }
  rewrite Hsend in Hret. right. exists (set_CurrentStep step (set_Status status event)).
  assert (forall l, kv_get (LastEvents w) (Id event) = Some l -> 1 <= CurrentStep l) as Hl
    by (intros l Hl; by destruct (Hw _ _ Hl) as [_ _ [? _] _]).
  by destruct (transition_sent_ok _ oldest now strategy event isTriggered status step
                 Hnow Hmax Hs Ht Hl Htr).
Qed.

Lemma judgement_ok (w w' : world) : world_ok w -> judgement w w' -> world_ok w'.
Proof.
  intros Hw Hj. destruct (judgement_sends w w' Hw Hj) as [->|(ev & Hev & _ & Hsend)]; [done|].
  by eapply sendEvent_ok.
Qed.

(** The quota holds on the lists: a judgement of a worker on a
    well-formed store puts no PROBLEM event beyond the quota of its
    strategy on a list. *)
Lemma judgement_quota (w w' : world) :
  world_ok w -> queue_all within_quota w -> judgement w w' -> queue_all within_quota w'.
Proof.
  intros Hw Hq Hj. destruct (judgement_sends w w' Hw Hj) as [->|(ev & _ & Hev & Hsend)]; [done|].
  by eapply sendEvent_queue_all.
Qed.

Lemma judgements_ok (w w' : world) : world_ok w -> rtc judgement w w' -> world_ok w'.
Proof. intros Hw Hj. induction Hj; eauto using judgement_ok. Qed.

(** The quota over a sequence of judgements. *)
Lemma judgements_quota (w w' : world) :
  world_ok w -> queue_all within_quota w -> rtc judgement w w' ->
  queue_all within_quota w'.
Proof. intros Hw Hq Hj. induction Hj; eauto using judgement_ok, judgement_quota. Qed.

Lemma judgement_reachable (w w' : world) : reachable w -> judgement w w' -> reachable w'.
Proof.
  intros Hr [historyData isTriggered now event strategy Hne Hnow Hmax Hs Ht Hret].
  eapply reach_judge; try done. by rewrite Ht.
Qed.

End Alarm.

(** * The scenarios of the specification

    The alert of [Emitter]: [avg(#3) > 10] with [MaxStep = 3], under
    [MinInterval = 300]. *)

(** Three samples one minute apart, the newest at [t]. *)
Definition demo_history (t : Z) : list RRDData :=
  [mkRRDData t (f64_of_int 12); mkRRDData (t - 60) (f64_of_int 11);
   mkRRDData (t - 120) (f64_of_int 10)].

Abbreviation demo_judge := (sendEventIfNeed demo_Sprintf demo_cfg).

(** Scenario 1: no prior event, triggered: PROBLEM, step 1. *)
Example scenario_first_problem :
  demo_judge (demo_history 300) true 300 (demo_event 300) 3 (demo_world None [])
  = Ret (demo_world (Some (demo_sent 300 "PROBLEM" 1)) [demo_sent 300 "PROBLEM" 1]).
Proof. vm_compute. reflexivity. Qed.

(** Scenario 2: one minute later: nothing is sent, the world is kept. *)
Example scenario_suppressed :
  let w := demo_world (Some (demo_sent 300 "PROBLEM" 1)) [demo_sent 300 "PROBLEM" 1] in
  demo_judge (demo_history 360) true 360 (demo_event 360) 3 w = Ret w.
Proof. vm_compute. reflexivity. Qed.

(** Scenario 3: after [MinInterval], on samples later than the last
    event: PROBLEM, step 2. *)
Example scenario_second_problem :
  demo_judge (demo_history 600) true 610 (demo_event 610) 3
    (demo_world (Some (demo_sent 300 "PROBLEM" 1)) [demo_sent 300 "PROBLEM" 1])
  = Ret (demo_world (Some (demo_sent 610 "PROBLEM" 2))
           [demo_sent 610 "PROBLEM" 2; demo_sent 300 "PROBLEM" 1]).
Proof. vm_compute. reflexivity. Qed.

(** Scenario 4: the quota is used up: nothing is sent. *)
Example scenario_quota :
  let w := demo_world (Some (demo_sent 920 "PROBLEM" 3)) [] in
  demo_judge (demo_history 1500) true 1500 (demo_event 1500) 3 w = Ret w.
Proof. vm_compute. reflexivity. Qed.

(** Scenario 5: not triggered after a PROBLEM: OK, step 1. *)
Example scenario_recovery :
  demo_judge (demo_history 1500) false 1500 (demo_event 1500) 3
    (demo_world (Some (demo_sent 920 "PROBLEM" 3)) [])
  = Ret (demo_world (Some (demo_sent 1500 "OK" 1)) [demo_sent 1500 "OK" 1]).
Proof. vm_compute. reflexivity. Qed.

(** The second alarm of scenario 3 is not sent on a history of seven
    samples: its last sample is the one of the first alarm. *)
Example second_problem_long_history :
  let w := demo_world (Some (demo_sent 300 "PROBLEM" 1)) [] in
  demo_judge (demo_history 600 ++ demo_history 420 ++ [mkRRDData 240 (f64_of_int 12)])
    true 610 (demo_event 610) 3 w
  = Ret w.
Proof. vm_compute. reflexivity. Qed.

(** A negative [MaxStep] does not mute the strategy. *)
Example negative_quota_sends :
  demo_judge (demo_history 300) true 300 (demo_event 300) (-1) (demo_world None [])
  = Ret (demo_world (Some (demo_sent 300 "PROBLEM" 1)) [demo_sent 300 "PROBLEM" 1]).
Proof. vm_compute. reflexivity. Qed.

(** * The theorems at the scenarios *)

(** The world of scenario 3 and what the judgement makes of it. *)
Definition demo_after : world (gmap string Event) :=
  demo_world (Some (demo_sent 610 "PROBLEM" 2))
    [demo_sent 610 "PROBLEM" 2; demo_sent 300 "PROBLEM" 1].

Definition demo_recovered : world (gmap string Event) :=
  demo_world (Some (demo_sent 610 "OK" 1)) [demo_sent 610 "OK" 1; demo_sent 300 "PROBLEM" 1].

Lemma demo_oldest :
  last (demo_history 600) = Some (mkRRDData 480 (f64_of_int 10)).
Proof. reflexivity. Qed.

Lemma demo_now : 0 <= 610 <= max_int64.
Proof. done. Qed.

Lemma demo_pushes : pushes demo_before demo_after (demo_sent 610 "PROBLEM" 2).
Proof. exists "event:p1". vm_compute. reflexivity. Qed.

Lemma demo_pushes_OK : pushes demo_before demo_recovered (demo_sent 610 "OK" 1).
Proof. exists "event:p1". vm_compute. reflexivity. Qed.

Lemma sendEventIfNeed_refines_witness :
  demo_judge (demo_history 600) true 610 (demo_event 610) 3 demo_before
  = enact demo_Sprintf demo_cfg
      (alert_step demo_cfg (kv_get (LastEvents demo_before) (Id (demo_event 610)))
         (Timestamp (mkRRDData 480 (f64_of_int 10))) true 610 3)
      (demo_event 610) demo_before.
Proof.
  apply sendEventIfNeed_refines;
    [exact demo_oldest | exact demo_before_ok | reflexivity | exact demo_now].
Defined.

Lemma demo_reachable : reachable (S:=gmap string Event) demo_Sprintf demo_cfg demo_after.
Proof.
  apply (reach_judge demo_Sprintf demo_cfg demo_before demo_after (demo_history 600) true
           610 3 (demo_event 610)); [|done|done|done|done|vm_compute; reflexivity].
  apply (reach_judge demo_Sprintf demo_cfg (mkWorld kv_empty ∅ []) demo_before
           (demo_history 300) true 300 3 (demo_event 300));
    [apply reach_init|done|done|done|done|vm_compute; reflexivity].
Qed.

Lemma reachable_world_ok_witness : world_ok demo_after /\ queue_ok demo_after.
Proof. exact (reachable_world_ok demo_Sprintf demo_cfg demo_after demo_reachable). Defined.

Lemma sendEventIfNeed_no_panic_witness :
  exists w', demo_judge (demo_history 600) true 610 (demo_event 610) 3 demo_before = Ret w'.
Proof.
  apply (sendEventIfNeed_no_panic demo_Sprintf demo_cfg (demo_history 600) _ 610 3
           (demo_event 610) demo_before demo_oldest demo_before_ok eq_refl demo_now true
           demo_strategy).
  reflexivity.
Defined.

Lemma sendEventIfNeed_min_interval_witness :
  MinInterval demo_cfg <= 610 - EventTime (demo_sent 300 "PROBLEM" 1)
  /\ EventTime (demo_sent 300 "PROBLEM" 1) < Timestamp (mkRRDData 480 (f64_of_int 10))
  /\ CurrentStep (demo_sent 610 "PROBLEM" 2) = CurrentStep (demo_sent 300 "PROBLEM" 1) + 1.
Proof.
  apply (sendEventIfNeed_min_interval demo_Sprintf demo_cfg (demo_history 600) _ 610 3
           (demo_event 610) demo_before demo_oldest demo_before_ok eq_refl demo_now true
           demo_after);
    [vm_compute; reflexivity | exact demo_pushes | reflexivity..].
Defined.

Lemma sendEventIfNeed_quota_witness :
  1 <= CurrentStep (demo_sent 610 "PROBLEM" 2) <= 3.
Proof.
  apply (sendEventIfNeed_quota demo_Sprintf demo_cfg (demo_history 600) _ 610 3
           (demo_event 610) demo_before demo_oldest demo_before_ok eq_refl demo_now true
           demo_after);
    [lia | vm_compute; reflexivity | exact demo_pushes | reflexivity].
Defined.

Lemma sendEventIfNeed_recovery_witness :
  false = false /\ CurrentStep (demo_sent 610 "OK" 1) = 1
  /\ exists l, kv_get (LastEvents demo_before) (Id (demo_event 610)) = Some l
               /\ Status l = "PROBLEM".
Proof.
  apply (sendEventIfNeed_recovery demo_Sprintf demo_cfg (demo_history 600) _ 610 3
           (demo_event 610) demo_before demo_oldest demo_before_ok eq_refl demo_now false
           demo_recovered);
    [vm_compute; reflexivity | exact demo_pushes_OK | reflexivity].
Defined.

Lemma sendEventIfNeed_stale_sample_witness :
  demo_judge (demo_history 420) true 610 (demo_event 610) 3 demo_before = Ret demo_before.
Proof.
  apply (sendEventIfNeed_stale_sample demo_Sprintf demo_cfg (demo_history 420)
           (mkRRDData 300 (f64_of_int 10)) 610 3 (demo_event 610) demo_before eq_refl
           demo_before_ok eq_refl demo_now (demo_sent 300 "PROBLEM" 1));
    [reflexivity | reflexivity | vm_compute; discriminate].
Defined.

Lemma sendEventIfNeed_empty_status_witness :
  demo_judge (demo_history 600) true 610 (demo_event 610) 3
    (demo_world (Some (demo_sent 300 "" 1)) [])
  = Panic IndexOutOfRange.
Proof.
  apply (sendEventIfNeed_empty_status demo_Sprintf demo_cfg _ _ _ _ _ (demo_sent 300 "" 1));
    reflexivity.
Defined.

(** The first alarm of the scenarios on a connection that is down, and
    the judgement one minute later. *)
Lemma sendEventIfNeed_lost_alarm_witness :
  let w := mkWorld (S:=gmap string Event) ∅ ∅ [true] in
  demo_judge (demo_history 300) true 300 (demo_event 300) 3 w
  = Ret (after_outage (demo_event 300) w [])
  /\ Redis (after_outage (demo_event 300) w []) = Redis w
  /\ kv_get (LastEvents (after_outage (demo_event 300) w [])) (Id (demo_event 300))
     = Some (first_alarm (demo_event 300))
  /\ demo_judge (demo_history 360) true 360 (demo_event 360) 3
       (after_outage (demo_event 300) w [])
     = Ret (after_outage (demo_event 300) w []).
Proof.
  apply (sendEventIfNeed_lost_alarm demo_Sprintf demo_cfg (demo_history 300) (demo_history 360)
           (mkRRDData 240 (f64_of_int 10)) 300 360 3 (demo_event 300) (demo_event 360)
           (mkWorld ∅ ∅ [true]) []); done.
Defined.
