(* ===== verification/History.v ===== *)
(** * History: the events of an alert over a run

    The runs of the state machine of [Alarm] with the events it emits:
    the events of each alert form a chain of the state machine, and the
    lists of the server hold the emitted events that were delivered. *)

From Stdlib Require Import ZArith Lia String Ascii.
From stdpp Require Import base tactics option list strings gmap relations.
From S2P Require Import Prelude.
From S2P Require Import Float64.
From S2P Require Import GoStrings.
From S2P Require Import Funcs.
From S2P Require Import Store.
From S2P Require Import Emitter.
From S2P Require Import Alarm.

Local Open Scope Z_scope.
Local Open Scope res_scope.

Section History.
Context {S : Type} `{KeyValue string Event S}.
Context (Sprintf : string -> Z -> string) (cfg : AlarmConfig).

Abbreviation world := (Emitter.world S).
Abbreviation sendEvent := (Emitter.sendEvent Sprintf cfg).
Abbreviation sendEventIfNeed := (Alarm.sendEventIfNeed Sprintf cfg).
Abbreviation alert_step := (Alarm.alert_step cfg).
Abbreviation transition := (Alarm.transition cfg).

(** * The history of an alert *)

(** [e2] is emitted after [e1] for the same alert: a first PROBLEM after
    an OK, the next PROBLEM after a PROBLEM and at least [MinInterval]
    later, or an OK after a PROBLEM. *)
Inductive follows (e1 e2 : Event) : Prop :=
  | follows_new :
      Status e1 = "OK" -> Status e2 = "PROBLEM" -> CurrentStep e2 = 1 -> follows e1 e2
  | follows_next :
      Status e1 = "PROBLEM" -> Status e2 = "PROBLEM" ->
      CurrentStep e2 = CurrentStep e1 + 1 ->
      MinInterval cfg <= EventTime e2 - EventTime e1 ->
      follows e1 e2
  | follows_recovery :
      Status e1 = "PROBLEM" -> Status e2 = "OK" -> CurrentStep e2 = 1 -> follows e1 e2.

(** The events of an alert, newest first: the oldest is a PROBLEM of step
    one, and each event follows the one before it. *)
Fixpoint alert_chain (l : list Event) : Prop :=
  match l with
  | [] => True
  | e2 :: l' =>
      match l' with
      | [] => Status e2 = "PROBLEM" /\ CurrentStep e2 = 1
      | e1 :: _ => follows e1 e2 /\ alert_chain l'
      end
  end.

(** The events of a trace that belong to the alert [id]. *)
Definition of_alert (id : string) (tr : list Event) : list Event :=
  filter (fun e => Id e = id) tr.

(** The event a judgement emits, if it emits one. *)
Definition emitted (v : verdict) (event : Event) : list Event :=
  match v with
  | Suppress => []
  | Emit status step => [set_CurrentStep step (set_Status status event)]
  end.

(** The events of a trace that go to the list [key]. *)
Definition for_queue (key : string) (tr : list Event) : list Event :=
  filter (fun e => queue_of Sprintf cfg e = Some key) tr.

(** The runs of the judge from the empty store and the empty lists, on
    a connection that loses the commands [outages] says: a world with the
    events emitted on the way to it, newest first.  Each judgement stamps
    its event with the time at which it is made. *)
Inductive run (outages : list bool) : world -> list Event -> Prop :=
  | run_init : run outages (mkWorld kv_empty ∅ outages) []
  | run_judge (w w' : world) (tr : list Event) (historyData : list RRDData)
      (oldest : RRDData) (isTriggered : bool) (now maxStep : Z) (event : Event) :
      run outages w tr ->
      last historyData = Some oldest ->
      in_int64 maxStep = true ->
      0 <= now <= max_int64 ->
      EventTime event = now ->
      sendEventIfNeed historyData isTriggered now event maxStep w = Ret w' ->
      run outages w' (emitted (alert_step (kv_get (LastEvents w) (Id event))
                                 (Timestamp oldest) isTriggered now maxStep) event ++ tr).

Lemma run_step (outages : list bool) (w w' : world) (tr tr' : list Event)
    (historyData : list RRDData) (oldest : RRDData) (isTriggered : bool)
    (now maxStep : Z) (event : Event) :
  run outages w tr -> last historyData = Some oldest -> in_int64 maxStep = true ->
  0 <= now <= max_int64 -> EventTime event = now ->
  sendEventIfNeed historyData isTriggered now event maxStep w = Ret w' ->
  emitted (alert_step (kv_get (LastEvents w) (Id event)) (Timestamp oldest)
             isTriggered now maxStep) event ++ tr = tr' ->
  run outages w' tr'.
Proof. intros Hrun Hlast Hmax Hnow Ht Hret <-. by eapply run_judge. Qed.

(** What a run keeps true: the store is well formed, the last event of
    each alert is the newest one emitted for it, and the events of each
    alert form a chain. *)
Definition run_ok (w : world) (tr : list Event) : Prop :=
  world_ok w
  /\ forall id, head (of_alert id tr) = kv_get (LastEvents w) id
              /\ alert_chain (of_alert id tr).

Lemma of_alert_cons_eq (id : string) (e : Event) (tr : list Event) :
  Id e = id -> of_alert id (e :: tr) = e :: of_alert id tr.
Proof. intros He. unfold of_alert. by rewrite filter_cons_True. Qed.

Lemma of_alert_cons_ne (id : string) (e : Event) (tr : list Event) :
  Id e <> id -> of_alert id (e :: tr) = of_alert id tr.
Proof. intros Hne. unfold of_alert. by rewrite filter_cons_False. Qed.

(** A transition of the alert extends its chain. *)
Lemma transition_chain (sample now maxStep : Z) (isTriggered : bool) (status : string)
    (step : Z) (event : Event) (l : list Event) :
  transition sample now maxStep (head l) isTriggered status step ->
  EventTime event = now ->
  alert_chain l ->
  alert_chain (set_CurrentStep step (set_Status status event) :: l).
Proof.
  intros Htr Hnow Hl. destruct l as [|e1 l]; inversion Htr; simplify_eq/=; try done;
    (split; [|done]);
    [by apply follows_new | by apply follows_next | by apply follows_recovery].
Qed.

Lemma run_ok_emit (w w' : world) (tr : list Event) (sample now maxStep : Z)
    (isTriggered : bool) (status : string) (step : Z) (event : Event) :
  run_ok w tr ->
  transition sample now maxStep (kv_get (LastEvents w) (Id event)) isTriggered status step ->
  EventTime event = now ->
  world_ok w' ->
  LastEvents w' = kv_set (Id event) (set_CurrentStep step (set_Status status event))
                    (LastEvents w) ->
  run_ok w' (set_CurrentStep step (set_Status status event) :: tr).
Proof.
  intros [Hw Hids] Htr Hnow Hw' Hstore. split; [done|]. intros id.
  destruct (Hids id) as [Hhead Hchain]. rewrite Hstore.
  destruct (decide (Id event = id)) as [<-|Hne].
  - rewrite of_alert_cons_eq, kv_get_set_eq by done. split; [done|].
    eapply transition_chain; [by rewrite Hhead|done..].
  - by rewrite of_alert_cons_ne, kv_get_set_ne.
Qed.

(** The events emitted for an alert form a chain of the state machine:
    the first is a PROBLEM of step one, a PROBLEM after a PROBLEM carries
    the next step and comes at least [MinInterval] later, an OK comes
    only after a PROBLEM, a PROBLEM after an OK starts again at step one;
    and the last event in the store is the newest of the chain. *)
Lemma run_chain (outages : list bool) (w : world) (tr : list Event) :
  run outages w tr -> run_ok w tr.
Proof.
  induction 1 as [|w w' tr historyData oldest isTriggered now maxStep event _ IH
                   Hlast Hmax Hnow Ht Hret].
  - split; [intros key e; cbn; by rewrite kv_get_empty|].
    intros id. cbn. by rewrite kv_get_empty.
  - pose proof IH as [Hw _].
    assert (world_ok w') as Hw'
      by (eapply (sendEventIfNeed_keeps_ok Sprintf cfg historyData oldest); try done; lia).
    rewrite (sendEventIfNeed_decides Sprintf cfg historyData oldest) in Hret by done.
    destruct (alert_step _ _ _ _ _) as [|status step] eqn:Hv; cbn [emitted app].
    + by injection Hret as <-.
    + eapply run_ok_emit; [done| |done|done|exact (sendEvent_store _ _ _ _ _ Hret)].
      eapply alert_step_transition; [|done]. intros l Hl. by destruct (Hw _ _ Hl).
Qed.

(** * Runs by the events they emit *)

(** A property of the runs holds when it holds of the empty world and
    is kept by [sendEvent] on a well-formed store: a judgement that is
    suppressed changes neither the world nor the trace. *)
Lemma run_emit_ind (outages : list bool) (P : world -> list Event -> Prop) :
  P (mkWorld kv_empty ∅ outages) [] ->
  (forall w w' tr ev, world_ok w -> P w tr -> sendEvent ev w = Ret w' -> P w' (ev :: tr)) ->
  forall w tr, run outages w tr -> P w tr.
Proof.
  intros Hinit Hstep w tr Hrun. assert (world_ok w /\ P w tr) as [_ ?]; [|done].
  induction Hrun as [|w w' tr historyData oldest isTriggered now maxStep event _ [Hw IH]
                      Hlast Hmax Hnow Ht Hret].
  { split; [apply world_ok_empty | done]. }
  split; [eapply (sendEventIfNeed_keeps_ok Sprintf cfg historyData oldest); try done; lia|].
  rewrite (sendEventIfNeed_decides Sprintf cfg historyData oldest) in Hret by done.
  destruct (Alarm.alert_step _ _ _ _ _ _) as [|status step]; cbn [emitted app].
  - by injection Hret as <-.
  - by eapply Hstep.
Qed.

Lemma for_queue_cons (key : string) (e : Event) (tr : list Event) :
  for_queue key (e :: tr)
  = if bool_decide (queue_of Sprintf cfg e = Some key) then e :: for_queue key tr
    else for_queue key tr.
Proof. unfold for_queue. rewrite filter_cons. by case_bool_decide; case_decide. Qed.

(** The lists hold emitted events only, in the order of their emission:
    the list of a key is a sublist of the events emitted for that key,
    whatever the connection loses. *)
Lemma run_queue_sublist (outages : list bool) (w : world) (tr : list Event) (key : string) :
  run outages w tr -> sublist (queue w key) (for_queue key tr).
Proof.
  revert w tr. apply run_emit_ind; [rewrite queue_empty; by constructor|].
  intros w w' tr ev _ IH Hsend.
  rewrite (sendEvent_queue Sprintf cfg _ _ _ key Hsend), for_queue_cons.
  destruct (bool_decide _); rewrite ?andb_false_r;
    [destruct (_ && _); by constructor | done].
Qed.

(** The connection uses its outages in order. *)
Lemma run_outages (outages : list bool) (w : world) (tr : list Event) :
  run outages w tr -> exists n, Outages w = drop n outages.
Proof.
  revert w tr. apply run_emit_ind; [by exists 0%nat|].
  intros w w' tr ev _ [n Hn] Hsend. rewrite (sendEvent_Outages _ _ _ _ _ Hsend), Hn.
  destruct (deliverable ev); [exists (n + 1)%nat|by exists n].
  rewrite <- drop_drop. by destruct (drop n outages).
Qed.

(** C16. Delivery: when the connection loses no command, the list of a key
    holds every event emitted for that key that JSON can carry, newest
    first. *)
Theorem run_delivered (outages : list bool) (w : world) (tr : list Event) (key : string) :
  Forall (fun b => b = false) outages ->
  run outages w tr ->
  queue w key = for_queue key (filter (fun e => deliverable e = true) tr).
Proof.
  intros Hup Hrun.
  assert (queue w key = for_queue key (filter (fun e => deliverable e = true) tr)
          /\ Forall (fun b => b = false) (Outages w)) as [? _]; [|done].
  revert w tr Hrun. apply run_emit_ind; [by rewrite queue_empty|].
  intros w w' tr ev _ [IH Ho] Hsend.
  rewrite (sendEvent_queue Sprintf cfg _ _ _ key Hsend), (sendEvent_Outages _ _ _ _ _ Hsend).
  rewrite (lost_working _ Ho), filter_cons.
  destruct (deliverable ev); cbn;
    [rewrite decide_True, for_queue_cons, IH by done|rewrite decide_False, IH by done];
    [by split; [|apply Forall_tail_working] | done].
Qed.

(** A judgement of a worker extends a run. *)
Lemma run_judgement (outages : list bool) (w w' : world) (tr : list Event) :
  run outages w tr -> judgement Sprintf cfg w w' -> exists tr', run outages w' (tr' ++ tr).
Proof.
  intros Hrun [historyData isTriggered now event strategy Hne Hnow Hmax Hs Ht Hret].
  destruct (last_is_Some historyData Hne) as [oldest Hlast].
  eexists. by eapply run_judge.
Qed.

Lemma run_judgements (outages : list bool) (w w' : world) (tr : list Event) :
  run outages w tr -> rtc (judgement Sprintf cfg) w w' ->
  exists tr', run outages w' (tr' ++ tr).
Proof.
  intros Hrun Hj. revert tr Hrun. induction Hj as [w|w w1 w2 Hj _ IH]; intros tr Hrun.
  { by exists []. }
  destruct (run_judgement outages w w1 tr Hrun Hj) as [tr1 Hrun1].
  destruct (IH _ Hrun1) as [tr2 Hrun2]. exists (tr2 ++ tr1). by rewrite <- app_assoc.
Qed.

End History.

Lemma demo_run :
  run demo_Sprintf demo_cfg [] demo_after
    [demo_sent 610 "PROBLEM" 2; demo_sent 300 "PROBLEM" 1].
Proof.
  apply (run_step demo_Sprintf demo_cfg [] demo_before demo_after [demo_sent 300 "PROBLEM" 1] _
           (demo_history 600) (mkRRDData 480 (f64_of_int 10)) true 610 3 (demo_event 610));
    [|done|done|done|done|vm_compute; reflexivity..].
  apply (run_step demo_Sprintf demo_cfg [] (mkWorld kv_empty ∅ []) demo_before [] _
           (demo_history 300) (mkRRDData 180 (f64_of_int 10)) true 300 3 (demo_event 300));
    [apply run_init|done|done|done|done|vm_compute; reflexivity..].
Qed.

(** The chain of the two alarms of the scenarios. *)
Example demo_run_chain :
  run_ok demo_cfg demo_after [demo_sent 610 "PROBLEM" 2; demo_sent 300 "PROBLEM" 1].
Proof. exact (run_chain demo_Sprintf demo_cfg [] demo_after _ demo_run). Qed.

Lemma run_delivered_witness :
  queue demo_after "event:p1"
  = for_queue demo_Sprintf demo_cfg "event:p1"
      (filter (fun e => deliverable e = true)
         [demo_sent 610 "PROBLEM" 2; demo_sent 300 "PROBLEM" 1]).
Proof. apply (run_delivered demo_Sprintf demo_cfg []); [done | exact demo_run]. Defined.

