(* ===== verification/Concurrent.v ===== *)
(** * Concurrent: judgements in flight

    [sendEventIfNeed] and [sendEvent] of [judge/cron/judge.go] as the
    goroutines run them: programs of atomic steps on the shared world,
    the read [g.LastEvents.Get], the write [g.LastEvents.Set] and the
    command [rc.Do("LPUSH", ...)], with the decision of the state
    machine computed between the read and the write.

    Run alone, the programs are the functions of [Alarm] and [Emitter].
    Run together, judgements of different alerts do not disturb one
    another: each decides on the last event its alert had when the
    judgements began ([isolation] of [Atomic]), and on a connection that
    works the pool leaves the world the judgements leave one after the
    other, up to the order of the events on the lists ([pool_serial] of
    [Serial], whose interface [Movers] the three atomic steps satisfy).
    Judgements of the same alert do disturb one another: both can read
    the store before either writes it, and both send a first alarm.  What
    every interleaving keeps, of the same alerts or not, is the shape of
    the stored events and the quota on the lists ([pool_safe_run] of
    [Atomic]). *)

From Stdlib Require Import ZArith Lia String Ascii.
From stdpp Require Import base tactics option list strings gmap relations.
From S2P Require Import Prelude.
From S2P Require Import Atomic.
From S2P Require Import Serial.
From S2P Require Import Float64.
From S2P Require Import GoStrings.
From S2P Require Import Funcs.
From S2P Require Import Store.
From S2P Require Import Emitter.
From S2P Require Import Alarm.
From S2P Require Import History.

Local Open Scope Z_scope.

Section Concurrent.
Context {S : Type} `{KeyValue string Event S}.
Context (Sprintf : string -> Z -> string) (cfg : AlarmConfig).

Abbreviation world := (Emitter.world S).

(** A goroutine on the world. *)
Abbreviation task := (prog world unit).

(** * The atomic steps *)

(** [g.LastEvents.Get(key)] *)
Definition LastEvents_Get_step (key : string) : prog world (option Event) :=
  atom (fun w => (kv_get (LastEvents w) key, w)).

(** [g.LastEvents.Set(key, event)] *)
Definition LastEvents_Set_step (key : string) (event : Event) : task :=
  atom (fun w => (tt, LastEvents_Set key event w)).

(** [rc.Do("LPUSH", redisKey, payload)] *)
Definition LPUSH_step (redisKey : string) (payload : Event) : task :=
  atom (fun w => (tt, LPUSH redisKey payload w)).

(** * The two functions, step by step *)

Local Open Scope prog_scope.

Definition sendEvent_steps (event : Event) : task :=
  LastEvents_Set_step (Id event) event ;;
  match json_Marshal event with
  | Ret bs =>
      priority <- lift (Event_Priority event) ;;
      let redisKey := Sprintf (QueuePattern cfg) priority in
      LPUSH_step redisKey bs
  | Err _ => skip
  | Panic p => lift (Panic p)
  end.

(** [sendEventIfNeed] after the read of the last event. *)
Definition sendEventIfNeed_after (lastEvent : option Event) (historyData : list RRDData)
    (isTriggered : bool) (now : Z) (event : Event) (maxStep : Z) : task :=
  if isTriggered then
    let event := set_Status "PROBLEM" event in
    fresh <- lift (match lastEvent with
                   | None => Ret true
                   | Some last => status_is "O" last
                   end) ;;
    if fresh : bool then
      let event := set_CurrentStep 1 event in
      if maxStep =? 0 then skip
      else sendEvent_steps event
    else
      match lastEvent with
      | None => lift (Panic NilPointerDereference)
      | Some last =>
          if CurrentStep last >=? maxStep then skip else
          oldest <- lift (slice_get historyData (len historyData - 1)) ;;
          if Timestamp oldest <=? EventTime last then skip else
          if wrap64 (now - EventTime last) <? MinInterval cfg then skip else
          let event := set_CurrentStep (wrap64 (CurrentStep last + 1)) event in
          sendEvent_steps event
      end
  else
    match lastEvent with
    | Some last =>
        problem <- lift (status_is "P" last) ;;
        if problem : bool then
          let event := set_CurrentStep 1 (set_Status "OK" event) in
          sendEvent_steps event
        else skip
    | None => skip
    end.

Definition sendEventIfNeed_steps (historyData : list RRDData) (isTriggered : bool)
    (now : Z) (event : Event) (maxStep : Z) : task :=
  lastEvent <- LastEvents_Get_step (Id event) ;;
  sendEventIfNeed_after lastEvent historyData isTriggered now event maxStep.

Local Close Scope prog_scope.

(** The arguments of a judgement. *)
Record call := mkCall {
  call_history : list RRDData;
  call_triggered : bool;
  call_now : Z;
  call_event : Event;
  call_maxStep : Z
}.

Definition call_id (c : call) : string := Id (call_event c).

(** The goroutine and the function of a call. *)
Definition call_steps (c : call) : task :=
  sendEventIfNeed_steps (call_history c) (call_triggered c) (call_now c) (call_event c)
    (call_maxStep c).

Definition call_alone (c : call) (w : world) : res world :=
  sendEventIfNeed Sprintf cfg (call_history c) (call_triggered c) (call_now c)
    (call_event c) (call_maxStep c) w.

(** * Alone, the programs are the functions *)

Lemma sendEvent_steps_exec (event : Event) (w : world) :
  exec_state (sendEvent_steps event) w = sendEvent Sprintf cfg event w.
Proof.
  unfold sendEvent_steps, sendEvent, exec_state. cbn.
  destruct (json_Marshal event) as [bs|e|p]; cbn; try done.
  by destruct (Event_Priority event).
Qed.

#[local] Arguments sendEvent_steps : simpl never.

Lemma sendEventIfNeed_steps_exec (historyData : list RRDData) (isTriggered : bool)
    (now : Z) (event : Event) (maxStep : Z) (w : world) :
  exec_state (sendEventIfNeed_steps historyData isTriggered now event maxStep) w
  = sendEventIfNeed Sprintf cfg historyData isTriggered now event maxStep w.
Proof.
  unfold sendEventIfNeed_steps, sendEventIfNeed_after, sendEventIfNeed, LastEvents_Get_step.
  rewrite exec_state_bind, exec_atom. cbn.
  destruct isTriggered, (kv_get (LastEvents w) (Id event)) as [last|]; cbn;
    rewrite ?exec_state_bind; cbn;
    repeat (first [done | apply sendEvent_steps_exec
                  | match goal with
                    | |- context [status_is ?c ?l] => destruct (status_is c l) as [[|]| |]
                    | |- context [slice_get ?l ?i] => destruct (slice_get l i)
                    | |- context [if ?b then _ else _] => destruct b
                    end; cbn; rewrite ?exec_state_bind; cbn]).
Qed.

Lemma call_steps_exec (c : call) (w : world) : exec_state (call_steps c) w = call_alone c w.
Proof. apply sendEventIfNeed_steps_exec. Qed.

(** A judgement that runs alone is [sendEventIfNeed]: the function of
    [Alarm] is the program of atomic steps with no other goroutine
    between its steps; both return, fail or panic together and leave the
    same world. *)
Theorem call_steps_alone (c : call) (w : world) :
  exec (call_steps c) w = res_map (fun w' => (tt, w')) (call_alone c w).
Proof.
  rewrite <- call_steps_exec. unfold exec_state.
  by destruct (exec (call_steps c) w) as [[[] w']|e|p].
Qed.

(** * The steps of a judgement *)

(** The atomic steps of the judgement of an alert: the read and the
    write of the store under the id of the alert, and the commands on
    the connection. *)
Inductive judge_atom (key : string) : forall X : Type, (world -> X * world) -> Prop :=
  | atom_Get :
      judge_atom key (option Event) (fun w => (kv_get (LastEvents w) key, w))
  | atom_Set (event : Event) :
      judge_atom key unit (fun w => (tt, LastEvents_Set key event w))
  | atom_LPUSH (redisKey : string) (payload : Event) :
      judge_atom key unit (fun w => (tt, LPUSH redisKey payload w)).

Lemma sendEvent_steps_made (event : Event) :
  made_of (judge_atom (Id event)) (sendEvent_steps event).
Proof.
  unfold sendEvent_steps. cbn. split; [apply atom_Set|]. intros _.
  destruct (json_Marshal event) as [bs|e|p]; cbn; try done.
  destruct (Event_Priority event); cbn; try done. split; [apply atom_LPUSH | done].
Qed.

Lemma call_steps_made (c : call) : made_of (judge_atom (call_id c)) (call_steps c).
Proof.
  unfold call_steps, sendEventIfNeed_steps. cbn. split; [apply atom_Get|].
  intros lastEvent. unfold sendEventIfNeed_after.
  pose proof (fun status step =>
    sendEvent_steps_made (set_CurrentStep step (set_Status status (call_event c))))
    as Hsend.
  destruct (call_triggered c), lastEvent as [last|]; cbn;
    repeat (first [done | apply Hsend
                  | match goal with
                    | |- context [status_is ?ch ?l] => destruct (status_is ch l) as [[|]| |]
                    | |- context [slice_get ?l ?i] => destruct (slice_get l i)
                    | |- context [if ?b then _ else _] => destruct b
                    end; cbn]).
Qed.

Lemma calls_keyed (calls : list call) :
  keyed judge_atom (call_id <$> calls) (call_steps <$> calls).
Proof. induction calls; constructor; [apply call_steps_made | done]. Qed.

(** * Judgements of different alerts: isolation *)

(** What a goroutine sees of the world under a key: the last event of
    the alert. *)
Definition last_event (w : world) (key : string) : option Event :=
  kv_get (LastEvents w) key.

(** The steps of a judgement read and write the store under the id of
    the alert only. *)
Lemma judge_atom_local (key : string) (X : Type) (act : world -> X * world) :
  judge_atom key X act -> local last_event key act.
Proof.
  destruct 1; split; unfold last_event; cbn; try done.
  - intros w u _. by rewrite !kv_get_set_eq.
  - intros w key' Hne. by rewrite kv_get_set_ne.
Qed.

Lemma call_steps_confined (c : call) : confined last_event (call_id c) (call_steps c).
Proof. eapply made_of_mono; [apply judge_atom_local | apply call_steps_made]. Qed.

(** C7. Isolation of the alerts: in a pool of judgements of different
    alerts, a judgement that has ended has ended as it does alone from
    the first world, with the same value, error or panic, and the last
    event of its alert is the one it leaves alone, whatever the other
    judgements did in between. *)
Theorem judgements_isolated (calls : list call) (w0 w : world) (threads : list task)
    (i : nat) (c : call) (r : res unit) :
  NoDup (call_id <$> calls) ->
  rtc pstep (w0, call_steps <$> calls) (w, threads) ->
  calls !! i = Some c -> threads !! i = Some (Done r) ->
  exists u, call_alone c w0 = res_map (fun _ => u) r
            /\ kv_get (LastEvents w) (call_id c) = kv_get (LastEvents u) (call_id c).
Proof.
  intros Hids Hrun Hc Ht.
  assert (forall j key t0, (call_id <$> calls) !! j = Some key ->
            (call_steps <$> calls) !! j = Some t0 -> confined last_event key t0) as Hconf.
  { intros j key t0 Hk Ht0. rewrite list_lookup_fmap in Hk. rewrite list_lookup_fmap in Ht0.
    destruct (calls !! j) as [cj|]; simplify_eq/=. apply call_steps_confined. }
  destruct (isolation_done last_event (call_id <$> calls) (call_steps <$> calls) w0 Hids
              ltac:(by rewrite !length_fmap) Hconf w threads i (call_id c) (call_steps c) r
              Hrun ltac:(by rewrite list_lookup_fmap, Hc)
              ltac:(by rewrite list_lookup_fmap, Hc) Ht) as (u & Hexec & Hv).
  exists u. split; [|done]. rewrite <- call_steps_exec. unfold exec_state.
  rewrite Hexec. by destruct r.
Qed.

(** * Judgements of different alerts: serializability *)

(** A connection that loses no command. *)
Definition working (w : world) : Prop := Forall (fun b => b = false) (Outages w).

(** Worlds that are the same but for the order of the events on the
    lists: the store holds the same last events, each list the same
    events, and the connection has the same commands to lose. *)
Definition world_equiv (w1 w2 : world) : Prop :=
  (forall id, kv_get (LastEvents w1) id = kv_get (LastEvents w2) id)
  /\ (forall key, queue w1 key ≡ₚ queue w2 key)
  /\ Outages w1 = Outages w2.

(** The judgements of a list one after the other, each to its end. *)
Fixpoint judge_all (calls : list call) (w : world) : res world :=
  match calls with
  | [] => Ret w
  | c :: calls => (w' <- call_alone c w ;; judge_all calls w')%res
  end.

#[export] Instance world_equiv_equivalence : Equivalence world_equiv.
Proof.
  split.
  - by intros w.
  - intros w1 w2 (Hs & Hq & Ho). by split_and!; intros; symmetry.
  - intros w1 w2 w3 (Hs & Hq & Ho) (Hs' & Hq' & Ho').
    split_and!; intros; etrans; eauto.
Qed.

#[export] Instance lost_proper : Proper (world_equiv ==> eq) (lost (S:=S)).
Proof. intros w1 w2 (_ & _ & Ho). unfold lost. by rewrite Ho. Qed.

#[export] Instance queue_proper : Proper (world_equiv ==> eq ==> (≡ₚ)) (queue (S:=S)).
Proof. by intros w1 w2 (_ & Hq & _) key _ <-. Qed.

#[export] Instance LastEvents_Set_proper (id : string) (ev : Event) :
  Proper (world_equiv ==> world_equiv) (LastEvents_Set id ev).
Proof.
  intros w1 w2 (Hs & Hq & Ho). split_and!; [|done..]. intros id'. cbn.
  destruct (decide (id = id')) as [<-|Hne];
    [by rewrite !kv_get_set_eq | by rewrite !kv_get_set_ne].
Qed.

#[export] Instance LPUSH_proper (key : string) (ev : Event) :
  Proper (world_equiv ==> world_equiv) (LPUSH key ev).
Proof.
  intros w1 w2 Hw. pose proof Hw as (Hs & Hq & Ho). split_and!; [done| |cbn; by rewrite Ho].
  intros key'. rewrite !queue_LPUSH, Hw. destruct (lost w2); [done|].
  case_decide; by rewrite Hq.
Qed.

(** The writes of the store under different ids commute, and so do two
    commands on a connection that works, up to the order of the list. *)
Lemma LastEvents_Set_comm (id1 id2 : string) (ev1 ev2 : Event) (w : world) :
  id1 <> id2 ->
  world_equiv (LastEvents_Set id2 ev2 (LastEvents_Set id1 ev1 w))
    (LastEvents_Set id1 ev1 (LastEvents_Set id2 ev2 w)).
Proof.
  intros Hne. split_and!; try done. intros key. cbn.
  destruct (decide (id1 = key)) as [->|H1]; destruct (decide (id2 = key)) as [->|H2];
    try done; by rewrite ?kv_get_set_eq, ?kv_get_set_ne, ?kv_get_set_eq by done.
Qed.

Lemma LPUSH_comm (key1 key2 : string) (ev1 ev2 : Event) (w : world) :
  working w ->
  world_equiv (LPUSH key2 ev2 (LPUSH key1 ev1 w)) (LPUSH key1 ev1 (LPUSH key2 ev2 w)).
Proof.
  intros Ho. pose proof (Forall_tail_working _ Ho) as Ho'.
  split_and!; try done. intros key.
  rewrite !queue_LPUSH, !lost_working by done.
  repeat case_decide; try done. apply perm_swap.
Qed.

(** The steps of the judgements are movers: they respect the equivalence
    of worlds, keep the connection working, and commute when they are
    steps of different alerts. *)
#[export] Instance judge_movers : Movers world_equiv working judge_atom.
Proof.
  split; [apply _|..].
  - intros key X act w w' Hact Hw. destruct Hact; cbn; (split; [|by rewrite Hw]);
      [apply Hw | done..].
  - intros key X act w Hact Hw. destruct Hact; cbn; try done.
    by apply Forall_tail_working.
  - intros key key' X Y act act' w Hne Hact Hact' Hw.
    destruct Hact, Hact'; cbn; (split; [by rewrite ?kv_get_set_ne|]); try done.
    + by apply LastEvents_Set_comm.
    + by apply LPUSH_comm.
Qed.

Lemma seq_call_steps (calls : list call) (w : world) :
  seq (call_steps <$> calls) w = judge_all calls w.
Proof.
  revert w. induction calls as [|c calls IH]; intros w; [done|].
  change (seq (call_steps <$> c :: calls) w)
    with (w' <- exec_state (call_steps c) w ;; seq (call_steps <$> calls) w')%res.
  rewrite call_steps_exec. cbn [judge_all].
  destruct (call_alone c w); cbn; [apply IH | done..].
Qed.

(** C8. Serializability of the alerts: on a connection that works, when
    the judgements of a pool of different alerts have all returned,
    whatever the order of their reads, writes and commands was, the
    judgements one after the other return too, and the pool has left the
    last events they leave in the store and the events they leave on each
    list of the server, in another order. *)
Theorem judgements_serializable (calls : list call) (w0 w : world) (threads : list task) :
  NoDup (call_id <$> calls) -> working w0 ->
  rtc pstep (w0, call_steps <$> calls) (w, threads) ->
  Forall (fun t => t = skip) threads ->
  exists w', judge_all calls w0 = Ret w' /\ world_equiv w w'.
Proof.
  intros Hids Hw0 Hrun Hdone. rewrite <- seq_call_steps.
  by apply (pool_serial_done world_equiv working judge_atom (call_id <$> calls)
              (call_steps <$> calls) w0 Hids (calls_keyed calls) Hw0 w threads).
Qed.

(** A judgement that returns alone, as a schedule of a pool. *)
Lemma call_alone_schedule (c : call) (w w' : world) (threads : list task) (i : nat) :
  threads !! i = Some (call_steps c) -> call_alone c w = Ret w' ->
  rtc pstep (w, threads) (w', <[i := skip]> threads).
Proof.
  intros Hi Hc. apply (exec_schedule (call_steps c)); [done|].
  pose proof (call_steps_exec c w) as Hexec. rewrite Hc in Hexec.
  unfold exec_state in Hexec. by destruct (exec _ w) as [[[] u]| |]; simplify_eq/=.
Qed.

(** Judgements of different alerts commute: on a connection that
    works, when two judgements of different alerts return one after the
    other, they return in the other order too, and leave the same last
    events in the store and the same events on every list of the server,
    in another order. *)
Theorem judgements_commute (c1 c2 : call) (w w1 : world) :
  call_id c1 <> call_id c2 -> working w ->
  (u <- call_alone c1 w ;; call_alone c2 u)%res = Ret w1 ->
  exists w2, (u <- call_alone c2 w ;; call_alone c1 u)%res = Ret w2
             /\ world_equiv w1 w2.
Proof.
  intros Hne Hw Hrun. destruct (call_alone c1 w) as [u| |] eqn:H1; try done. cbn in Hrun.
  destruct (pool_serial_done world_equiv working judge_atom (call_id <$> [c2; c1])
              (call_steps <$> [c2; c1]) w) with (s := w1) (threads := [skip; skip] : list task)
    as (w2 & Hseq & Hequiv); try done.
  - by apply NoDup_pair.
  - apply calls_keyed.
  - etrans; [by apply (call_alone_schedule c1 w u [call_steps c2; call_steps c1] 1)|].
    by apply (call_alone_schedule c2 u w1 [call_steps c2; skip] 0).
  - by repeat constructor.
  - exists w2. split; [|done]. rewrite seq_call_steps in Hseq. cbn in Hseq.
    destruct (call_alone c2 w) as [u2| |]; cbn in *; try done.
    by destruct (call_alone c1 u2).
Qed.

(** * Judgements in flight keep the world well formed *)

(** A call as a worker makes it: on a history that is not empty, at a
    time of day, of an event that carries the time and its strategy,
    with the quota of that strategy. *)
Definition worker_call (c : call) : Prop :=
  call_history c <> [] /\ 0 <= call_now c <= max_int64
  /\ EventTime (call_event c) = call_now c
  /\ exists strategy, Event_Strategy (call_event c) = Some strategy
       /\ call_maxStep c = MaxStep strategy /\ in_int64 (MaxStep strategy) = true.

(** The store is well formed and the lists are within the quotas. *)
Definition sound (w : world) : Prop := world_ok w /\ queue_all within_quota w.

(** After the read of a well-formed last event the program decides as
    the decision table does. *)
Lemma sendEventIfNeed_after_decides (lastEvent : option Event) (historyData : list RRDData)
    (oldest : RRDData) (isTriggered : bool) (now : Z) (event : Event) (maxStep : Z) :
  last historyData = Some oldest -> in_int64 maxStep = true -> 0 <= now <= max_int64 ->
  (forall l, lastEvent = Some l -> event_ok (Id event) l) ->
  sendEventIfNeed_after lastEvent historyData isTriggered now event maxStep
  = match alert_step cfg lastEvent (Timestamp oldest) isTriggered now maxStep with
    | Suppress => skip
    | Emit status step => sendEvent_steps (set_CurrentStep step (set_Status status event))
    end.
Proof.
  intros Hlast Hmax Hnow Hok. unfold sendEventIfNeed_after, alert_step.
  rewrite slice_get_last, Hlast.
  destruct lastEvent as [l|]; [|destruct isTriggered; cbn; by zcases].
  destruct (Hok l eq_refl) as [_ [Hs|Hs] Hstep Htime];
    rewrite ?(status_is_head _ _ _ _ Hs), Hs; destruct isTriggered; cbn; try done;
    [by zcases|].
  rewrite Z.geb_leb, elapsed_exact by done.
  destruct (Z.leb_spec maxStep (CurrentStep l)); [done|].
  rewrite (next_step_exact maxStep) by first [done | lia]. by zcases.
Qed.

Lemma sendEvent_steps_safe (ev : Event) :
  event_ok (Id ev) ev -> within_quota ev -> is_Some (Event_Strategy ev) ->
  safe sound (sendEvent_steps ev).
Proof.
  intros Hev Hq [strategy Hs]. unfold sendEvent_steps. cbn. intros w [Hw Hqw].
  split; [split; [by apply LastEvents_Set_ok | done]|].
  destruct (json_Marshal ev) as [bs|e|p] eqn:Hj; cbn; [|done|by apply json_Marshal_no_panic in Hj].
  unfold Event_Priority. rewrite Hs. cbn. intros w' [Hw' Hqw']. split; [|done].
  split; [done|]. apply LPUSH_queue_all; [|done].
  by rewrite (json_Marshal_payload _ _ Hj).
Qed.

Lemma call_steps_safe (c : call) : worker_call c -> safe sound (call_steps c).
Proof.
  intros (Hne & Hnow & Ht & strategy & Hs & Hm & Hmax).
  destruct (last_is_Some _ Hne) as [oldest Hlast].
  unfold call_steps, sendEventIfNeed_steps. cbn. intros w [Hw Hq]. split; [done|].
  assert (forall l, kv_get (LastEvents w) (Id (call_event c)) = Some l
                    -> event_ok (Id (call_event c)) l) as Hok by (intros l Hl; by apply Hw).
  rewrite (sendEventIfNeed_after_decides _ _ oldest), Hm by (done || by rewrite Hm).
  destruct (alert_step _ _ _ _ _ _) as [|status step] eqn:Hv; [done|].
  apply alert_step_transition in Hv; [|intros l Hl; by destruct (Hok l Hl)].
  assert (forall l, kv_get (LastEvents w) (Id (call_event c)) = Some l -> 1 <= CurrentStep l)
    as Hl by (intros l Hl; by destruct (Hok l Hl) as [_ _ [? _] _]).
  destruct (transition_sent_ok cfg _ oldest _ strategy _ _ status step Hnow Hmax Hs Ht Hl Hv)
    as [Hev Hquota].
  by apply sendEvent_steps_safe.
Qed.

(** C12. Judgements in flight, of the same alerts or of different ones:
    whatever the order of their reads, writes and commands is, the last
    events of the store stay well formed, no PROBLEM event beyond the
    quota of its strategy reaches a list, and no judgement panics. *)
Theorem judgements_safe (calls : list call) (w0 w : world) (threads : list task) :
  Forall worker_call calls -> world_ok w0 -> queue_all within_quota w0 ->
  rtc pstep (w0, call_steps <$> calls) (w, threads) ->
  world_ok w /\ queue_all within_quota w /\ forall p, Done (Panic p) ∉ threads.
Proof.
  intros Hcalls Hw Hq Hrun.
  assert (pool_safe sound (w, threads)) as Hsafe.
  { eapply pool_safe_run; [exact Hrun|]. split; [done|].
    apply Forall_fmap. eapply Forall_impl; [exact Hcalls|]. apply call_steps_safe. }
  destruct Hsafe as [[Hw' Hq'] Hthreads]. split_and!; [done..|].
  intros p. by apply (pool_safe_no_panic sound w).
Qed.

(** * Judgements of the same alert *)

Section Race.
Context (historyData1 historyData2 : list RRDData) (now1 now2 maxStep : Z).
Context (event1 event2 : Event) (w : world) (key : string).
Context (Hid : Id event1 = Id event2).
Context (Hfresh : kv_get (LastEvents w) (Id event1) = None) (Hquota : maxStep <> 0).
Context (Hd1 : deliverable event1 = true) (Hd2 : deliverable event2 = true).
Context (Hk1 : queue_of Sprintf cfg event1 = Some key).
Context (Hk2 : queue_of Sprintf cfg event2 = Some key).
Context (Hup : Forall (fun b => b = false) (Outages w)).

Lemma sendEventIfNeed_after_fresh (historyData : list RRDData) (now : Z) (event : Event) :
  sendEventIfNeed_after None historyData true now event maxStep
  = sendEvent_steps (first_alarm event).
Proof. unfold sendEventIfNeed_after. cbn. by destruct (Z.eqb_spec maxStep 0). Qed.

(** The read of a judgement in a pool. *)
Lemma pstep_read (threads : list task) (i : nat) (historyData : list RRDData)
    (isTriggered : bool) (now : Z) (event : Event) (u : world) :
  threads !! i = Some (sendEventIfNeed_steps historyData isTriggered now event maxStep) ->
  pstep (u, threads)
    (u, <[i := sendEventIfNeed_after (kv_get (LastEvents u) (Id event)) historyData
                 isTriggered now event maxStep]> threads).
Proof. intros Hi. exact (pstep_atom u threads i _ _ _ Hi). Qed.

(** A first alarm sent by a goroutine of a pool, on a connection that
    works. *)
Lemma first_alarm_schedule (threads : list task) (i : nat) (event : Event) (u : world) :
  threads !! i = Some (sendEvent_steps (first_alarm event)) ->
  deliverable event = true -> queue_of Sprintf cfg event = Some key ->
  Forall (fun b => b = false) (Outages u) ->
  exists u', rtc pstep (u, threads) (u', <[i := skip]> threads)
    /\ queue u' key = first_alarm event :: queue u key
    /\ Forall (fun b => b = false) (Outages u').
Proof.
  intros Hi Hd Hk Ho.
  destruct (sendEvent_deliverable Sprintf cfg (first_alarm event) u Hd)
    as (u' & Hsend & _ & Hout & Hq).
  exists u'. split_and!.
  - apply (exec_schedule (sendEvent_steps (first_alarm event))); [done|].
    pose proof (sendEvent_steps_exec (first_alarm event) u) as Hexec.
    rewrite Hsend in Hexec. unfold exec_state in Hexec.
    by destruct (exec _ u) as [[[] u1]| |]; simplify_eq/=.
  - rewrite Hq, (lost_working _ Ho). by rewrite decide_True.
  - rewrite Hout. by apply Forall_tail_working.
Qed.

(** C13. Two judgements of one alert in flight: when both read the store
    before either writes it, both find no last event and both send a
    first alarm; the list of the alert then holds two PROBLEM events of
    step one, which no chain of the state machine has. *)
Theorem first_alarm_twice :
  exists w',
    rtc pstep
      (w, [sendEventIfNeed_steps historyData1 true now1 event1 maxStep;
           sendEventIfNeed_steps historyData2 true now2 event2 maxStep])
      (w', [skip; skip])
    /\ queue w' key = first_alarm event2 :: first_alarm event1 :: queue w key
    /\ ~ alert_chain cfg [first_alarm event2; first_alarm event1].
Proof.
  destruct (first_alarm_schedule
              [sendEvent_steps (first_alarm event1); sendEvent_steps (first_alarm event2)]
              0 event1 w) as (w1 & Hrun1 & Hq1 & Ho1); try done.
  destruct (first_alarm_schedule [skip; sendEvent_steps (first_alarm event2)]
              1 event2 w1) as (w2 & Hrun2 & Hq2 & Ho2); try done.
  exists w2. split_and!.
  - eapply rtc_l; [by apply (pstep_read _ 0 historyData1 true now1 event1 w)|].
    eapply rtc_l; [by apply (pstep_read _ 1 historyData2 true now2 event2 w)|].
    rewrite <- Hid, Hfresh, !sendEventIfNeed_after_fresh. cbn [insert list_insert].
    by etrans.
  - by rewrite Hq2, Hq1.
  - intros [Hf _]. destruct Hf as [Hs|_ _ Hstep _|_ Hs]; cbn in *; try done.
Qed.

End Race.

End Concurrent.

(** * Two judgements in flight *)

(** The first alarm of the scenarios, and one of another alert. *)
Definition demo_call : call := mkCall (demo_history 300) true 300 (demo_event 300) 3.

Definition demo_other : call :=
  mkCall (demo_history 300) true 301
    (mkEvent "s_8_k" (Some demo_strategy) "" "host" (f64_of_int 12) 0 301 ∅) 3.

Abbreviation demo_steps := (call_steps demo_Sprintf demo_cfg (S:=gmap string Event)).

(** The world after the second judgement, and after both. *)
Definition demo_one : world (gmap string Event) :=
  mkWorld {[ "s_8_k" := first_alarm (call_event demo_other) ]}
    {[ "event:p1" := [first_alarm (call_event demo_other)] ]} [].

Definition demo_both : world (gmap string Event) :=
  mkWorld {[ "s_7_k" := demo_sent 300 "PROBLEM" 1;
             "s_8_k" := first_alarm (call_event demo_other) ]}
    {[ "event:p1" := [demo_sent 300 "PROBLEM" 1; first_alarm (call_event demo_other)] ]} [].

(** The second judgement runs from its read to its end, then the first. *)
Lemma demo_pool :
  rtc pstep (demo_world None [], [demo_steps demo_call; demo_steps demo_other])
    (demo_both, [skip; skip]).
Proof.
  etrans.
  - apply (exec_schedule (demo_steps demo_other) (demo_world None []) demo_one
             [demo_steps demo_call; demo_steps demo_other] 1); [done|].
    vm_compute. reflexivity.
  - apply (exec_schedule (demo_steps demo_call) demo_one demo_both
             [demo_steps demo_call; skip] 0); [done|].
    vm_compute. reflexivity.
Qed.

Lemma judgements_isolated_witness :
  exists u,
    call_alone demo_Sprintf demo_cfg demo_call (demo_world None []) = res_map (fun _ => u) (Ret tt)
    /\ kv_get (LastEvents demo_both) (call_id demo_call)
       = kv_get (LastEvents u) (call_id demo_call).
Proof.
  apply (judgements_isolated demo_Sprintf demo_cfg [demo_call; demo_other] _ _ [skip; skip] 0);
    [by apply NoDup_pair | exact demo_pool | done..].
Defined.

(** The pool of the two judgements, the second first, against the two
    judgements in the order of the pool. *)
Lemma judgements_serializable_witness :
  exists w',
    judge_all demo_Sprintf demo_cfg [demo_call; demo_other] (demo_world None []) = Ret w'
    /\ world_equiv demo_both w'.
Proof.
  apply (judgements_serializable demo_Sprintf demo_cfg [demo_call; demo_other]
           (demo_world None []) demo_both [skip; skip]);
    [by apply NoDup_pair | constructor | exact demo_pool | by repeat constructor].
Defined.

(** The two judgements of the pool in the other order: the same last
    events, the same list with its two events swapped. *)
Lemma judgements_commute_witness :
  exists w2,
    (u <- call_alone demo_Sprintf demo_cfg demo_call (demo_world None []) ;;
     call_alone demo_Sprintf demo_cfg demo_other u)%res = Ret w2
    /\ world_equiv demo_both w2.
Proof.
  apply (judgements_commute demo_Sprintf demo_cfg demo_other demo_call (demo_world None []));
    [done | constructor | vm_compute; reflexivity].
Defined.

(** Two judgements of the alert of the scenarios, a second apart, on
    the empty world: both alarms of step one are on the list. *)
Lemma first_alarm_twice_witness :
  exists w' : world (gmap string Event),
    rtc pstep
      (demo_world None [],
       [sendEventIfNeed_steps demo_Sprintf demo_cfg (demo_history 300) true 300
          (demo_event 300) 3;
        sendEventIfNeed_steps demo_Sprintf demo_cfg (demo_history 300) true 301
          (demo_event 301) 3])
      (w', [skip; skip])
    /\ queue w' "event:p1"
       = first_alarm (demo_event 301) :: first_alarm (demo_event 300)
           :: queue (demo_world None []) "event:p1"
    /\ ~ alert_chain demo_cfg [first_alarm (demo_event 301); first_alarm (demo_event 300)].
Proof. by apply (first_alarm_twice demo_Sprintf demo_cfg). Defined.

(** The race, step by step: the two reads, then the writes of the first
    judgement, then those of the second. *)
Definition demo_twice : world (gmap string Event) :=
  mkWorld {[ "s_7_k" := demo_sent 301 "PROBLEM" 1 ]}
    {[ "event:p1" := [demo_sent 301 "PROBLEM" 1; demo_sent 300 "PROBLEM" 1] ]} [].

Definition demo_again : call := mkCall (demo_history 300) true 301 (demo_event 301) 3.

Lemma demo_race :
  rtc pstep (demo_world None [], [demo_steps demo_call; demo_steps demo_again])
    (demo_twice, [skip; skip]).
Proof.
  eapply rtc_l; [by apply (pstep_read demo_Sprintf demo_cfg 3 _ 0 (demo_history 300) true 300
                             (demo_event 300))|].
  eapply rtc_l; [by apply (pstep_read demo_Sprintf demo_cfg 3 _ 1 (demo_history 300) true 301
                             (demo_event 301))|].
  cbn [insert list_insert].
  set (t1 := sendEventIfNeed_after _ _ _ _ _ 300 _ _).
  set (t2 := sendEventIfNeed_after _ _ _ _ _ 301 _ _).
  etrans.
  - apply (exec_schedule t1 _ (demo_world (Some (demo_sent 300 "PROBLEM" 1))
                                 [demo_sent 300 "PROBLEM" 1]) [t1; t2] 0); [done|].
    vm_compute. reflexivity.
  - apply (exec_schedule t2 _ demo_twice [skip; t2] 1); [done|]. vm_compute. reflexivity.
Qed.

Lemma judgements_safe_witness :
  world_ok demo_twice /\ queue_all within_quota demo_twice
  /\ forall p, Done (Panic p) ∉ ([skip; skip] : list (prog (world (gmap string Event)) unit)).
Proof.
  apply (judgements_safe demo_Sprintf demo_cfg [demo_call; demo_again] (demo_world None []));
    [|exact (world_ok_empty [] ∅)|exact (queue_all_empty _ ∅ [])|exact demo_race].
  repeat constructor; try done; by exists demo_strategy.
Defined.

(** Alone, the second judgement is suppressed: the alert has one alarm. *)
Example first_alarm_once :
  (w <- call_alone demo_Sprintf demo_cfg demo_call (demo_world None []) ;;
   sendEventIfNeed demo_Sprintf demo_cfg (demo_history 300) true 301 (demo_event 301) 3 w)%res
  = Ret (demo_world (Some (demo_sent 300 "PROBLEM" 1)) [demo_sent 300 "PROBLEM" 1]).
Proof. vm_compute. reflexivity. Qed.
