(* ===== verification/Rpc.v ===== *)
(** * Rpc: the query client

    [GenQParam] and [queryHistoryData] of [judge/cron/judge.go] and the
    method [GraphRpc.QueryOne] of [api/rpc/graph.go] that answers the
    call.  The graph backend and the transport are inputs of the model:
    [grh_QueryOne] is the answer of the backend to a query, a response or
    [nil] with an error; [Call] is what the transport makes of a request.
    The sequence of the queries sent is kept, so that the theorems on the
    worker can speak of them. *)

From Stdlib Require Import ZArith Lia String.
From stdpp Require Import base tactics option list strings.
From S2P Require Import Prelude.
From S2P Require Import Float64.
From S2P Require Import Funcs.

Local Open Scope Z_scope.
Local Open Scope res_scope.

(** [cmodel.GraphQueryParam] *)
Record GraphQueryParam := mkGraphQueryParam {
  Start : Z;
  End_ : Z;
  ConsolFun : string;
  Endpoint : string;
  Counter : string;
  Step : Z
}.

(** [cmodel.GraphQueryResponse] *)
Record GraphQueryResponse := mkGraphQueryResponse {
  resp_Endpoint : string;
  resp_Counter : string;
  DsType : string;
  resp_Step : Z;
  Values : list RRDData
}.

(** [&cmodel.GraphQueryResponse{}] *)
Definition empty_response : GraphQueryResponse := mkGraphQueryResponse "" "" "" 0 [].

Definition GenQParam (endpoint counter consolFun : string) (stime etime : Z) (step : Z)
    : GraphQueryParam :=
  mkGraphQueryParam stime etime consolFun endpoint counter step.

(** [queryParam.End = etime] *)
Definition set_End (etime : Z) (q : GraphQueryParam) : GraphQueryParam :=
  mkGraphQueryParam (Start q) etime (ConsolFun q) (Endpoint q) (Counter q) (Step q).

(** What a call does to the response it is given, and its error. *)
Definition transport : Type :=
  GraphQueryParam -> GraphQueryResponse -> GraphQueryResponse * option error.

Section Server.
(** [grh.QueryOne]: the answer of the graph backend. *)
Context (grh_QueryOne : GraphQueryParam -> option GraphQueryResponse * option error).

(** [func (grprpc *GraphRpc) QueryOne(para, resp) error] *)
Definition GraphRpc_QueryOne : transport := fun para resp =>
  let '(r, _) := grh_QueryOne para in
  match r with
  | Some r =>
      (mkGraphQueryResponse (resp_Endpoint r) (resp_Counter r) (DsType r) (resp_Step r)
         (Values r), None)
  | None => (resp, None)
  end.

(** The method never reports an error, whatever the backend says. *)
Lemma GraphRpc_QueryOne_no_error (para : GraphQueryParam) (resp : GraphQueryResponse) :
  (GraphRpc_QueryOne para resp).2 = None.
Proof. unfold GraphRpc_QueryOne. by destruct (grh_QueryOne para) as [[r|] e]. Qed.

(** C38. The answer of [QueryOne] is the response of the backend when
    there is one; when the backend fails the caller keeps the response it
    sent, and no error is reported in either case. *)
Theorem GraphRpc_QueryOne_spec (para : GraphQueryParam) (resp : GraphQueryResponse) :
  GraphRpc_QueryOne para resp
  = (from_option id resp (grh_QueryOne para).1, None).
Proof.
  unfold GraphRpc_QueryOne. destruct (grh_QueryOne para) as [[r|] e]; [|done].
  by destruct r.
Qed.

End Server.

Section Client.
Context (Call : transport).

(** [queryHistoryData]: the call fills the response; its error is
    dropped.  The second component is the sequence of queries sent. *)
Definition queryHistoryData (queryParam : GraphQueryParam) (resp : GraphQueryResponse)
    (sent : list GraphQueryParam) : GraphQueryResponse * list GraphQueryParam :=
  let '(resp, err) := Call queryParam resp in
  (resp, sent ++ [queryParam]).

Lemma queryHistoryData_sent queryParam resp sent :
  (queryHistoryData queryParam resp sent).2 = sent ++ [queryParam].
Proof. unfold queryHistoryData. by destruct (Call queryParam resp). Qed.

Lemma queryHistoryData_resp queryParam resp sent :
  (queryHistoryData queryParam resp sent).1 = (Call queryParam resp).1.
Proof. unfold queryHistoryData. by destruct (Call queryParam resp). Qed.

End Client.

(** A failure of the backend and an empty answer look the same to
    the judge: the history it gets is empty. *)
Theorem queryHistoryData_backend_failure grh (queryParam : GraphQueryParam)
    (sent : list GraphQueryParam) (e : option error) :
  grh queryParam = (None, e) ->
  Values (queryHistoryData (GraphRpc_QueryOne grh) queryParam empty_response sent).1 = [].
Proof.
  intros Hq. rewrite queryHistoryData_resp. unfold GraphRpc_QueryOne. by rewrite Hq.
Qed.

Lemma queryHistoryData_backend_failure_witness :
  Values (queryHistoryData
            (GraphRpc_QueryOne (fun _ => (None, Some (ErrorString "timeout"))))
            (GenQParam "host" "cpu.idle" "AVERAGE" (-1) 240 3) empty_response []).1 = [].
Proof. by apply (queryHistoryData_backend_failure _ _ _ (Some (ErrorString "timeout"))). Defined.
