(* ===== verification/Worker.v ===== *)
(** * Worker: judging the strategies of one series

    [judgeItemWithStrategy] of [judge/cron/judge.go]: for each strategy of
    a key [endpoint/metric], the query of the history, the parse of the
    function, the computation and the state machine.  The state of a
    worker is the variable [etime], which the loop carries from one
    strategy to the next, the world of [Alarm], the queries sent and the
    number of readings of the clock.  The clock, the transport of the
    queries and the functions of [cutils] ([SortedTags], [Md5], [PK]) are
    parameters of the section.

    A [return] in the loop body leaves the function, so it ends the
    judging of the whole group: the body yields [Return]. *)

From Stdlib Require Import ZArith Lia String Ascii.
From stdpp Require Import base tactics option list strings gmap.
From S2P Require Import Prelude.
From S2P Require Import Float64.
From S2P Require Import GoStrings.
From S2P Require Import Funcs.
From S2P Require Import Parse.
From S2P Require Import Store.
From S2P Require Import Rpc.
From S2P Require Import Emitter.
From S2P Require Import Alarm.

Local Open Scope Z_scope.
Local Open Scope res_scope.

Section Worker.
Context {S : Type} `{KeyValue string Event S}.
Context (Sprintf : string -> Z -> string) (cfg : AlarmConfig).
Context (SortedTags : gmap string string -> string).
Context (Md5 : string -> string) (PK : string -> string -> gmap string string -> string).
Context (Call : transport).
Context (clock : nat -> Z).

(** The variables of a worker and the state around it. *)
Record judge_state := mkJudgeState {
  etime : Z;
  World : world S;
  Sent : list GraphQueryParam;
  Reads : nat
}.

Definition set_etime (t : Z) (st : judge_state) : judge_state :=
  mkJudgeState t (World st) (Sent st) (Reads st).

Definition set_World (w : world S) (st : judge_state) : judge_state :=
  mkJudgeState (etime st) w (Sent st) (Reads st).

Definition set_Sent (sent : list GraphQueryParam) (st : judge_state) : judge_state :=
  mkJudgeState (etime st) (World st) sent (Reads st).

(** [time.Now().Unix()] *)
Definition time_Now (st : judge_state) : Z * judge_state :=
  (clock (Reads st), mkJudgeState (etime st) (World st) (Sent st) (Datatypes.S (Reads st))).

(** What the body of the loop does to the function around it. *)
Definition step_result : Type := res (ctl judge_state judge_state).

(** The end of the loop body, from [if !isEnough]: the event and the
    state machine. *)
Definition judge_outcome (strategy : Strategy) (s : list string) (values : list RRDData)
    (out : outcome) (st : judge_state) : step_result :=
  let '(leftValue, isTriggered, isEnough) := out in
  if negb isEnough then Ret (Return st) else
  let '(now, st) := time_Now st in
  s0 <- slice_get s 0 ;;
  s1 <- slice_get s 1 ;;
  let key := Md5 (PK s0 s1 (Tags strategy)) in
  s0 <- slice_get s 0 ;;
  let event := mkEvent ("s_" +:+ strconv_Itoa (Strategy_Id strategy) +:+ "_" +:+ key)
                 (Some strategy) "" s0 leftValue 0 now (Tags strategy) in
  w <- sendEventIfNeed Sprintf cfg values isTriggered now event (MaxStep strategy) (World st) ;;
  Ret (Continue (set_World w st)).

(** The loop body once the history is there: the parse, the second query
    of [c_avg_rate_abs], the computation. *)
Definition judge_values (strategy : Strategy) (s : list string) (args : list Z)
    (queryParam : GraphQueryParam) (resp : GraphQueryResponse) (st : judge_state)
    : step_result :=
  match ParseFuncFromString (Func strategy) (Operator strategy) (RightValue strategy) with
  | Panic p => Panic p
  | Err _ => Ret (Return st)
  | Ret fn =>
      if strings_Contains (Func strategy) "c_avg_rate_abs" then
        if len args <? 2 then Ret (Return st) else
        args1 <- slice_get args 1 ;;
        let st := set_etime (wrap64 (etime st - wrap64 (60 * 60 * 24 * args1))) st in
        let queryParam := set_End (etime st) queryParam in
        let '(resp1, sent) := queryHistoryData Call queryParam empty_response (Sent st) in
        let st := set_Sent sent st in
        out <- (if len (Values resp1) >? 0 then RelativeCompute fn (Values resp) (Values resp1)
                else Ret zero_outcome) ;;
        judge_outcome strategy s (Values resp) out st
      else
        out <- Compute fn (Values resp) ;;
        judge_outcome strategy s (Values resp) out st
  end.

(** The body of the loop over the strategies. *)
Definition judge_strategy (key : string) (strategy : Strategy) (st : judge_state)
    : step_result :=
  let s := strings_Split key "/" in
  if negb (len s =? 2) then Ret (Return st) else
  let tags := SortedTags (Tags strategy) in
  s1 <- slice_get s 1 ;;
  let counter := if String.eqb tags "" then s1
                 else s1 +:+ "/" +:+ SortedTags (Tags strategy) in
  head <- str_slice (Func strategy) 0 (str_len (Func strategy) - 1) ;;
  let sfunc := strings_Split head "#" in
  if len sfunc <? 1 then Ret (Return st) else
  sfunc1 <- slice_get sfunc 1 ;;
  match Atois sfunc1 with
  | Panic p => Panic p
  | Err _ => Ret (Return st)
  | Ret args =>
      if len args <? 1 then Ret (Return st) else
      s0 <- slice_get s 0 ;;
      args0 <- slice_get args 0 ;;
      let queryParam := GenQParam s0 counter "AVERAGE" (-1) (etime st) args0 in
      let '(resp, sent) := queryHistoryData Call queryParam empty_response (Sent st) in
      let st := set_Sent sent st in
      if len (Values resp) >? 0 then judge_values strategy s args queryParam resp st
      else Ret (Continue st)
  end.

Definition judgeItemWithStrategy (key : string) (val : list Strategy) (st : judge_state)
    : res judge_state :=
  let '(now, st) := time_Now st in
  let st := set_etime (wrap64 (now - 60 * 1)) st in
  out <- for_each val (judge_strategy key) st ;;
  Ret (match out with inl st => st | inr st => st end).

(** The state a result of the body carries. *)
Definition ctl_state (c : ctl judge_state judge_state) : judge_state :=
  match c with Continue st | Break st | Return st => st end.

(** * The end of the body *)

Lemma judge_outcome_not_enough strategy s values leftValue isTriggered st :
  judge_outcome strategy s values (leftValue, isTriggered, false) st = Ret (Return st).
Proof. reflexivity. Qed.

(** The end of the body does not touch [etime] and the queries. *)
Lemma judge_outcome_frame strategy s values out st c :
  judge_outcome strategy s values out st = Ret c ->
  etime (ctl_state c) = etime st /\ Sent (ctl_state c) = Sent st.
Proof.
  unfold judge_outcome. destruct out as [[lv trig] [|]]; cbn; [|by intros [= <-]].
  intros Hc. by res_inv.
Qed.

(** The state in which the loop starts: [etime] is one minute before the
    time at which the worker starts. *)
Definition worker_start (st : judge_state) : judge_state :=
  set_etime (wrap64 (clock (Reads st) - 60 * 1)) (time_Now st).2.

Lemma judgeItemWithStrategy_loop (key : string) (val : list Strategy) (st : judge_state) :
  judgeItemWithStrategy key val st
  = (out <- for_each val (judge_strategy key) (worker_start st) ;;
     Ret (match out with inl st => st | inr st => st end)).
Proof. reflexivity. Qed.


(** C24. The second query of [c_avg_rate_abs] moves [etime] back by
    [args[1]] days, and the variable keeps that value when the body
    ends: the strategies after it query from there. *)
Theorem judge_values_shifts_etime (strategy : Strategy) (s : list string)
    (a0 a1 : Z) (more : list Z) (queryParam : GraphQueryParam)
    (resp : GraphQueryResponse) (st : judge_state) (fn : Function)
    (c : ctl judge_state judge_state) :
  ParseFuncFromString (Func strategy) (Operator strategy) (RightValue strategy) = Ret fn ->
  strings_Contains (Func strategy) "c_avg_rate_abs" = true ->
  judge_values strategy s (a0 :: a1 :: more) queryParam resp st = Ret c ->
  etime (ctl_state c) = wrap64 (etime st - wrap64 (60 * 60 * 24 * a1)).
Proof.
  intros Hfn Hc. unfold judge_values. rewrite Hfn, Hc.
  replace (len (a0 :: a1 :: more) <? 2) with false
    by (symmetry; apply Z.ltb_ge; unfold len; simpl; lia).
  change (slice_get (a0 :: a1 :: more) 1) with (Ret (A:=Z) a1). cbn [res_bind].
  destruct (queryHistoryData _ _ _ _) as [resp1 sent]. intros Hr. res_inv.
  by apply judge_outcome_frame in Hr as [-> _].
Qed.

(** C25. The query of a strategy ends at [etime], the variable that the
    loop carries, and starts at [-1]. *)
Theorem judge_strategy_query (key : string) (strategy : Strategy) (st : judge_state)
    (c : ctl judge_state judge_state) :
  judge_strategy key strategy st = Ret c ->
  Sent (ctl_state c) = Sent st
  \/ exists q more, Sent (ctl_state c) = Sent st ++ q :: more
                   /\ End_ q = etime st /\ Start q = -1 /\ ConsolFun q = "AVERAGE".
Proof.
  unfold judge_strategy.
  destruct (negb _); [intros [= <-]; by left|]. intros Hc. res_inv.
  destruct (len _ <? 1); [injection Hc as <-; by left|]. res_inv.
  destruct (Atois _) as [args|e|p]; [|injection Hc as <-; by left|done].
  destruct (len args <? 1); [injection Hc as <-; by left|]. res_inv.
  rewrite (surjective_pairing (queryHistoryData _ _ _ _)), queryHistoryData_sent in Hc.
  right. eexists. destruct (len _ >? 0); [|injection Hc as <-; by exists []].
  revert Hc. unfold judge_values.
  destruct (ParseFuncFromString _ _ _) as [fn|e|p]; [|intros [= <-]; by exists []|done].
  destruct (strings_Contains _ _).
  - destruct (len args <? 2); [intros [= <-]; by exists []|]. intros Hc. res_inv.
    rewrite (surjective_pairing (queryHistoryData _ _ _ _)), queryHistoryData_sent in Hc.
    res_inv. apply judge_outcome_frame in Hc as [_ ->]. cbn.
    eexists [_]. by rewrite <- app_assoc.
  - intros Hc. res_inv. apply judge_outcome_frame in Hc as [_ ->]. by exists [].
Qed.

(** C26. A function text without [#] stops the worker: the text before
    the last byte splits into one piece, and the body reads the second. *)
Theorem judge_strategy_no_hash (key : string) (strategy : Strategy) (st : judge_state) :
  len (strings_Split key "/") = 2 ->
  Func strategy <> "" ->
  has_byte "#" (Func strategy) = false ->
  judge_strategy key strategy st = Panic IndexOutOfRange.
Proof.
  intros Hkey Hne Hfree. unfold judge_strategy.
  destruct (strings_Split key "/") as [|s0 [|s1 [|s2 l]]];
    unfold len in Hkey; simpl in Hkey; try lia.
  change (len [s0; s1] =? 2) with true.
  change (slice_get [s0; s1] 1) with (Ret (A:=string) s1). cbn [res_bind negb].
  destruct (str_slice_init _ Hne) as [head Hhead]. rewrite Hhead. cbn [res_bind].
  by rewrite (strings_Split_free head)
    by exact (str_slice_has_byte _ _ _ _ _ Hfree Hhead).
Qed.

(** * The integers of the worker *)









(** * Strategies the worker can judge *)

(** A strategy whose function text is a printed descriptor, with enough
    arguments for [lookup], and whose function is not [diff] or [pdiff]
    (which read past their guard). *)
Definition strategy_ok (strategy : Strategy) : Prop :=
  in_int64 (MaxStep strategy) = true /\
  exists name args,
    Func strategy = descriptor name args /\ has_byte "#" name = false /\
    args <> [] /\ Forall (fun n => in_int64 n = true) args /\
    name <> "diff" /\ name <> "pdiff" /\ (name = "lookup" -> 2 <= len args).

Section Invariant.
Context (Hclock : forall n, 0 <= clock n <= max_int64).

(** The end of the body changes the world by one judgement, or not at
    all. *)
Lemma judge_outcome_judges strategy s values out st c :
  values <> [] -> in_int64 (MaxStep strategy) = true ->
  judge_outcome strategy s values out st = Ret c ->
  rtc (judgement Sprintf cfg) (World st) (World (ctl_state c)).
Proof.
  intros Hv Hmax. unfold judge_outcome. destruct out as [[lv trig] [|]]; cbn;
    [|by intros [= <-]].
  intros Hc. res_inv. cbn. apply rtc_once.
  eapply (judgement_intro Sprintf cfg _ _ values); [done|apply Hclock|exact Hmax| | |done];
    done.
Qed.

Lemma judge_values_judges strategy s args queryParam resp st c :
  Values resp <> [] -> in_int64 (MaxStep strategy) = true ->
  judge_values strategy s args queryParam resp st = Ret c ->
  rtc (judgement Sprintf cfg) (World st) (World (ctl_state c)).
Proof.
  intros Hv Hmax. unfold judge_values.
  destruct (ParseFuncFromString _ _ _) as [fn|e|p]; [|by intros [= <-]|done].
  destruct (strings_Contains _ _).
  - destruct (len args <? 2); [by intros [= <-]|]. intros Hc. res_inv.
    destruct (queryHistoryData _ _ _ _) as [resp1 sent] eqn:Hq. res_inv.
    by eapply judge_outcome_judges in Hc.
  - intros Hc. res_inv. by eapply judge_outcome_judges in Hc.
Qed.

Lemma judge_strategy_judges key strategy st c :
  in_int64 (MaxStep strategy) = true ->
  judge_strategy key strategy st = Ret c ->
  rtc (judgement Sprintf cfg) (World st) (World (ctl_state c)).
Proof.
  intros Hmax. unfold judge_strategy.
  destruct (negb _); [by intros [= <-]|]. intros Hc. res_inv.
  destruct (len _ <? 1); [by injection Hc as <-|]. res_inv.
  destruct (Atois _) as [args|e|p]; [|by injection Hc as <-|done].
  destruct (len args <? 1); [by injection Hc as <-|]. res_inv.
  destruct (queryHistoryData _ _ _ _) as [resp sent] eqn:Hq.
  destruct (len (Values resp) >? 0) eqn:Hlen; [|by injection Hc as <-].
  eapply judge_values_judges in Hc; [done| |done].
  intros Hnil. by rewrite Hnil in Hlen.
Qed.

Lemma judge_strategy_inv key strategy st c :
  in_int64 (MaxStep strategy) = true -> world_ok (World st) ->
  judge_strategy key strategy st = Ret c ->
  world_ok (World (ctl_state c)).
Proof. intros Hmax Hw Hc. eapply judgements_ok, judge_strategy_judges; done. Qed.

(** A worker changes the world by judgements only: the world it leaves
    is the one it found after a sequence of judgements of the state
    machine, whatever the strategies of its group are and whatever the
    graph answers. *)
Lemma judgeItemWithStrategy_judges (key : string) (val : list Strategy)
    (st st' : judge_state) :
  Forall (fun strategy => in_int64 (MaxStep strategy) = true) val ->
  judgeItemWithStrategy key val st = Ret st' ->
  rtc (judgement Sprintf cfg) (World st) (World st').
Proof.
  intros Hval. unfold judgeItemWithStrategy. cbn. intros Hrun. res_inv.
  match goal with E : for_each _ _ _ = Ret ?out |- _ =>
    eapply (for_each_inv (fun st' => rtc (judgement Sprintf cfg) (World st) (World st'))
              (fun st' => rtc (judgement Sprintf cfg) (World st) (World st')))
      in E; [by destruct out| |done]
  end.
  intros strategy t c Hin Ht Hc. rewrite Forall_forall in Hval.
  pose proof (judge_strategy_judges key strategy t c (Hval _ Hin) Hc) as Hj.
  destruct c; by etrans.
Qed.

(** A worker keeps the last-event store well formed. *)
Lemma judgeItemWithStrategy_keeps_ok (key : string) (val : list Strategy)
    (st st' : judge_state) :
  Forall (fun strategy => in_int64 (MaxStep strategy) = true) val ->
  world_ok (World st) ->
  judgeItemWithStrategy key val st = Ret st' ->
  world_ok (World st').
Proof. intros Hval Hw Hrun. eapply judgements_ok, judgeItemWithStrategy_judges; done. Qed.

(** ** No panic on such strategies *)

Lemma judge_outcome_total strategy (s0 s1 : string) values out st :
  values <> [] -> in_int64 (MaxStep strategy) = true -> world_ok (World st) ->
  exists c, judge_outcome strategy [s0; s1] values out st = Ret c.
Proof.
  intros Hv Hmax Hw. unfold judge_outcome, time_Now.
  destruct out as [[lv trig] [|]]; cbn [negb]; [|by eexists].
  change (slice_get [s0; s1] 1) with (Ret (A:=string) s1).
  change (slice_get [s0; s1] 0) with (Ret (A:=string) s0). cbn [res_bind].
  destruct (last_is_Some values Hv) as [oldest Hlast].
  edestruct (sendEventIfNeed_returns Sprintf cfg values oldest) as (w' & -> & _);
    [done..| |by eexists]; try done. cbn [EventTime]. apply Hclock.
Qed.

Lemma judge_values_total strategy (s0 s1 : string) name args queryParam resp st :
  Func strategy = descriptor name args -> has_byte "#" name = false ->
  args <> [] -> Forall (fun n => in_int64 n = true) args ->
  name <> "diff" -> name <> "pdiff" -> (name = "lookup" -> 2 <= len args) ->
  Values resp <> [] -> in_int64 (MaxStep strategy) = true -> world_ok (World st) ->
  exists c, judge_values strategy [s0; s1] args queryParam resp st = Ret c.
Proof.
  intros Hf Hname Hne Hr Hd Hp Hl Hv Hmax Hw. unfold judge_values.
  rewrite Hf. unfold descriptor at 1. rewrite ParseFuncFromString_text, Atois_Join_Itoa by done.
  cbn [res_bind].
  destruct (new_function_cases name args (Operator strategy) (RightValue strategy))
    as [[e ->]|[(fn & -> & Hg & Hc)|[-> ->]]]; try done; [by eexists| |].
  - rewrite strings_Contains_free by by apply descriptor_free.
    destruct (Values resp) as [|v0 rest] eqn:Hvs; [done|].
    destruct (Compute_guarded fn v0 rest Hg) as [out ->]. cbn [res_bind].
    by apply judge_outcome_total.
  - unfold descriptor, descriptor_text. rewrite strings_Contains_prefix.
    destruct (len args <? 2) eqn:Hlen; [by eexists|].
    destruct args as [|a0 [|a1 args]]; try done.
    change (slice_get (a0 :: a1 :: args) 1) with (Ret (A:=Z) a1). cbn [res_bind].
    destruct (queryHistoryData _ _ _ _) as [resp1 sent]. cbn [RelativeCompute].
    destruct (CAvgRateAbs_RelativeCompute_total (Operator strategy) (RightValue strategy)
                (Values resp) (Values resp1)) as [out ->].
    destruct (_ >? 0); by apply judge_outcome_total.
Qed.

Lemma judge_strategy_total key strategy st :
  strategy_ok strategy -> world_ok (World st) ->
  exists c, judge_strategy key strategy st = Ret c.
Proof.
  intros (Hmax & name & args & Hf & Hname & Hne & Hr & Hd & Hp & Hl) Hw.
  unfold judge_strategy.
  destruct (len (strings_Split key "/") =? 2) eqn:Hkey; [|by eexists]. cbn [negb].
  destruct (strings_Split key "/") as [|s0 [|s1 [|s2 l]]];
    try (apply Z.eqb_eq in Hkey; unfold len in Hkey; simpl in Hkey; lia).
  change (slice_get [s0; s1] 1) with (Ret (A:=string) s1).
  change (slice_get [s0; s1] 0) with (Ret (A:=string) s0). cbn [res_bind].
  rewrite Hf, descriptor_init. cbn [res_bind]. rewrite descriptor_Split by done.
  change (slice_get [name +:+ "("; strings_Join (strconv_Itoa <$> args) ","] 1)
    with (Ret (A:=string) (strings_Join (strconv_Itoa <$> args) ",")).
  change (len [name +:+ "("; strings_Join (strconv_Itoa <$> args) ","] <? 1) with false.
  cbn [res_bind]. rewrite Atois_Join_Itoa by done.
  destruct args as [|a0 args]; [done|].
  replace (len (a0 :: args) <? 1) with false
    by (symmetry; apply Z.ltb_ge; unfold len; simpl length; lia).
  change (slice_get (a0 :: args) 0) with (Ret (A:=Z) a0). cbn [res_bind].
  destruct (queryHistoryData _ _ _ _) as [resp sent].
  destruct (len (Values resp) >? 0) eqn:Hlen; [|by eexists].
  apply (judge_values_total strategy s0 s1 name (a0 :: args)); try done.
  intros Hnil. by rewrite Hnil in Hlen.
Qed.

(** A worker on strategies it can judge returns, and leaves the store
    well formed. *)
Lemma judgeItemWithStrategy_returns (key : string) (val : list Strategy)
    (st : judge_state) :
  Forall strategy_ok val -> world_ok (World st) ->
  exists st', judgeItemWithStrategy key val st = Ret st' /\ world_ok (World st').
Proof.
  intros Hval Hw.
  assert (exists st', judgeItemWithStrategy key val st = Ret st') as [st' Hst'].
  { rewrite judgeItemWithStrategy_loop.
    destruct (for_each_is_ret (fun st => world_ok (World st)) val (judge_strategy key))
      with (s := worker_start st) as [out ->]; [|done|by eexists].
    intros strategy t Hin Ht. rewrite Forall_forall in Hval.
    destruct (judge_strategy_total key strategy t (Hval _ Hin) Ht) as [c Hc].
    exists c. split; [done|].
    pose proof (judge_strategy_inv key strategy t c (proj1 (Hval _ Hin)) Ht Hc).
    by destruct c. }
  exists st'. split; [done|]. eapply judgeItemWithStrategy_keeps_ok; [|done..].
  eapply Forall_impl; [exact Hval|]. by intros strategy [? _].
Qed.

End Invariant.

End Worker.

(** * A worker at work

    The series [host/cpu.idle] without tags; a graph that answers every
    query with three samples one minute apart, the newest at the end of
    the query; a clock that starts at 1000. *)

Definition demo_SortedTags (tags : gmap string string) : string := "".

Definition demo_PK (endpoint metric : string) (tags : gmap string string) : string :=
  endpoint +:+ "/" +:+ metric.

Definition demo_Md5 (s : string) : string := s.

Definition demo_graph (q : GraphQueryParam) : option GraphQueryResponse * option error :=
  (Some (mkGraphQueryResponse (Rpc.Endpoint q) (Counter q) "GAUGE" 60
           (demo_history (End_ q))), None).

Definition demo_clock (n : nat) : Z := Z.min (1000 + Z.of_nat n) 2000.

Definition demo_state : judge_state (S:=gmap string Event) :=
  mkJudgeState 0 (demo_world None []) [] 0.

(** [avg(#5)] needs more samples than the graph gives. *)
Definition demo_avg5 : Strategy :=
  mkStrategy 8 "cpu.idle" ∅ "avg(#5)" ">" (f64_of_int 10) 3 1 "".

Definition demo_ring : Strategy :=
  mkStrategy 9 "cpu.idle" ∅ "c_avg_rate_abs(#3,7)" ">" (f64_of_int 15) 3 1 "".

Definition demo_no_hash : Strategy :=
  mkStrategy 10 "cpu.idle" ∅ "avg(3)" ">" (f64_of_int 10) 3 1 "".

Definition demo_query (etime step : Z) : GraphQueryParam :=
  GenQParam "host" "cpu.idle" "AVERAGE" (-1) etime step.

(** The event of [demo_strategy] judged at 1001. *)
Definition demo_problem : Event :=
  mkEvent "s_7_host/cpu.idle" (Some demo_strategy) "PROBLEM" "host" (f64_of_int 11) 1 1001 ∅.

Abbreviation demo_body :=
  (judge_strategy demo_Sprintf demo_cfg demo_SortedTags demo_Md5 demo_PK
     (GraphRpc_QueryOne demo_graph) demo_clock).

Abbreviation demo_worker :=
  (judgeItemWithStrategy demo_Sprintf demo_cfg demo_SortedTags demo_Md5 demo_PK
     (GraphRpc_QueryOne demo_graph) demo_clock).

Lemma demo_clock_range (n : nat) : 0 <= demo_clock n <= max_int64.
Proof. unfold demo_clock, max_int64. lia. Qed.

Lemma demo_state_ok : world_ok (World demo_state).
Proof. intros key e. cbn. by rewrite lookup_empty. Qed.



(** In the other order both are judged up to the return. *)
Example worker_order_matters :
  res_map (fun st => Redis (World st))
    (demo_worker "host/cpu.idle" [demo_strategy; demo_avg5] demo_state)
  = Ret {[ "event:p1" := [demo_problem] ]}.
Proof. vm_compute. reflexivity. Qed.

(** After [c_avg_rate_abs(#3,7)] the query of [avg(#3)] ends seven days
    before the start of the worker. *)
Example worker_etime_drift :
  res_map Sent (demo_worker "host/cpu.idle" [demo_ring; demo_strategy] demo_state)
  = Ret [demo_query 940 3; demo_query (940 - 7 * 86400) 3; demo_query (940 - 7 * 86400) 3].
Proof. vm_compute. reflexivity. Qed.

(** The arguments separated by [#]: the body reads one argument, sends
    the first query, and returns on the error of the parser. *)
Example worker_hash_separated :
  demo_body "host/cpu.idle"
    (mkStrategy 9 "cpu.idle" ∅ "c_avg_rate_abs(#3#7)" ">" (f64_of_int 15) 3 1 "")
    (mkJudgeState 940 (demo_world None []) [] 1)
  = Ret (Return (mkJudgeState 940 (demo_world None []) [demo_query 940 3] 1)).
Proof. vm_compute. reflexivity. Qed.

Lemma judge_values_shifts_etime_witness :
  etime (ctl_state (Continue (mkJudgeState (940 - 7 * 86400) (demo_world None [])
                                [demo_query (940 - 7 * 86400) 3] 2)))
  = wrap64 (etime (mkJudgeState 940 (demo_world None []) [] 1 : judge_state)
            - wrap64 (60 * 60 * 24 * 7)).
Proof.
  apply (judge_values_shifts_etime demo_Sprintf demo_cfg demo_Md5 demo_PK
           (GraphRpc_QueryOne demo_graph) demo_clock demo_ring ["host"; "cpu.idle"] 3 7 []
           (demo_query 940 3)
           (mkGraphQueryResponse "host" "cpu.idle" "GAUGE" 60 (demo_history 940))
           _ (CAvgRateAbs ">" (f64_of_int 15))); vm_compute; reflexivity.
Defined.

Lemma judge_strategy_query_witness :
  Sent (ctl_state (Continue (mkJudgeState 940 (demo_world None [])
                               [demo_query 940 3] 1)))
  = Sent (mkJudgeState 940 (demo_world None []) [] 1)
  \/ exists q more,
      Sent (ctl_state (Continue (mkJudgeState 940 (demo_world None []) [demo_query 940 3] 1)))
      = Sent (mkJudgeState 940 (demo_world None []) [] 1) ++ q :: more
      /\ End_ q = etime (mkJudgeState 940 (demo_world None []) [] 1)
      /\ Start q = -1 /\ ConsolFun q = "AVERAGE".
Proof.
  apply (judge_strategy_query demo_Sprintf demo_cfg demo_SortedTags demo_Md5 demo_PK
           (GraphRpc_QueryOne (fun _ => (None, None))) demo_clock "host/cpu.idle"
           demo_strategy).
  vm_compute. reflexivity.
Defined.

Lemma judge_strategy_no_hash_witness :
  demo_body "host/cpu.idle" demo_no_hash demo_state = Panic IndexOutOfRange.
Proof. apply judge_strategy_no_hash; [reflexivity | discriminate | reflexivity]. Defined.

