(* ===== verification/WorkerSteps.v ===== *)
(** * WorkerSteps: a worker as a goroutine

    [judgeItemWithStrategy] of [judge/cron/judge.go] once more, as the
    program of its atomic steps on the state that the workers share: the
    readings of the clock, the queries to the graph, and the read, the
    write and the command of each judgement.  The variable [etime] is a
    variable of the goroutine: the program carries it from one strategy
    to the next, and the field [etime] of the state is not used.

    Run alone, the program is the function of [Worker].  Whatever the
    other goroutines do between its steps, a worker on strategies it can
    judge keeps the store well formed and the lists within the quotas, and
    does not panic. *)

From Stdlib Require Import ZArith Lia String Ascii.
From stdpp Require Import base tactics option list strings gmap relations.
From S2P Require Import Prelude.
From S2P Require Import Atomic.
From S2P Require Import Float64.
From S2P Require Import GoStrings.
From S2P Require Import Funcs.
From S2P Require Import Parse.
From S2P Require Import Store.
From S2P Require Import Rpc.
From S2P Require Import Emitter.
From S2P Require Import Alarm.
From S2P Require Import Concurrent.
From S2P Require Import Worker.

Local Open Scope Z_scope.

Section WorkerSteps.
Context {S : Type} `{KeyValue string Event S}.
Context (Sprintf : string -> Z -> string) (cfg : AlarmConfig).
Context (SortedTags : gmap string string -> string).
Context (Md5 : string -> string) (PK : string -> string -> gmap string string -> string).
Context (Call : transport).
Context (clock : nat -> Z).

Abbreviation state := (judge_state (S:=S)).

(** * The atomic steps *)

(** [time.Now().Unix()] *)
Definition time_Now_step : prog state Z := atom (time_Now clock).

(** [queryHistoryData(queryParam, resp)] on a fresh response. *)
Definition queryHistoryData_step (queryParam : GraphQueryParam)
    : prog state GraphQueryResponse :=
  atom (fun st =>
          ((queryHistoryData Call queryParam empty_response (Sent st)).1,
           set_Sent (queryHistoryData Call queryParam empty_response (Sent st)).2 st)).

(** A program on the world, as a program on the state of the workers. *)
Fixpoint on_world {A : Type} (m : prog (world S) A) : prog state A :=
  match m with
  | Done r => Done r
  | Atom act k =>
      Atom (fun st => ((act (World st)).1, set_World (act (World st)).2 st))
        (fun x => on_world (k x))
  end.

(** * The worker, step by step *)

Local Open Scope prog_scope.

(** What the body of the loop does to the function around it: it goes on
    with the next strategy, with the value of [etime], or it returns. *)
Abbreviation body_result := (ctl Z unit).

Definition judge_outcome_steps (strategy : Strategy) (s : list string)
    (values : list RRDData) (out : outcome) (etime : Z) : prog state body_result :=
  let '(leftValue, isTriggered, isEnough) := out in
  if negb isEnough then lift (Ret (Return tt)) else
  now <- time_Now_step ;;
  s0 <- lift (slice_get s 0) ;;
  s1 <- lift (slice_get s 1) ;;
  let key := Md5 (PK s0 s1 (Tags strategy)) in
  s0 <- lift (slice_get s 0) ;;
  let event := mkEvent ("s_" +:+ strconv_Itoa (Strategy_Id strategy) +:+ "_" +:+ key)
                 (Some strategy) "" s0 leftValue 0 now (Tags strategy) in
  on_world (sendEventIfNeed_steps Sprintf cfg values isTriggered now event
              (MaxStep strategy)) ;;
  lift (Ret (Continue etime)).

Definition judge_values_steps (strategy : Strategy) (s : list string) (args : list Z)
    (queryParam : GraphQueryParam) (resp : GraphQueryResponse) (etime : Z)
    : prog state body_result :=
  match ParseFuncFromString (Func strategy) (Operator strategy) (RightValue strategy) with
  | Panic p => lift (Panic p)
  | Err _ => lift (Ret (Return tt))
  | Ret fn =>
      if strings_Contains (Func strategy) "c_avg_rate_abs" then
        if len args <? 2 then lift (Ret (Return tt)) else
        args1 <- lift (slice_get args 1) ;;
        let etime := wrap64 (etime - wrap64 (60 * 60 * 24 * args1)) in
        let queryParam := set_End etime queryParam in
        resp1 <- queryHistoryData_step queryParam ;;
        out <- lift (if len (Values resp1) >? 0
                     then RelativeCompute fn (Values resp) (Values resp1)
                     else Ret zero_outcome) ;;
        judge_outcome_steps strategy s (Values resp) out etime
      else
        out <- lift (Compute fn (Values resp)) ;;
        judge_outcome_steps strategy s (Values resp) out etime
  end.

Definition judge_strategy_steps (key : string) (strategy : Strategy) (etime : Z)
    : prog state body_result :=
  let s := strings_Split key "/" in
  if negb (len s =? 2) then lift (Ret (Return tt)) else
  let tags := SortedTags (Tags strategy) in
  s1 <- lift (slice_get s 1) ;;
  let counter := if String.eqb tags "" then s1
                 else s1 +:+ "/" +:+ SortedTags (Tags strategy) in
  head <- lift (str_slice (Func strategy) 0 (str_len (Func strategy) - 1)) ;;
  let sfunc := strings_Split head "#" in
  if len sfunc <? 1 then lift (Ret (Return tt)) else
  sfunc1 <- lift (slice_get sfunc 1) ;;
  match Atois sfunc1 with
  | Panic p => lift (Panic p)
  | Err _ => lift (Ret (Return tt))
  | Ret args =>
      if len args <? 1 then lift (Ret (Return tt)) else
      s0 <- lift (slice_get s 0) ;;
      args0 <- lift (slice_get args 0) ;;
      let queryParam := GenQParam s0 counter "AVERAGE" (-1) etime args0 in
      resp <- queryHistoryData_step queryParam ;;
      if len (Values resp) >? 0 then judge_values_steps strategy s args queryParam resp etime
      else lift (Ret (Continue etime))
  end.

(** The loop over the strategies of the group. *)
Fixpoint judge_group_steps (key : string) (val : list Strategy) (etime : Z)
    : prog state unit :=
  match val with
  | [] => skip
  | strategy :: rest =>
      c <- judge_strategy_steps key strategy etime ;;
      match c with
      | Continue etime => judge_group_steps key rest etime
      | Break _ | Return _ => skip
      end
  end.

Definition judgeItemWithStrategy_steps (key : string) (val : list Strategy)
    : prog state unit :=
  now <- time_Now_step ;;
  judge_group_steps key val (wrap64 (now - 60 * 1)).

Local Close Scope prog_scope.
Local Open Scope res_scope.

(** * Alone, the program is the function *)





#[local] Arguments slice_get : simpl never.
#[local] Arguments str_slice : simpl never.
#[local] Arguments sendEventIfNeed_steps : simpl never.
#[local] Arguments on_world : simpl never.







(** * Whatever the other goroutines do *)

Section Safe.
Context (Hclock : forall n, 0 <= clock n <= max_int64).

(** The invariant of the workers in flight: the store is well formed and
    the lists are within the quotas. *)
Definition sound_state (st : state) : Prop := sound (World st).

Lemma on_world_safe {A : Type} (m : prog (world S) A) :
  safe sound m -> safe sound_state (on_world m).
Proof.
  induction m as [r|X act k IH]; [done|]. intros Hm st Hst.
  destruct (Hm (World st) Hst) as [Hw Hk]. split; [done|]. by apply IH.
Qed.

Lemma time_Now_step_safe : safe sound_state time_Now_step.
Proof. by apply safe_atom. Qed.

Lemma queryHistoryData_step_safe queryParam :
  safe sound_state (queryHistoryData_step queryParam).
Proof. by apply safe_atom. Qed.

Lemma judge_outcome_steps_safe strategy (s0 s1 : string) values out (e : Z) :
  values <> [] -> in_int64 (MaxStep strategy) = true ->
  safe sound_state (judge_outcome_steps strategy [s0; s1] values out e).
Proof.
  intros Hv Hmax. unfold judge_outcome_steps.
  destruct out as [[lv trig] [|]]; cbn [negb]; [|done].
  apply safe_atom_bind. intros st Hst. split; [done|].
  change (slice_get [s0; s1] 1) with (Ret (A:=string) s1).
  change (slice_get [s0; s1] 0) with (Ret (A:=string) s0). cbn [prog_bind lift].
  apply safe_bind; [|done]. apply on_world_safe.
  apply (call_steps_safe Sprintf cfg (mkCall values trig _ _ (MaxStep strategy))).
  unfold worker_call. cbn. split_and!; try done; try apply Hclock. by exists strategy.
Qed.

Lemma judge_values_steps_safe strategy (s0 s1 : string) name args queryParam resp (e : Z) :
  Func strategy = descriptor name args -> has_byte "#" name = false ->
  args <> [] -> Forall (fun n => in_int64 n = true) args ->
  name <> "diff" -> name <> "pdiff" -> (name = "lookup" -> 2 <= len args) ->
  Values resp <> [] -> in_int64 (MaxStep strategy) = true ->
  safe sound_state (judge_values_steps strategy [s0; s1] args queryParam resp e).
Proof.
  intros Hf Hname Hne Hr Hd Hp Hl Hv Hmax. unfold judge_values_steps.
  rewrite Hf. unfold descriptor at 1. rewrite ParseFuncFromString_text, Atois_Join_Itoa by done.
  cbn [res_bind].
  destruct (new_function_cases name args (Operator strategy) (RightValue strategy))
    as [[err ->]|[(fn & -> & Hg & Hc)|[-> ->]]]; try done.
  - rewrite strings_Contains_free by by apply descriptor_free.
    destruct (Values resp) as [|v0 rest] eqn:Hvs; [done|].
    destruct (Compute_guarded fn v0 rest Hg) as [out ->]. cbn [prog_bind lift].
    by apply judge_outcome_steps_safe.
  - unfold descriptor, descriptor_text. rewrite strings_Contains_prefix.
    destruct (len args <? 2) eqn:Hlen; [done|].
    destruct args as [|a0 [|a1 args]]; try done.
    change (slice_get (a0 :: a1 :: args) 1) with (Ret (A:=Z) a1). cbn [prog_bind lift].
    apply safe_atom_bind. intros st Hst. split; [done|]. cbn [RelativeCompute].
    destruct (CAvgRateAbs_RelativeCompute_total (Operator strategy) (RightValue strategy)
                (Values resp) (Values (queryHistoryData Call
                   (set_End (wrap64 (e - wrap64 (60 * 60 * 24 * a1))) queryParam)
                   empty_response (Sent st)).1)) as [out Hout].
    cbn [fst]. rewrite Hout.
    destruct (_ >? 0); cbn [prog_bind lift]; by apply judge_outcome_steps_safe.
Qed.

Lemma judge_strategy_steps_safe key strategy (e : Z) :
  strategy_ok strategy -> safe sound_state (judge_strategy_steps key strategy e).
Proof.
  intros (Hmax & name & args & Hf & Hname & Hne & Hr & Hd & Hp & Hl).
  unfold judge_strategy_steps.
  destruct (len (strings_Split key "/") =? 2) eqn:Hkey; [|done]. cbn [negb].
  destruct (strings_Split key "/") as [|s0 [|s1 [|s2 l]]];
    try (apply Z.eqb_eq in Hkey; unfold len in Hkey; simpl in Hkey; lia).
  change (slice_get [s0; s1] 1) with (Ret (A:=string) s1).
  change (slice_get [s0; s1] 0) with (Ret (A:=string) s0). cbn [prog_bind lift].
  rewrite Hf, descriptor_init. cbn [prog_bind lift]. rewrite descriptor_Split by done.
  change (slice_get [name +:+ "("; strings_Join (strconv_Itoa <$> args) ","] 1)
    with (Ret (A:=string) (strings_Join (strconv_Itoa <$> args) ",")).
  change (len [name +:+ "("; strings_Join (strconv_Itoa <$> args) ","] <? 1) with false.
  cbn [prog_bind lift]. rewrite Atois_Join_Itoa by done.
  destruct args as [|a0 args]; [done|].
  replace (len (a0 :: args) <? 1) with false
    by (symmetry; apply Z.ltb_ge; unfold len; simpl length; lia).
  change (slice_get (a0 :: args) 0) with (Ret (A:=Z) a0). cbn [prog_bind lift].
  apply safe_atom_bind. intros st Hst. split; [done|].
  destruct (len (Values _) >? 0) eqn:Hlen; [|done].
  apply (judge_values_steps_safe strategy s0 s1 name (a0 :: args)); try done.
  intros Hnil. by rewrite Hnil in Hlen.
Qed.

Lemma judge_group_steps_safe key val (e : Z) :
  Forall strategy_ok val -> safe sound_state (judge_group_steps key val e).
Proof.
  intros Hval. revert e. induction Hval as [|strategy rest Hs _ IH]; intros e; [done|].
  cbn [judge_group_steps]. apply safe_bind; [by apply judge_strategy_steps_safe|].
  by intros [e'|e'|[]].
Qed.

(** A worker on strategies it can judge keeps the store well formed and
    the lists within the quotas at each of its steps, whatever the state
    it finds, and does not panic. *)
Lemma judgeItemWithStrategy_steps_safe (key : string) (val : list Strategy) :
  Forall strategy_ok val -> safe sound_state (judgeItemWithStrategy_steps key val).
Proof.
  intros Hval. apply safe_atom_bind. intros st Hst. split; [done|].
  by apply judge_group_steps_safe.
Qed.

End Safe.


End WorkerSteps.
