(* ===== verification/Scheduler.v ===== *)
(** * Scheduler: the turns of the judge and the semaphore

    [PullAndJudge] of [judge/cron/judge.go]: each turn reads the strategy
    map, takes its groups in the order the map gives them, acquires a slot of
    [semaJudge] for each and starts a worker on it; a worker releases its
    slot when it ends.  The turn then sleeps by the rule of [turn_sleep].

    The goroutines are a step relation on a [system]: the groups still to
    start, the workers running, the free slots, and the state of the
    workers.  A worker runs as one step, in any order with the others; a
    worker that panics stops the program. *)

From Stdlib Require Import ZArith Lia String.
From stdpp Require Import base tactics option list strings gmap relations.
From S2P Require Import Prelude.
From S2P Require Import Float64.
From S2P Require Import GoStrings.
From S2P Require Import Funcs.
From S2P Require Import Parse.
From S2P Require Import Store.
From S2P Require Import Rpc.
From S2P Require Import Emitter.
From S2P Require Import Alarm.
From S2P Require Import History.
From S2P Require Import Worker.

Local Open Scope Z_scope.
Local Open Scope res_scope.

Definition ConcurrentOfJudge : Z := 100.

(** * The semaphore *)

(** [nsema.NewSemaphore(n)]: the number of free slots. *)
Definition NewSemaphore (n : Z) : Z := n.

(** [Acquire]: a slot, when one is free; [None] when the caller waits. *)
Definition Acquire (sema : Z) : option Z :=
  if 0 <? sema then Some (sema - 1) else None.

(** [Release] *)
Definition Release (sema : Z) : Z := sema + 1.

(** * The pause between two turns *)

(** The seconds [PullAndJudge] sleeps after a turn that started at
    [now1] and ended at [now2]. *)
Definition turn_sleep (now1 now2 : Z) : Z :=
  let d := wrap64 (now2 - now1) in
  if d <=? 0 then 60
  else if d <? 60 then d
  else 0.

(** * The system *)

Section Scheduler.
Context {S : Type} `{KeyValue string Event S}.
Context (Sprintf : string -> Z -> string) (cfg : AlarmConfig).
Context (SortedTags : gmap string string -> string).
Context (Md5 : string -> string) (PK : string -> string -> gmap string string -> string).
Context (Call : transport).
Context (clock : nat -> Z).
(** [g.StrategyMap.M]: the groups of strategies by key, as the turn of
    each number finds them; the map is replaced between the turns by the
    collaborator that reads the configuration. *)
Context (strategyMap : nat -> list (string * list Strategy)).

Abbreviation group := (string * list Strategy)%type.

(** The program: the state of the workers with the clock, the free
    slots, [now1] while a turn dispatches, the groups the turn has still
    to start, the workers that run, the pauses made so far (the last one
    first; there is one for each turn that has ended), and whether a
    worker has stopped the program. *)
Record system := mkSystem {
  Judge : judge_state (S:=S);
  semaJudge : Z;
  Turn : option Z;
  Pending : list group;
  Running : list group;
  Slept : list Z;
  Crashed : bool
}.

(** The program at its start: all slots free, no turn begun. *)
Definition boot (st : judge_state) : system :=
  mkSystem st (NewSemaphore ConcurrentOfJudge) None [] [] [] false.

Abbreviation work := (judgeItemWithStrategy Sprintf cfg SortedTags Md5 PK Call clock).
Abbreviation now := (time_Now clock).

(** The number of the turn: the turns that have ended. *)
Definition turn_number (sys : system) : nat := length (Slept sys).

(** The steps of [PullAndJudge] and of the workers it starts:
    - a turn begins: it reads the map and [now1], and takes the groups of
      the map in the order the map gives them;
    - the turn starts the next group when [Acquire] gives a slot;
    - the turn ends: it reads [now2] and sleeps;
    - a worker ends and releases its slot;
    - a worker panics and stops the program. *)
Inductive step : system -> system -> Prop :=
  | step_turn (sys : system) (order : list group) :
      Crashed sys = false -> Turn sys = None ->
      order ≡ₚ strategyMap (turn_number sys) ->
      step sys (mkSystem (now (Judge sys)).2 (semaJudge sys) (Some (now (Judge sys)).1)
                  order (Running sys) (Slept sys) false)
  | step_start (sys : system) (g : group) (rest : list group) (sema : Z) :
      Crashed sys = false -> Pending sys = g :: rest ->
      Acquire (semaJudge sys) = Some sema ->
      step sys (mkSystem (Judge sys) sema (Turn sys) rest (g :: Running sys) (Slept sys)
                  false)
  | step_sleep (sys : system) (now1 : Z) :
      Crashed sys = false -> Turn sys = Some now1 -> Pending sys = [] ->
      step sys (mkSystem (now (Judge sys)).2 (semaJudge sys) None [] (Running sys)
                  (turn_sleep now1 (now (Judge sys)).1 :: Slept sys) false)
  | step_end (sys : system) (before after : list group) (g : group) (st : judge_state) :
      Crashed sys = false -> Running sys = before ++ g :: after ->
      work g.1 g.2 (Judge sys) = Ret st ->
      step sys (mkSystem st (Release (semaJudge sys)) (Turn sys) (Pending sys)
                  (before ++ after) (Slept sys) false)
  | step_panic (sys : system) (before after : list group) (g : group) :
      Crashed sys = false -> Running sys = before ++ g :: after ->
      is_ret (work g.1 g.2 (Judge sys)) = false ->
      step sys (mkSystem (Judge sys) (semaJudge sys) (Turn sys) (Pending sys) (Running sys)
                  (Slept sys) true).


(** The slots are the free ones and the ones of the running workers. *)
Definition slots_ok (sys : system) : Prop :=
  0 <= semaJudge sys /\ semaJudge sys + len (Running sys) = ConcurrentOfJudge.

(** A group of the map of some turn. *)
Definition known (g : group) : Prop := exists n, g ∈ strategyMap n.

(** The groups of a system are groups of the strategy maps, and there
    are groups to start only while a turn dispatches. *)
Definition groups_ok (sys : system) : Prop :=
  Forall known (Pending sys) /\ Forall known (Running sys)
  /\ (Turn sys = None -> Pending sys = []).

(** A property of every state the program reaches: it holds at the start
    and every step keeps it. *)
Lemma reachable_ind (P : system -> Prop) (st : judge_state) :
  P (boot st) ->
  (forall sys sys', P sys -> step sys sys' -> P sys') ->
  forall sys, rtc step (boot st) sys -> P sys.
Proof.
  intros Hboot Hstep sys Hrun. revert sys Hrun. apply (rtc_ind_r P); [done|].
  intros sys1 sys2 _ Hs Hp. by eapply Hstep.
Qed.

(** * The semaphore bounds the workers *)

Lemma Acquire_Some (sema sema' : Z) :
  Acquire sema = Some sema' <-> 0 < sema /\ sema' = sema - 1.
Proof.
  unfold Acquire. destruct (Z.ltb_spec 0 sema); split; try (intros [= <-]); try done;
    intros [? ->]; try done; lia.
Qed.

Lemma len_cons {A : Type} (x : A) (l : list A) : len (x :: l) = len l + 1.
Proof. unfold len. simpl length. lia. Qed.

Lemma step_slots_ok (sys sys' : system) : step sys sys' -> slots_ok sys -> slots_ok sys'.
Proof.
  unfold slots_ok, Release.
  intros [sys0 order|sys0 g rest sema _ _ [Hpos ->]%Acquire_Some|sys0 now1
          |sys0 before after g st _ Hrun _|sys0 before after g _ _ _];
    cbn [semaJudge Running]; unfold Release; rewrite ?Hrun, ?len_app, ?len_cons; lia.
Qed.

Lemma step_groups_ok (sys sys' : system) : step sys sys' -> groups_ok sys -> groups_ok sys'.
Proof.
  unfold groups_ok. intros Hstep (Hpend & Hrunning & Hturn).
  destruct Hstep as [sys0 order _ _ Ho|sys0 g rest sema _ Hp _|sys0 now1 _ _ _
                    |sys0 before after g st _ Hrun _|sys0 before after g _ _ _];
    cbn [Pending Running Turn] in *.
  - split_and!; [|done..]. apply Forall_forall. intros g Hg.
    exists (turn_number sys0). by rewrite <- Ho.
  - rewrite Hp in Hpend. apply Forall_cons in Hpend as [Hg Hrest]. split_and!.
    + done.
    + by constructor.
    + intros Hn. by rewrite (Hturn Hn) in Hp.
  - by split_and!.
  - rewrite Hrun in Hrunning. apply Forall_app in Hrunning as [Hb [_ Ha]%Forall_cons].
    split_and!; [done| |done]. by apply Forall_app.
  - done.
Qed.

Lemma boot_groups_ok (st : judge_state) : groups_ok (boot st).
Proof. by split_and!. Qed.

(** What holds of the groups of every map holds of a worker that runs. *)
Lemma running_known (P : group -> Prop) (sys : system) (before after : list group)
    (g : group) :
  (forall n, Forall P (strategyMap n)) -> groups_ok sys ->
  Running sys = before ++ g :: after -> P g.
Proof.
  intros HP (_ & Hrunning & _) Hrun. rewrite Hrun in Hrunning.
  apply Forall_app in Hrunning as [_ [[n Hn] _]%Forall_cons].
  specialize (HP n). rewrite Forall_forall in HP. by apply HP.
Qed.

Lemma reachable_groups_ok (st : judge_state) (sys : system) :
  rtc step (boot st) sys -> groups_ok sys.
Proof. revert sys. apply reachable_ind; [apply boot_groups_ok|]. intros sys1 sys2 Hp Hs. by eapply step_groups_ok. Qed.

(** The semaphore bounds the workers: in every state the program
    reaches, the free slots and the running workers add up to
    [ConcurrentOfJudge], so at most a hundred workers run. *)
Theorem reachable_slots (st : judge_state) (sys : system) :
  rtc step (boot st) sys ->
  slots_ok sys /\ len (Running sys) <= ConcurrentOfJudge.
Proof.
  intros Hrun. assert (slots_ok sys) as Hs; [|unfold slots_ok in *; lia].
  revert sys Hrun. apply reachable_ind; [done|]. intros sys1 sys2 Hp Hs. by eapply step_slots_ok.
Qed.

(** * The pauses *)

Lemma turn_sleep_range (now1 now2 : Z) : 0 <= turn_sleep now1 now2 <= 60.
Proof. unfold turn_sleep. zcases. Qed.

(** Every pause of the program is between no time and a minute. *)
Theorem reachable_pauses (st : judge_state) (sys : system) :
  rtc step (boot st) sys -> Forall (fun d => 0 <= d <= 60) (Slept sys).
Proof.
  revert sys. apply reachable_ind; [by constructor|].
  intros sys1 sys2 Hp Hs. destruct Hs as [| |sys0 now1 _ _ _| |]; cbn [Slept]; try done.
  constructor; [apply turn_sleep_range|done].
Qed.

(** * The program judges, and nothing else *)

Section Store.
Context (Hclock : forall n, 0 <= clock n <= max_int64).
Context (Hsteps : forall n, Forall (fun g : group =>
           Forall (fun strategy => in_int64 (MaxStep strategy) = true) g.2) (strategyMap n)).

(** A step of the program changes the world by judgements of the state
    machine only. *)
Lemma step_judgements (sys sys' : system) :
  step sys sys' -> groups_ok sys ->
  rtc (judgement Sprintf cfg) (World (Judge sys)) (World (Judge sys')).
Proof.
  intros [sys0 order|sys0 g rest sema _ _ _|sys0 now1
          |sys0 before after g st _ Hrun Hwork|sys0 before after g _ _ _]; cbn; try done.
  intros Hg. eapply judgeItemWithStrategy_judges; [exact Hclock| |exact Hwork].
  by eapply (running_known _ sys0 before after g Hsteps).
Qed.

(** The world of every state the program reaches is the world of the
    start after a sequence of judgements, whatever the order of the
    groups and of the workers and the answers of the graph are. *)
Lemma reachable_judgements (st : judge_state) (sys : system) :
  rtc step (boot st) sys ->
  rtc (judgement Sprintf cfg) (World st) (World (Judge sys)).
Proof.
  intros Hrun.
  assert (groups_ok sys /\ rtc (judgement Sprintf cfg) (World st) (World (Judge sys)))
    as [_ ?]; [|done].
  revert sys Hrun. apply reachable_ind; [split; [apply boot_groups_ok|done]|].
  intros sys1 sys2 [Hg Hj] Hstep. split; [by eapply step_groups_ok|].
  etrans; [exact Hj | by apply step_judgements].
Qed.

(** The last-event store is well formed in every state the program
    reaches from a well-formed one, whatever the order of the groups and
    of the workers, the answers of the graph and the strategies are. *)
Theorem reachable_store_ok (st : judge_state) (sys : system) :
  world_ok (World st) ->
  rtc step (boot st) sys ->
  world_ok (World (Judge sys)).
Proof. intros Hw Hrun. eapply judgements_ok, reachable_judgements; done. Qed.

(** The quota of the whole program: in every state it reaches from a
    well-formed store, each PROBLEM event on a list of the server carries
    a step of at most the [MaxStep] of its strategy, or one when
    [MaxStep] is less, if that is so of the lists at the start. *)
Theorem reachable_quota (st : judge_state) (sys : system) :
  world_ok (World st) -> queue_all within_quota (World st) ->
  rtc step (boot st) sys ->
  queue_all within_quota (World (Judge sys)).
Proof. intros Hw Hq Hrun. eapply judgements_quota, reachable_judgements; done. Qed.


End Store.

(** * No crash on strategies the worker can judge *)

Section Safe.
Context (Hclock : forall n, 0 <= clock n <= max_int64).
Context (Hok : forall n, Forall (fun g : group => Forall strategy_ok g.2) (strategyMap n)).

Lemma step_safe (sys sys' : system) :
  step sys sys' -> groups_ok sys ->
  world_ok (World (Judge sys)) -> world_ok (World (Judge sys')) /\ Crashed sys' = false.
Proof.
  intros [sys0 order|sys0 g rest sema _ _ _|sys0 now1
          |sys0 before after g st _ Hrun Hwork|sys0 before after g _ Hrun Hwork];
    cbn [Judge Crashed]; try done; intros Hgroups Hw;
    pose proof (running_known _ sys0 before after g Hok Hgroups Hrun) as Hg;
    destruct (judgeItemWithStrategy_returns Sprintf cfg SortedTags Md5 PK Call clock Hclock
                g.1 g.2 (Judge sys0) Hg Hw) as (st' & Hst' & Hw').
  - split; [|done]. rewrite Hst' in Hwork. by injection Hwork as <-.
  - by rewrite Hst' in Hwork.
Qed.

(** When every strategy of the map is one the worker can judge (a
    printed descriptor of a function other than [diff] and [pdiff], with
    two arguments for [lookup]), the program never crashes, whatever the
    graph answers, and its store stays well formed. *)
Theorem reachable_no_crash (st : judge_state) (sys : system) :
  world_ok (World st) ->
  rtc step (boot st) sys ->
  Crashed sys = false /\ world_ok (World (Judge sys)).
Proof.
  intros Hw Hrun.
  assert (groups_ok sys /\ world_ok (World (Judge sys)) /\ Crashed sys = false)
    as (_ & ? & ?); [|done].
  revert sys Hrun. apply reachable_ind; [split; [apply boot_groups_ok|done]|].
  intros sys1 sys2 (Hg & Hok1 & _) Hstep.
  split; [by eapply step_groups_ok | by eapply step_safe].
Qed.

End Safe.

(** * The program is never stuck *)

(** The semaphore does not block the turns for ever: in a state that
    has not crashed and whose slots add up, a step is possible: the
    beginning or the end of a turn, the start of a group, or the end of a
    worker. *)
Theorem step_progress (sys : system) :
  Crashed sys = false -> slots_ok sys -> exists sys', step sys sys'.
Proof.
  intros Hc [Hpos Hsum]. destruct (Turn sys) as [now1|] eqn:Ht;
    [|eexists; by apply (step_turn sys (strategyMap (turn_number sys)))].
  destruct (Pending sys) as [|g rest] eqn:Hp; [eexists; by apply (step_sleep sys now1)|].
  destruct (Z.ltb_spec 0 (semaJudge sys)) as [Hfree|Hfull].
  { eexists. apply (step_start sys g rest (semaJudge sys - 1)); [done..|].
    by apply Acquire_Some. }
  destruct (Running sys) as [|r running] eqn:Hr.
  { unfold len, ConcurrentOfJudge in Hsum. simpl in Hsum. lia. }
  destruct (work r.1 r.2 (Judge sys)) as [st|e|p] eqn:Hwork.
  - eexists. by apply (step_end sys [] running r st).
  - eexists. apply (step_panic sys [] running r); [done..|]. by rewrite Hwork.
  - eexists. apply (step_panic sys [] running r); [done..|]. by rewrite Hwork.
Qed.


End Scheduler.

(** * The period of the turns *)

(** C39. The time from the start of a turn to the start of the next: a
    minute when the turn took no time, twice the time of the turn when it
    took less than a minute, the time of the turn otherwise. *)
Theorem turn_period (now1 now2 : Z) :
  0 <= now1 <= now2 -> now2 <= max_int64 ->
  (now2 - now1) + turn_sleep now1 now2
  = if now2 =? now1 then 60
    else if now2 - now1 <? 60 then 2 * (now2 - now1)
    else now2 - now1.
Proof.
  unfold max_int64. intros Hle Hmax. unfold turn_sleep.
  rewrite wrap64_id by (apply in_int64_spec; lia). zcases.
Qed.

Lemma turn_period_witness :
  (1010 - 1000) + turn_sleep 1000 1010
  = if 1010 =? 1000 then 60 else if 1010 - 1000 <? 60 then 2 * (1010 - 1000)
    else 1010 - 1000.
Proof. apply turn_period; done. Defined.

(** A clock that goes back gives the full pause. *)
Example turn_sleep_clock_back : turn_sleep 1000 990 = 60.
Proof. reflexivity. Qed.

(** * One turn on one group *)

Definition demo_map : list (string * list Strategy) := [("host/cpu.idle", [demo_strategy])].

(** The same map in every turn. *)
Definition demo_maps (n : nat) : list (string * list Strategy) := demo_map.

Abbreviation demo_step :=
  (step demo_Sprintf demo_cfg demo_SortedTags demo_Md5 demo_PK
     (GraphRpc_QueryOne demo_graph) demo_clock demo_maps).

Abbreviation demo_system := (system (S:=gmap string Event)).

Abbreviation demo_rule_on maps rule :=
  (rule demo_Sprintf demo_cfg demo_SortedTags demo_Md5 demo_PK
     (GraphRpc_QueryOne demo_graph) demo_clock maps) (only parsing).

Abbreviation demo_rule rule := (demo_rule_on demo_maps rule) (only parsing).

(** The worker state after [n] readings of the clock, nothing judged. *)
Definition demo_idle (n : nat) : judge_state (S:=gmap string Event) :=
  mkJudgeState 0 (demo_world None []) [] n.

(** The turn has begun at 1000. *)
Definition demo_turn : demo_system :=
  mkSystem (demo_idle 1) 100 (Some 1000) demo_map [] [] false.

(** The group has its slot, the worker runs. *)
Definition demo_started : demo_system :=
  mkSystem (demo_idle 1) 99 (Some 1000) [] demo_map [] false.

(** The turn has ended at 1001 and paused for a second. *)
Definition demo_paused : demo_system :=
  mkSystem (demo_idle 2) 99 None [] demo_map [1] false.

(** The event of the worker that starts at 1002 and judges at 1003. *)
Definition demo_alarm : Event :=
  mkEvent "s_7_host/cpu.idle" (Some demo_strategy) "PROBLEM" "host" (f64_of_int 11) 1 1003 ∅.

(** The worker has ended. *)
Definition demo_ended : demo_system :=
  mkSystem (mkJudgeState 942
              (mkWorld {[ "s_7_host/cpu.idle" := demo_alarm ]}
                 {[ "event:p1" := [demo_alarm] ]} [])
              [demo_query 942 3] 4)
    100 None [] [] [1] false.

Lemma demo_begin : demo_step (boot demo_state) demo_turn.
Proof. by apply (demo_rule (@step_turn _ _ _) (boot demo_state) demo_map). Qed.

Lemma demo_start : demo_step demo_turn demo_started.
Proof. by apply (demo_rule (@step_start _ _ _) demo_turn). Qed.

Lemma demo_pause : demo_step demo_started demo_paused.
Proof. by apply (demo_rule (@step_sleep _ _ _) demo_started 1000). Qed.

Lemma demo_end : demo_step demo_paused demo_ended.
Proof.
  apply (demo_rule (@step_end _ _ _) demo_paused [] [] ("host/cpu.idle", [demo_strategy]));
    [done..|]. vm_compute. reflexivity.
Qed.

Lemma demo_run_started : rtc demo_step (boot demo_state) demo_started.
Proof. eapply rtc_l; [exact demo_begin|]. apply rtc_once, demo_start. Qed.

Lemma demo_run_ended : rtc demo_step (boot demo_state) demo_ended.
Proof.
  etrans; [exact demo_run_started|]. eapply rtc_l; [exact demo_pause|].
  apply rtc_once, demo_end.
Qed.

Lemma demo_steps_ok (n : nat) :
  Forall (fun g : string * list Strategy =>
            Forall (fun strategy => in_int64 (MaxStep strategy) = true) g.2) (demo_maps n).
Proof. by repeat constructor. Qed.

Lemma demo_strategy_ok : strategy_ok demo_strategy.
Proof.
  split; [done|]. exists "avg", [3]. split_and!; try done. by repeat constructor.
Qed.

Lemma reachable_slots_witness :
  slots_ok demo_started /\ len (Running demo_started) <= ConcurrentOfJudge.
Proof. exact (reachable_slots _ _ _ _ _ _ _ _ _ _ demo_run_started). Defined.

Lemma reachable_pauses_witness : Forall (fun d => 0 <= d <= 60) (Slept demo_ended).
Proof. exact (reachable_pauses _ _ _ _ _ _ _ _ _ _ demo_run_ended). Defined.

Lemma reachable_store_ok_witness : world_ok (World (Judge demo_ended)).
Proof.
  exact (reachable_store_ok demo_Sprintf demo_cfg demo_SortedTags demo_Md5 demo_PK
           (GraphRpc_QueryOne demo_graph) demo_clock demo_maps demo_clock_range demo_steps_ok
           demo_state demo_ended demo_state_ok demo_run_ended).
Defined.

Lemma reachable_quota_witness : queue_all within_quota (World (Judge demo_ended)).
Proof.
  exact (reachable_quota demo_Sprintf demo_cfg demo_SortedTags demo_Md5 demo_PK
           (GraphRpc_QueryOne demo_graph) demo_clock demo_maps demo_clock_range demo_steps_ok
           demo_state demo_ended demo_state_ok (queue_all_empty _ _ _) demo_run_ended).
Defined.


Lemma reachable_no_crash_witness :
  Crashed demo_ended = false /\ world_ok (World (Judge demo_ended)).
Proof.
  apply (reachable_no_crash demo_Sprintf demo_cfg demo_SortedTags demo_Md5 demo_PK
           (GraphRpc_QueryOne demo_graph) demo_clock demo_maps demo_clock_range)
    with (st := demo_state);
    [intros n; by repeat constructor; apply demo_strategy_ok | exact demo_state_ok
    | exact demo_run_ended].
Defined.

Lemma step_progress_witness : exists sys', demo_step demo_started sys'.
Proof. apply step_progress; [done|]. by split. Defined.


(** The turns do not wait for the workers: a second turn starts a worker
    on a group whose worker of the first turn still runs. *)
Example overlap_reachable :
  rtc demo_step (boot demo_state)
    (mkSystem (demo_idle 3) 98 (Some 1002) [] (demo_map ++ demo_map) [1] false).
Proof.
  etrans; [exact demo_run_started|]. eapply rtc_l; [exact demo_pause|].
  eapply rtc_l; [by apply (demo_rule (@step_turn _ _ _) demo_paused demo_map)|].
  apply rtc_once.
  by apply (demo_rule (@step_start _ _ _)
              (mkSystem (demo_idle 3) 99 (Some 1002) demo_map demo_map [1] false)).
Qed.

(** A function text without [#] in the map stops the program in the
    first turn. *)
Example crash_reachable :
  let bad := fun _ : nat => [("host/cpu.idle", [demo_no_hash])] in
  rtc (demo_rule_on bad (@step _ _ _)) (boot demo_state)
    (mkSystem (demo_idle 1) 99 (Some 1000) [] (bad 0%nat) [] true).
Proof.
  intros bad.
  eapply rtc_l; [by apply (demo_rule_on bad (@step_turn _ _ _) (boot demo_state) (bad 0%nat))|].
  eapply rtc_l; [by apply (demo_rule_on bad (@step_start _ _ _)
                             (mkSystem (demo_idle 1) 100 (Some 1000) (bad 0%nat) [] [] false))|].
  apply rtc_once.
  by apply (demo_rule_on bad (@step_panic _ _ _)
              (mkSystem (demo_idle 1) 99 (Some 1000) [] (bad 0%nat) [] false) [] []
              ("host/cpu.idle", [demo_no_hash])).
Qed.

(** The map is read when a turn begins: a group that the second turn
    does not find in the map any more is still judged, by the worker that
    the first turn started. *)
Example replaced_map_judged :
  let maps := fun n : nat => if n is O then demo_map else [] in
  let alarm := mkEvent "s_7_host/cpu.idle" (Some demo_strategy) "PROBLEM" "host"
                 (f64_of_int 11) 1 1005 ∅ in
  rtc (demo_rule_on maps (@step _ _ _)) (boot demo_state)
    (mkSystem (mkJudgeState 944
                 (mkWorld {[ "s_7_host/cpu.idle" := alarm ]} {[ "event:p1" := [alarm] ]} [])
                 [demo_query 944 3] 6)
       100 None [] [] [1; 1] false).
Proof.
  intros maps alarm.
  eapply rtc_l; [by apply (demo_rule_on maps (@step_turn _ _ _) (boot demo_state) demo_map)|].
  eapply rtc_l; [by apply (demo_rule_on maps (@step_start _ _ _) demo_turn)|].
  eapply rtc_l; [by apply (demo_rule_on maps (@step_sleep _ _ _) demo_started 1000)|].
  eapply rtc_l; [by apply (demo_rule_on maps (@step_turn _ _ _) demo_paused [])|].
  eapply rtc_l; [by apply (demo_rule_on maps (@step_sleep _ _ _)
                             (mkSystem (demo_idle 3) 99 (Some 1002) [] demo_map [1] false)
                             1002)|].
  apply rtc_once.
  apply (demo_rule_on maps (@step_end _ _ _)
           (mkSystem (demo_idle 4) 99 None [] demo_map [1; 1] false) [] []
           ("host/cpu.idle", [demo_strategy])); [done..|].
  vm_compute. reflexivity.
Qed.
