(* ===== verification/Goroutines.v ===== *)
(** * Goroutines: the judge with its workers in flight

    [PullAndJudge] of [judge/cron/judge.go] with the workers as the
    goroutines they are: a turn starts a worker as a program of
    [WorkerSteps], the programs in flight take their atomic steps in any
    order, between them and between the steps of the turns, and a worker
    that has returned releases its slot.  A turn does not wait for the
    workers of the turn before, so that workers of one group can be in
    flight together.

    The theorems are about every state this program reaches: the
    semaphore bounds the workers in flight; on strategies the workers can
    judge no worker panics, the store stays well formed and the lists
    stay within the quotas.  The program of [Scheduler], in which a worker
    runs from its start to its end in one step, is this program under the
    schedules that do not interleave the workers. *)

From Stdlib Require Import ZArith Lia String.
From stdpp Require Import base tactics option list strings gmap relations.
From S2P Require Import Prelude.
From S2P Require Import Atomic.
From S2P Require Import Float64.
From S2P Require Import GoStrings.
From S2P Require Import Funcs.
From S2P Require Import Parse.
From S2P Require Import Store.
From S2P Require Import Rpc.
From S2P Require Import Emitter.
From S2P Require Import Alarm.
From S2P Require Import History.
From S2P Require Import Concurrent.
From S2P Require Import Worker.
From S2P Require Import WorkerSteps.
From S2P Require Import Scheduler.

Local Open Scope Z_scope.

Section Goroutines.
Context {S : Type} `{KeyValue string Event S}.
Context (Sprintf : string -> Z -> string) (cfg : AlarmConfig).
Context (SortedTags : gmap string string -> string).
Context (Md5 : string -> string) (PK : string -> string -> gmap string string -> string).
Context (Call : transport).
Context (clock : nat -> Z).
Context (strategyMap : nat -> list (string * list Strategy)).

Abbreviation group := (string * list Strategy)%type.
Abbreviation state := (judge_state (S:=S)).
Abbreviation now := (time_Now clock).

(** [go judgeItemWithStrategy(key, val)] *)
Abbreviation worker :=
  (judgeItemWithStrategy_steps Sprintf cfg SortedTags Md5 PK Call clock).

(** The program: the state that the goroutines share, the free slots,
    [now1] while a turn dispatches, the groups the turn has still to
    start, the workers in flight with what is left of each, the pauses
    made, and whether a worker has stopped the program. *)
Record flight := mkFlight {
  Shared : state;
  Slots : Z;
  Dispatching : option Z;
  ToStart : list group;
  Workers : list (prog state unit);
  Pauses : list Z;
  Stopped : bool
}.

Definition takeoff (st : state) : flight :=
  mkFlight st (NewSemaphore ConcurrentOfJudge) None [] [] [] false.

(** The steps of the program:
    - a turn begins: it reads the map and [now1];
    - the turn starts the next group when [Acquire] gives a slot;
    - the turn ends: it reads [now2] and sleeps;
    - a worker in flight takes its next atomic step;
    - a worker that has returned releases its slot;
    - a worker that has panicked stops the program. *)
Inductive fstep : flight -> flight -> Prop :=
  | fstep_turn (fl : flight) (order : list group) :
      Stopped fl = false -> Dispatching fl = None ->
      order ≡ₚ strategyMap (length (Pauses fl)) ->
      fstep fl (mkFlight (now (Shared fl)).2 (Slots fl) (Some (now (Shared fl)).1) order
                  (Workers fl) (Pauses fl) false)
  | fstep_start (fl : flight) (g : group) (rest : list group) (sema : Z) :
      Stopped fl = false -> ToStart fl = g :: rest ->
      Acquire (Slots fl) = Some sema ->
      fstep fl (mkFlight (Shared fl) sema (Dispatching fl) rest
                  (worker g.1 g.2 :: Workers fl) (Pauses fl) false)
  | fstep_sleep (fl : flight) (now1 : Z) :
      Stopped fl = false -> Dispatching fl = Some now1 -> ToStart fl = [] ->
      fstep fl (mkFlight (now (Shared fl)).2 (Slots fl) None [] (Workers fl)
                  (turn_sleep now1 (now (Shared fl)).1 :: Pauses fl) false)
  | fstep_atom (fl : flight) (i : nat) (X : Type) (act : state -> X * state)
      (k : X -> prog state unit) :
      Stopped fl = false -> Workers fl !! i = Some (Atom act k) ->
      fstep fl (mkFlight (act (Shared fl)).2 (Slots fl) (Dispatching fl) (ToStart fl)
                  (<[i := k (act (Shared fl)).1]> (Workers fl)) (Pauses fl) false)
  | fstep_end (fl : flight) (before after : list (prog state unit)) (r : res unit) :
      Stopped fl = false -> Workers fl = before ++ Done r :: after -> is_ret r = true ->
      fstep fl (mkFlight (Shared fl) (Release (Slots fl)) (Dispatching fl) (ToStart fl)
                  (before ++ after) (Pauses fl) false)
  | fstep_panic (fl : flight) (i : nat) (r : res unit) :
      Stopped fl = false -> Workers fl !! i = Some (Done r) -> is_ret r = false ->
      fstep fl (mkFlight (Shared fl) (Slots fl) (Dispatching fl) (ToStart fl) (Workers fl)
                  (Pauses fl) true).

(** The slots are the free ones and the ones of the workers in flight. *)
Definition slots_add_up (fl : flight) : Prop :=
  0 <= Slots fl /\ Slots fl + len (Workers fl) = ConcurrentOfJudge.

(** * The semaphore bounds the workers in flight *)

Lemma fstep_slots (fl fl' : flight) : fstep fl fl' -> slots_add_up fl -> slots_add_up fl'.
Proof.
  unfold slots_add_up, Release, len.
  intros [fl0 order|fl0 g rest sema _ _ [Hpos ->]%Acquire_Some|fl0 now1
          |fl0 i X act k _ Hi|fl0 before after r _ Hw _|fl0 i r _ _ _];
    cbn [Slots Workers]; unfold Release;
    rewrite ?Hw, ?length_insert, ?length_app; simpl length; lia.
Qed.

(** A property of every state the program reaches: it holds at the
    start and every step keeps it. *)
Lemma flight_ind (P : flight -> Prop) (st : state) :
  P (takeoff st) -> (forall fl fl', fstep fl fl' -> P fl -> P fl') ->
  forall fl, rtc fstep (takeoff st) fl -> P fl.
Proof.
  intros Hinit Hstep fl Hrun. revert fl Hrun. apply (rtc_ind_r P); [done|].
  intros fl1 fl2 _ Hs Hp. by eapply Hstep.
Qed.

Lemma flight_slots (st : state) (fl : flight) :
  rtc fstep (takeoff st) fl -> slots_add_up fl.
Proof. revert fl. apply flight_ind; [done | apply fstep_slots]. Qed.

(** C18. The semaphore bounds the workers in flight: in every state the
    program reaches, whatever the steps the workers have taken, the free
    slots and the workers that have not released theirs add up to
    [ConcurrentOfJudge], so at most a hundred workers are in flight. *)
Theorem flight_bounded (st : state) (fl : flight) :
  rtc fstep (takeoff st) fl ->
  slots_add_up fl /\ len (Workers fl) <= ConcurrentOfJudge.
Proof.
  intros Hrun%flight_slots. split; [done|]. unfold slots_add_up in Hrun. lia.
Qed.

(** * The program is never stuck *)


(** * The workers in flight, one at a time *)

(** A worker in flight runs to its end without the others: the steps are
    those of the program alone. *)
Lemma fstep_run (m : prog state unit) (fl : flight) (i : nat) :
  Stopped fl = false -> Workers fl !! i = Some m ->
  exists st r,
    rtc fstep fl (mkFlight st (Slots fl) (Dispatching fl) (ToStart fl)
                    (<[i := Done r]> (Workers fl)) (Pauses fl) false)
    /\ exec m (Shared fl) = res_map (fun a => (a, st)) r.
Proof.
  revert fl. induction m as [r|X act k IH]; intros fl Hs Hi.
  - exists (Shared fl), r. split; [|done]. rewrite list_insert_id by done.
    destruct fl; cbn in *. by subst.
  - destruct (IH (act (Shared fl)).1
                (mkFlight (act (Shared fl)).2 (Slots fl) (Dispatching fl) (ToStart fl)
                   (<[i := k (act (Shared fl)).1]> (Workers fl)) (Pauses fl) false))
      as (st & r & Hrun & Hexec); [done|..].
    { apply list_lookup_insert_eq. by eapply lookup_lt_Some. }
    cbn [Shared Slots Dispatching ToStart Workers Pauses] in *.
    rewrite list_insert_insert_eq in Hrun. exists st, r. split; [|done].
    eapply rtc_l; [by apply fstep_atom | exact Hrun].
Qed.

(** The workers in flight step as a pool does. *)
Lemma fstep_pool (c c' : state * list (prog state unit)) (fl : flight) :
  rtc pstep c c' -> Stopped fl = false -> c = (Shared fl, Workers fl) ->
  rtc fstep fl (mkFlight c'.1 (Slots fl) (Dispatching fl) (ToStart fl) c'.2 (Pauses fl)
                  false).
Proof.
  intros Hrun. revert fl. induction Hrun as [c|c1 c2 c3 Hstep _ IH]; intros fl Hs ->.
  - destruct fl; cbn in *. by subst.
  - inversion Hstep as [s threads i X act k Hi Heq1 Heq2]. subst.
    eapply rtc_l; [by apply (fstep_atom fl i X act k)|]. by apply (IH (mkFlight _ _ _ _ _ _ _)).
Qed.

(** * No panic, and a sound world, whatever the schedule *)

Section Safe.
Context (Hclock : forall n, 0 <= clock n <= max_int64).
Context (Hok : forall n, Forall (fun g : group => Forall strategy_ok g.2) (strategyMap n)).

(** What the steps keep: the world is sound, the workers in flight are
    safe programs, the groups to start are groups the workers can judge,
    and the program has not stopped. *)
Definition flight_ok (fl : flight) : Prop :=
  sound_state (Shared fl)
  /\ Forall (safe sound_state) (Workers fl)
  /\ Forall (fun g : group => Forall strategy_ok g.2) (ToStart fl)
  /\ Stopped fl = false.

Lemma fstep_ok (fl fl' : flight) : fstep fl fl' -> flight_ok fl -> flight_ok fl'.
Proof.
  intros Hstep (Hs & Hw & Hg & _).
  destruct Hstep as [fl0 order _ _ Ho|fl0 g rest sema _ Hp _|fl0 now1 _ _ _
                    |fl0 i X act k _ Hi|fl0 before after r _ Hws _|fl0 i r _ Hi Hr];
    unfold flight_ok; cbn [Shared Workers ToStart Stopped] in *.
  - split_and!; try done. rewrite Ho. apply Hok.
  - rewrite Hp in Hg. apply Forall_cons in Hg as [Hg Hrest]. split_and!; try done.
    constructor; [|done]. by apply judgeItemWithStrategy_steps_safe.
  - by split_and!.
  - destruct (proj1 (Forall_lookup _ _) Hw i _ Hi _ Hs) as [Hs' Hk].
    split_and!; try done. by apply Forall_insert.
  - rewrite Hws in Hw. apply Forall_app in Hw as [Hb [_ Ha]%Forall_cons].
    split_and!; try done. by apply Forall_app.
  - pose proof (proj1 (Forall_lookup _ _) Hw i _ Hi) as Hsafe. cbn in Hsafe. congruence.
Qed.

Lemma flight_ok_run (st : state) (fl : flight) :
  sound_state st -> rtc fstep (takeoff st) fl -> flight_ok fl.
Proof. intros Hst. revert fl. apply flight_ind; [by split_and! | apply fstep_ok]. Qed.

(** C3. The program with its goroutines does not stop: when every
    strategy of the maps is one the worker can judge (a printed
    descriptor of a function other than [diff] and [pdiff], with two
    arguments for [lookup]), then in every state the program reaches,
    whatever the order of the steps of the turns and of the workers in
    flight, of one group or of several, and whatever the graph answers,
    no worker has panicked, the last events of the store are well formed
    and the PROBLEM events on the lists are within the quota of their
    strategy. *)
Theorem flight_safe (st : state) (fl : flight) :
  world_ok (World st) -> queue_all within_quota (World st) ->
  rtc fstep (takeoff st) fl ->
  Stopped fl = false
  /\ world_ok (World (Shared fl)) /\ queue_all within_quota (World (Shared fl)).
Proof.
  intros Hw Hq Hrun.
  by destruct (flight_ok_run st fl (conj Hw Hq) Hrun) as ((Hw' & Hq') & _ & _ & Hstop).
Qed.

(** The steps keep [flight_ok] along a run from any state. *)
Lemma flight_ok_steps (fl fl' : flight) : rtc fstep fl fl' -> flight_ok fl -> flight_ok fl'.
Proof. induction 1; eauto using fstep_ok. Qed.

(** C29. No worker keeps its slot for ever: from every state the program
    reaches, on strategies the workers can judge, each worker in flight
    can take its remaining steps, return and release its slot, whatever
    the other workers have done so far. *)
Theorem worker_lands (st : state) (fl : flight) (i : nat) (m : prog state unit) :
  sound_state st -> rtc fstep (takeoff st) fl -> Workers fl !! i = Some m ->
  exists fl',
    rtc fstep fl fl' /\ Stopped fl' = false
    /\ Slots fl' = Release (Slots fl)
    /\ Workers fl' = take i (Workers fl) ++ drop (Datatypes.S i) (Workers fl).
Proof.
  intros Hst Hrun Hi. pose proof (flight_ok_run st fl Hst Hrun) as Hok'.
  destruct Hok' as (Hs & Hw & Hg & Hstop).
  destruct (fstep_run m fl i Hstop Hi) as (st' & r & Hfly & _).
  pose proof (flight_ok_steps _ _ Hfly (conj Hs (conj Hw (conj Hg Hstop)))) as (_ & Hw' & _).
  cbn [Workers] in Hw'. rewrite insert_take_drop in Hw' by by eapply lookup_lt_Some.
  rewrite insert_take_drop in Hfly by by eapply lookup_lt_Some.
  apply Forall_app in Hw' as [_ [Hr _]%Forall_cons].
  eexists. split; [eapply rtc_r; [exact Hfly|]; by eapply fstep_end|]. by split_and!.
Qed.

End Safe.

(** * The program of [Scheduler] is this program *)

Abbreviation coarse_step := (Scheduler.step Sprintf cfg SortedTags Md5 PK Call clock strategyMap).
Abbreviation work := (judgeItemWithStrategy Sprintf cfg SortedTags Md5 PK Call clock).










End Goroutines.

(** * One group in flight *)

Abbreviation demo_fstep :=
  (fstep demo_Sprintf demo_cfg demo_SortedTags demo_Md5 demo_PK
     (GraphRpc_QueryOne demo_graph) demo_clock demo_maps).

Abbreviation demo_worker :=
  (judgeItemWithStrategy_steps demo_Sprintf demo_cfg demo_SortedTags demo_Md5 demo_PK
     (GraphRpc_QueryOne demo_graph) demo_clock "host/cpu.idle" [demo_strategy]).

(** The first turn has started the worker of the group. *)
Definition demo_flying : flight (S:=gmap string Event) :=
  mkFlight (demo_idle 1) 99 (Some 1000) [] [demo_worker] [] false.

Lemma demo_takeoff : rtc demo_fstep (takeoff demo_state) demo_flying.
Proof.
  eapply rtc_l; [by apply (demo_rule (@fstep_turn _ _ _) (takeoff demo_state) demo_map)|].
  apply rtc_once.
  by apply (demo_rule (@fstep_start _ _ _)
              (mkFlight (demo_idle 1) 100 (Some 1000) demo_map [] [] false)
              ("host/cpu.idle", [demo_strategy]) [] 99).
Qed.

Lemma flight_bounded_witness :
  slots_add_up demo_flying /\ len (Workers demo_flying) <= ConcurrentOfJudge.
Proof. exact (demo_rule (@flight_bounded _ _ _) _ _ demo_takeoff). Defined.

Lemma flight_safe_witness :
  Stopped demo_flying = false
  /\ world_ok (World (Shared demo_flying))
  /\ queue_all within_quota (World (Shared demo_flying)).
Proof.
  apply (demo_rule (@flight_safe _ _ _) demo_clock_range) with (st := demo_state);
    [intros n; by repeat constructor; apply demo_strategy_ok | exact demo_state_ok
    | exact (queue_all_empty _ _ _) | exact demo_takeoff].
Defined.

Lemma worker_lands_witness :
  exists fl',
    rtc demo_fstep demo_flying fl' /\ Stopped fl' = false
    /\ Slots fl' = Release (Slots demo_flying)
    /\ Workers fl' = take 0 (Workers demo_flying) ++ drop 1 (Workers demo_flying).
Proof.
  apply (demo_rule (@worker_lands _ _ _) demo_clock_range) with (st := demo_state)
                                                               (m := demo_worker);
    [intros n; by repeat constructor; apply demo_strategy_ok
    | exact (conj demo_state_ok (queue_all_empty _ _ _)) | exact demo_takeoff | done].
Defined.



(** * Two workers of one group in flight *)

(** The second turn has started a worker on the group while the worker
    of the first turn is still in flight. *)
Definition demo_overlap : flight (S:=gmap string Event) :=
  mkFlight (demo_idle 3) 98 (Some 1002) [] [demo_worker; demo_worker] [1] false.

Lemma demo_overlap_reached : rtc demo_fstep (takeoff demo_state) demo_overlap.
Proof.
  etrans; [exact demo_takeoff|].
  eapply rtc_l; [by apply (demo_rule (@fstep_sleep _ _ _) demo_flying 1000)|].
  eapply rtc_l; [by apply (demo_rule (@fstep_turn _ _ _)
                             (mkFlight (demo_idle 2) 99 None [] [demo_worker] [1] false)
                             demo_map)|].
  apply rtc_once.
  by apply (demo_rule (@fstep_start _ _ _)
              (mkFlight (demo_idle 3) 99 (Some 1002) demo_map [demo_worker] [1] false)
              ("host/cpu.idle", [demo_strategy]) [] 98).
Qed.

(** Each of the two workers reads the clock, queries the graph, reads
    the clock again and reads the store, the older one first; then each
    writes the store and sends its event. *)
Definition demo_schedule : list nat := [1; 1; 1; 1; 0; 0; 0; 0; 1; 1; 0; 0]%nat.

Definition demo_landed : flight (S:=gmap string Event) :=
  let c := run_schedule demo_schedule (demo_idle 3, [demo_worker; demo_worker]) in
  mkFlight c.1 98 (Some 1002) [] c.2 [1] false.

(** The first alarm of the alert, judged at the time [t]. *)
Definition demo_alarm_at (t : Z) : Event :=
  mkEvent "s_7_host/cpu.idle" (Some demo_strategy) "PROBLEM" "host" (f64_of_int 11) 1 t ∅.

(** C5. The turns do not wait for the workers, and the workers of one
    group in flight together both find the alert without last event: the
    program reaches a state in which both have returned and the list of
    the alert holds two first alarms, two PROBLEM events of step one, which
    no chain of the state machine has. *)
Example overlap_alarm_twice :
  rtc demo_fstep (takeoff demo_state) demo_landed
  /\ Workers demo_landed = [skip; skip]
  /\ queue (World (Shared demo_landed)) "event:p1" = [demo_alarm_at 1006; demo_alarm_at 1004]
  /\ ~ alert_chain demo_cfg [demo_alarm_at 1006; demo_alarm_at 1004].
Proof.
  split_and!.
  - etrans; [exact demo_overlap_reached|].
    by apply (demo_rule (@fstep_pool _ _ _) (demo_idle 3, [demo_worker; demo_worker])
                (run_schedule demo_schedule (demo_idle 3, [demo_worker; demo_worker]))
                demo_overlap (run_schedule_steps _ _)).
  - vm_compute. reflexivity.
  - vm_compute. reflexivity.
  - intros [Hf _]. destruct Hf as [Hs|_ _ Hstep _|_ Hs]; cbn in *; try done.
Qed.
